(** * bs-agent-runner: the agent session and stream-reconstruction engine

    A shallow embedding of the TypeScript sources
      - [types.ts]                      (data model),
      - [atoms.ts]                      (the two persisted atoms and the sentinels),
      - [atomWithSyncedLocalStorage.ts] (the synced atom),
      - [session-utils.ts]              (the session repository),
      - [debug-handlers.ts]             (the debug trace reducer),
      - [use-agent.ts]                  (the stream consumer),
      - [agent-context.tsx]             (the registry of runners),
    followed by the properties of the specification, each proved or refuted
    on these definitions.

    Conventions of the embedding.
      - A JavaScript value that may be [undefined] is an [option].
      - React state and jotai atoms are fields of an explicit state record;
        a setter called with an updater function applies that function to
        the field.  Values a callback reads from its closure (the current
        session id seen by [syncSessionRef.current], [messagesRef.current])
        are read from the state the callback starts in.
      - [Date.now()] is an explicit argument [now].
      - JavaScript objects compared with [===] carry an allocation number
        ([ref]); every object literal takes a fresh one.
      - A [Record<string, T>] whose property order is observed
        ([Object.values]) is an association list in the order the language
        enumerates the properties; one that is only read and written by
        key is a [gmap].  A [Map] is an association list in insertion
        order. *)

From Stdlib Require Import ZArith.
From stdpp Require Import base option list gmap strings pretty.

Open Scope string_scope.
Open Scope list_scope.

(** ** types.ts *)

Module Types.

Inductive Role := user | agent.

#[global] Instance Role_eq_dec : EqDecision Role.
Proof. solve_decision. Defined.

(** [Message]; [ref] is the identity of the JavaScript object. *)
Record Message := mkMessage {
  ref : nat;
  role : Role;
  content : string;
  executionId : option string
}.

(** Payloads typed [unknown] in the source. *)
Inductive JValue :=
| JUndefined
| JNull
| JBool (b : bool)
| JNum (n : Z)
| JStr (s : string).

Inductive Status := progress | complete | error.

#[global] Instance Status_eq_dec : EqDecision Status.
Proof. solve_decision. Defined.

Record ToolExecutionItem := mkTool {
  toolId : string;
  toolCallId : option string;
  status : Status;
  inputs : option JValue;
  output : option JValue;
  logs : option (list JValue)
}.

(** [DebugDataType] is an array of the three item variants, told apart by
    their [itemType] tag. *)
Inductive TraceItem :=
| tool_call (t : ToolExecutionItem)
| reasoning (text : string)
| handoff (agentName : string).

Abbreviation DebugDataType := (list TraceItem).

(** [Session].  The type declares [id] and [createdAt] as present; the
    record [syncSessionRef] builds for a session id with no stored record
    has neither, so both are optional here. *)
Record Session := mkSession {
  id : option string;
  createdAt : option Z;
  updatedAt : Z;
  messages : list Message;
  name : option string
}.

(** The events routed to the debug handlers
    ([AgentDebugEventType], [LLMReasoningDeltaEventType],
    [AgentHandoffEventType]); the first argument is [meta.executionId],
    the others are the fields of [data] the handlers read. *)
Inductive DebugEvent :=
| debug_tool_execution_started (exec : string) (toolId toolCallId : option string)
| debug_tool_execution_inputs (exec : string) (tcid : option string) (value : JValue)
| debug_tool_execution_finished (exec : string) (tcid : option string) (value : JValue)
| debug_tool_execution_error (exec : string) (tcid : option string) (value : JValue)
| debug_tool_log (exec : string) (tcid : option string) (value : list JValue)
| llm_reasoning_delta (exec : string) (delta : string) (index : Z)
| agent_handoff (exec : string) (agentName : string).

(** One frame of the event stream as [onmessage] sees it after
    [JSON.parse]: a text delta, an event for the debug handlers, or
    anything else (malformed JSON, an unknown type). *)
Inductive Frame :=
| llm_text_delta (data : string) (exec : string)
| debug_frame (ev : DebugEvent)
| other_frame.

End Types.
Export Types.

(** ** JavaScript helpers *)

Module Js.

(** [!s] for a value typed [string] that may be [undefined]. *)
Definition falsy (s : option string) : bool :=
  match s with
  | None => true
  | Some s => bool_decide (s = "")
  end.

(** A plain object with string keys, as the list of its own properties in
    the order the language enumerates them ([Object.values], spread): the
    keys that spell an array index first, in ascending numeric order, then
    the other keys in the order they were created. *)
Abbreviation Obj V := (list (string * V)).

Fixpoint obj_get {V} (k : string) (o : Obj V) : option V :=
  match o with
  | [] => None
  | (k', v) :: o' => if decide (k' = k) then Some v else obj_get k o'
  end.

(** The value of a decimal digit. *)
Definition digit (a : Ascii.ascii) : option N :=
  let n := Ascii.N_of_ascii a in
  if (48 <=? n)%N && (n <=? 57)%N then Some (n - 48)%N else None.

Fixpoint parseDigits (s : string) (acc : N) : option N :=
  match s with
  | EmptyString => Some acc
  | String a s' =>
      match digit a with
      | Some d => parseDigits s' (10 * acc + d)%N
      | None => None
      end
  end.

(** A key that spells an array index: the canonical decimal spelling of
    an integer from 0 to 2^32 - 2. *)
Definition arrayIndex (k : string) : option N :=
  match k with
  | EmptyString => None
  | _ =>
      match parseDigits k 0 with
      | Some n =>
          if bool_decide (pretty n = k) && (n <? 4294967295)%N then Some n else None
      | None => None
      end
  end.

(** The key spells an array index below [n]. *)
Definition indexBelow (n : N) (k : string) : bool :=
  match arrayIndex k with
  | Some n' => (n' <? n)%N
  | None => false
  end.

(** Writing an existing property: it keeps its place. *)
Fixpoint obj_replace {V} (k : string) (v : V) (o : Obj V) : Obj V :=
  match o with
  | [] => []
  | (k', v') :: o' =>
      if decide (k' = k) then (k, v) :: o' else (k', v') :: obj_replace k v o'
  end.

(** Creating a property whose key spells the array index [n]: it goes
    after the array indices below [n] and before everything else. *)
Fixpoint obj_place {V} (n : N) (k : string) (v : V) (o : Obj V) : Obj V :=
  match o with
  | [] => [(k, v)]
  | (k', v') :: o' =>
      match arrayIndex k' with
      | Some n' =>
          if (n' <? n)%N then (k', v') :: obj_place n k v o' else (k, v) :: (k', v') :: o'
      | None => (k, v) :: (k', v') :: o'
      end
  end.

(** [{ ...o, [k]: v }]: an existing property keeps its place; a new one
    goes to its numeric place when its key spells an array index, and
    last otherwise. *)
Definition obj_set {V} (k : string) (v : V) (o : Obj V) : Obj V :=
  match obj_get k o with
  | Some _ => obj_replace k v o
  | None =>
      match arrayIndex k with
      | Some n => obj_place n k v o
      | None => o ++ [(k, v)]
      end
  end.

(** [m.set(k, v)] on a [Map], whose entries are in insertion order
    whatever the keys: an existing key keeps its place, a new one goes
    last. *)
Fixpoint map_set {V} (k : string) (v : V) (o : Obj V) : Obj V :=
  match o with
  | [] => [(k, v)]
  | (k', v') :: o' =>
      if decide (k' = k) then (k, v) :: o' else (k', v') :: map_set k v o'
  end.

(** [delete o[k]]. *)
Fixpoint obj_delete {V} (k : string) (o : Obj V) : Obj V :=
  match o with
  | [] => []
  | (k', v') :: o' =>
      if decide (k' = k) then obj_delete k o' else (k', v') :: obj_delete k o'
  end.

(** [Object.values(o)]. *)
Definition obj_values {V} (o : Obj V) : list V := o.*2.

Definition obj_keys {V} (o : Obj V) : list string := o.*1.

(** [l[l.length - 1]]. *)
Definition last_elem {A} (l : list A) : option A := l !! (length l - 1).

(** [l.slice(0, -1)]. *)
Definition slice_init {A} (l : list A) : list A := take (length l - 1) l.

End Js.
Export Js.

(** ** atoms.ts *)

Module Atoms.

Definition DEFAULT_SESSION_NAME : string := "New Chat".
Definition TEMPORARY_SESSION_ID : string := "sess_temp".

(** The value of [buildshipAgentSessionAtom]:
    agent id -> session id -> session. *)
Abbreviation AllSessions := (gmap string (Obj Session)).

(** The value of [buildshipAgentDebugDataAtom]:
    execution id -> trace. *)
Abbreviation DebugData := (gmap string DebugDataType).

End Atoms.
Export Atoms.

(** ** debug-handlers.ts *)

Module DebugHandlers.

(** [prev[executionId] || []]. *)
Definition traceOf (prev : DebugData) (executionId : string) : DebugDataType :=
  default [] (prev !! executionId).

(** The loop shared by the four update handlers and the reasoning
    handler:
      [for (let i = currentData.length - 1; i >= 0; i--)
         if (<currentData[i] qualifies>) { currentData[i] = <new item>; break; }]
    [upd x] is [Some y] when [x] qualifies and is replaced by [y].
    [scanBack upd i l] runs the iterations for the indices below [i]. *)
Fixpoint scanBack (upd : TraceItem -> option TraceItem) (i : nat)
    (currentData : DebugDataType) : DebugDataType :=
  match i with
  | 0 => currentData
  | S j =>
      match currentData !! j with
      | Some x =>
          match upd x with
          | Some y => <[j := y]> currentData
          | None => scanBack upd j currentData
          end
      | None => scanBack upd j currentData
      end
  end.

Definition updateLast (upd : TraceItem -> option TraceItem)
    (currentData : DebugDataType) : DebugDataType :=
  scanBack upd (length currentData) currentData.

(** [currentData[i].itemType === "tool_call" &&
     toolItem.toolCallId === toolCallId], then the replacement [f]. *)
Definition onTool (tcid : option string)
    (f : ToolExecutionItem -> ToolExecutionItem) (x : TraceItem) : option TraceItem :=
  match x with
  | tool_call t =>
      if decide (toolCallId t = tcid) then Some (tool_call (f t)) else None
  | _ => None
  end.

Definition onReasoning (delta : string) (x : TraceItem) : option TraceItem :=
  match x with
  | reasoning r => Some (reasoning (r +:+ delta))
  | _ => None
  end.

Definition handleDebugToolExecutionStarted (executionId : string)
    (tid tcid : option string) (prev : DebugData) : DebugData :=
  <[executionId :=
      traceOf prev executionId ++
      [tool_call {| toolId := if falsy tid then "unknown" else default "" tid;
                    toolCallId := tcid;
                    status := progress;
                    inputs := None; output := None; logs := None |}]]> prev.

(** The four object literals the update handlers build from the item they
    found: [{ ...toolItem, inputs: value }],
    [{ ...toolItem, status: "complete", output: value }],
    [{ ...toolItem, status: "error", output: value }] and
    [{ ...toolItem, logs: [...(toolItem.logs || []), value[0]] }]. *)
Definition withInputs (value : JValue) (t : ToolExecutionItem) : ToolExecutionItem :=
  {| toolId := toolId t; toolCallId := toolCallId t; status := status t;
     inputs := Some value; output := output t; logs := logs t |}.

Definition withComplete (value : JValue) (t : ToolExecutionItem) : ToolExecutionItem :=
  {| toolId := toolId t; toolCallId := toolCallId t; status := complete;
     inputs := inputs t; output := Some value; logs := logs t |}.

Definition withError (value : JValue) (t : ToolExecutionItem) : ToolExecutionItem :=
  {| toolId := toolId t; toolCallId := toolCallId t; status := error;
     inputs := inputs t; output := Some value; logs := logs t |}.

Definition withLog (value : list JValue) (t : ToolExecutionItem) : ToolExecutionItem :=
  {| toolId := toolId t; toolCallId := toolCallId t; status := status t;
     inputs := inputs t; output := output t;
     logs := Some (default [] (logs t) ++ [default JUndefined (head value)]) |}.

Definition handleDebugToolExecutionInputs (executionId : string)
    (tcid : option string) (value : JValue) (prev : DebugData) : DebugData :=
  <[executionId :=
      updateLast (onTool tcid (withInputs value)) (traceOf prev executionId)]> prev.

Definition handleDebugToolExecutionFinished (executionId : string)
    (tcid : option string) (value : JValue) (prev : DebugData) : DebugData :=
  <[executionId :=
      updateLast (onTool tcid (withComplete value)) (traceOf prev executionId)]> prev.

Definition handleDebugToolExecutionError (executionId : string)
    (tcid : option string) (value : JValue) (prev : DebugData) : DebugData :=
  <[executionId :=
      updateLast (onTool tcid (withError value)) (traceOf prev executionId)]> prev.

Definition handleDebugToolLog (executionId : string)
    (tcid : option string) (value : list JValue) (prev : DebugData) : DebugData :=
  <[executionId :=
      updateLast (onTool tcid (withLog value)) (traceOf prev executionId)]> prev.

(** The state of one [createDebugHandlers] instance together with the
    atom it writes: the closure variable [lastReasoningIndex] and the
    trace map. *)
Record Handlers := mkHandlers {
  lastReasoningIndex : Z;
  debugData : DebugData
}.

(** A fresh instance: [let lastReasoningIndex = -1]. *)
Definition createDebugHandlers (d : DebugData) : Handlers :=
  {| lastReasoningIndex := -1; debugData := d |}.

Definition handleDebugReasoningStep (executionId : string) (delta : string)
    (index : Z) (h : Handlers) : Handlers :=
  let currentData := traceOf (debugData h) executionId in
  let advance := bool_decide (lastReasoningIndex h < index)%Z in
  let currentData := if advance then currentData ++ [reasoning ""] else currentData in
  {| lastReasoningIndex := if advance then index else lastReasoningIndex h;
     debugData :=
       <[executionId := updateLast (onReasoning delta) currentData]> (debugData h) |}.

Definition handleAgentHandoff (executionId : string) (agentName : string)
    (prev : DebugData) : DebugData :=
  <[executionId := traceOf prev executionId ++ [handoff agentName]]> prev.

Definition setDebugData (f : DebugData -> DebugData) (h : Handlers) : Handlers :=
  {| lastReasoningIndex := lastReasoningIndex h; debugData := f (debugData h) |}.

Definition handleDebugEvent (parsed : DebugEvent) (h : Handlers) : Handlers :=
  match parsed with
  | debug_tool_execution_started e tid tcid =>
      setDebugData (handleDebugToolExecutionStarted e tid tcid) h
  | debug_tool_execution_inputs e tcid v =>
      setDebugData (handleDebugToolExecutionInputs e tcid v) h
  | debug_tool_execution_finished e tcid v =>
      setDebugData (handleDebugToolExecutionFinished e tcid v) h
  | debug_tool_execution_error e tcid v =>
      setDebugData (handleDebugToolExecutionError e tcid v) h
  | debug_tool_log e tcid v =>
      setDebugData (handleDebugToolLog e tcid v) h
  | llm_reasoning_delta e delta index =>
      handleDebugReasoningStep e delta index h
  | agent_handoff e a =>
      setDebugData (handleAgentHandoff e a) h
  end.

(** [meta.executionId] of an event. *)
Definition eventExecutionId (parsed : DebugEvent) : string :=
  match parsed with
  | debug_tool_execution_started e _ _
  | debug_tool_execution_inputs e _ _
  | debug_tool_execution_finished e _ _
  | debug_tool_execution_error e _ _
  | debug_tool_log e _ _
  | llm_reasoning_delta e _ _
  | agent_handoff e _ => e
  end.

End DebugHandlers.
Export DebugHandlers.

(** ** atomWithSyncedLocalStorage.ts *)

Module SyncedAtom.

(** How a call into the storage backend, or the write of the atom, ends. *)
Inductive Completion := returned | thrown.

(** What an updater may produce: a value or the [RESET] sentinel. *)
Inductive Next (Value : Type) :=
| next_value (v : Value)
| RESET.
Arguments next_value {Value} v.
Arguments RESET {Value}.

(** [SetStateAction<Value>]: a literal or a function of the previous
    value. *)
Inductive SetStateAction (Value : Type) :=
| set_literal (n : Next Value)
| set_updater (f : Value -> Next Value).
Arguments set_literal {Value} n.
Arguments set_updater {Value} f.

(** The atom with the storage region it is bound to: the in-memory
    [baseAtom], the item under [key] and the arguments of the
    [storage.setItem] calls made so far, oldest first.  The item is kept
    as the value the storage was last handed and took (the region holds
    its JSON text), or the one found when the atom was created; [None]
    when the region holds no item.  What reading an item back gives (the
    parse of that text, which need not be the value written) is not
    modelled, and nothing below relies on it. *)
Record Atom (Value : Type) := mkAtom {
  baseAtom : Value;
  stored : option Value;
  setItemCalls : list Value
}.
Arguments mkAtom {Value}.
Arguments baseAtom {Value}.
Arguments stored {Value}.
Arguments setItemCalls {Value}.

Section atomWithSyncedStorage.

Context {Value : Type}.

(** The storage backend, an external capability: [fits v] tells whether
    it takes the serialisation of [v]; when it does not, [setItem] throws
    (quota exceeded) and stores nothing. *)
Variable fits : Value -> bool.

(** JavaScript truthiness of a [Value], for [||]. *)
Variable truthy : Value -> bool.

Variable initialValue : Value.

(** The optional fourth argument of [atomWithSyncedStorage], as a function
    of the [update] it is handed (always the rejected [nextValue]). *)
Variable overrideValue : option (Value -> Value).

(** [atom(storage.getItem(key, initialValue))], where [item] is what
    [getItem] reads under [key], if anything. *)
Definition atomWithSyncedStorage (item : option Value) : Atom Value :=
  {| baseAtom := default initialValue item; stored := item; setItemCalls := [] |}.

(** [storage.setItem(key, v)]: the storage takes [v] or throws. *)
Definition setItem (v : Value) (a : Atom Value) : Atom Value * Completion :=
  if fits v
  then ({| baseAtom := baseAtom a; stored := Some v;
           setItemCalls := setItemCalls a ++ [v] |}, returned)
  else ({| baseAtom := baseAtom a; stored := stored a;
           setItemCalls := setItemCalls a ++ [v] |}, thrown).

(** [typeof update === "function" ? update(get(baseAtom)) : update]. *)
Definition nextOf (update : SetStateAction Value) (a : Atom Value) : Next Value :=
  match update with
  | set_updater f => f (baseAtom a)
  | set_literal n => n
  end.

(** The write function of [derivedAtom]. *)
Definition write (update : SetStateAction Value) (a : Atom Value)
    : Atom Value * Completion :=
  match nextOf update a with
  | RESET =>
      ({| baseAtom := initialValue; stored := None;
          setItemCalls := setItemCalls a |}, returned)
  | next_value nextValue =>
      let a := {| baseAtom := nextValue; stored := stored a;
                  setItemCalls := setItemCalls a |} in
      match setItem nextValue a with
      | (a, returned) => (a, returned)
      | (a, thrown) =>
          let overridenValue :=
            match overrideValue with
            | Some f => if truthy (f nextValue) then f nextValue else nextValue
            | None => nextValue
            end in
          setItem overridenValue a
      end
  end.

End atomWithSyncedStorage.

End SyncedAtom.

(** ** session-utils.ts *)

Module SessionUtils.

(** The two pieces of state the hook is handed with their setters: the
    value of the session atom and the current session id. *)
Record Repo := mkRepo {
  allSessions : AllSessions;
  currentSessionId : option string
}.

(** [sessions.sort((a, b) => b.updatedAt - a.updatedAt)]; the sort of an
    array is stable. *)
Fixpoint insertByUpdatedAt (s : Session) (l : list Session) : list Session :=
  match l with
  | [] => [s]
  | x :: l' =>
      if bool_decide (updatedAt x <= updatedAt s)%Z
      then s :: x :: l'
      else x :: insertByUpdatedAt s l'
  end.

Definition sortByUpdatedAtDesc (l : list Session) : list Session :=
  foldr insertByUpdatedAt [] l.

Section useSessionUtils.

Variable agentId : string.

(** [allSessions[agentId] || {}]. *)
Definition agentSessions (all : AllSessions) : Obj Session :=
  default [] (all !! agentId).

(** [syncSessionRef.current], a closure over [currentSessionId] and
    [messagesRef]; the result is the new value of the session atom. *)
Definition syncSession (currentSessionId : option string)
    (messagesRef : list Message) (now : Z)
    (updatedMessages : option (list Message)) (prev : AllSessions) : AllSessions :=
  match currentSessionId with
  | None => prev
  | Some sid =>
      if bool_decide (sid = "") || bool_decide (sid = TEMPORARY_SESSION_ID)
      then prev
      else
        let old := obj_get sid (agentSessions prev) in
        <[agentId :=
            obj_set sid
              {| id := old ≫= id;
                 createdAt := old ≫= createdAt;
                 name := old ≫= name;
                 messages := default messagesRef updatedMessages;
                 updatedAt := now |}
              (agentSessions prev)]> prev
  end.

Definition getInitialSessionId (all : AllSessions) : option string :=
  match sortByUpdatedAtDesc (obj_values (agentSessions all)) with
  | s :: _ => id s
  | [] => Some TEMPORARY_SESSION_ID
  end.

(** [switchSession(sessionId = TEMPORARY_SESSION_ID)]; [None] is a call
    without argument. *)
Definition switchSession (sessionId : option string) (r : Repo) : Repo :=
  {| allSessions := allSessions r;
     currentSessionId := Some (default TEMPORARY_SESSION_ID sessionId) |}.

Definition deleteSession (sessionId : option string) (r : Repo) : Repo :=
  match sessionId with
  | None => r
  | Some sid =>
      if bool_decide (sid = "") || bool_decide (sid = TEMPORARY_SESSION_ID)
      then r
      else
        {| allSessions :=
             <[agentId := obj_delete sid (agentSessions (allSessions r))]> (allSessions r);
           currentSessionId :=
             if decide (Some sid = currentSessionId r)
             then
               let remainingSessions :=
                 filter (fun s => id s ≠ Some sid)
                        (obj_values (agentSessions (allSessions r))) in
               match sortByUpdatedAtDesc remainingSessions with
               | mostRecent :: _ => id mostRecent
               | [] => Some TEMPORARY_SESSION_ID
               end
             else currentSessionId r |}
  end.

(** [Object.values(agentSessions).sort(...)]. *)
Definition sessionsList (all : AllSessions) : list Session :=
  sortByUpdatedAtDesc (obj_values (agentSessions all)).

Definition createSessionFromResponse (sessionId sessionName : string)
    (currentMessages : list Message) (now : Z) (prev : AllSessions) : AllSessions :=
  <[agentId :=
      obj_set sessionId
        {| id := Some sessionId;
           createdAt := Some now;
           updatedAt := now;
           messages := currentMessages;
           name := Some sessionName |}
        (agentSessions prev)]> prev.

(** The operations the hook returns, as they act on the repository. *)
Inductive Op :=
| op_sync (messagesRef : list Message) (now : Z) (updatedMessages : option (list Message))
| op_switchSession (sessionId : option string)
| op_deleteSession (sessionId : option string)
| op_createSessionFromResponse (sessionId sessionName : string)
    (currentMessages : list Message) (now : Z).

Definition setAllSessions (f : AllSessions -> AllSessions) (r : Repo) : Repo :=
  {| allSessions := f (allSessions r); currentSessionId := currentSessionId r |}.

Definition step (r : Repo) (o : Op) : Repo :=
  match o with
  | op_sync ref now upd =>
      setAllSessions (syncSession (currentSessionId r) ref now upd) r
  | op_switchSession sid => switchSession sid r
  | op_deleteSession sid => deleteSession sid r
  | op_createSessionFromResponse sid nm msgs now =>
      setAllSessions (createSessionFromResponse sid nm msgs now) r
  end.

Definition run (ops : list Op) (r : Repo) : Repo := foldl step r ops.

End useSessionUtils.

End SessionUtils.

(** ** use-agent.ts *)

Module UseAgent.

(** The state of one [useAgent] instance: the two [useState] cells, the
    session repository it shares with [useSessionUtils], the debug
    handlers it created with the atom they write, and the allocator of
    object identities.

    What is modelled are the callbacks: [runAgent] with the handlers it
    gives to [fetchEventSource], [handleSend] and [addOptimisticMessage].
    One request is in flight at a time (the abort of a superseded request
    is not modelled) and the request itself (headers, body) is the
    business of the server.  The effect that reloads the transcript from
    the current session while nothing is in progress is [loadSession]; it
    is not part of any callback. *)
Record Agent := mkAgent {
  messages : list Message;
  inProgress : bool;
  sessions : SessionUtils.Repo;
  debug : Handlers;
  nextRef : nat
}.

(** What the stream consumer reads from the response in [onopen]. *)
Record Response := mkResponse {
  status : nat;
  statusText : string;
  sessionIdHeader : option string;
  sessionNameHeader : option string;
  executionIdHeader : option string
}.

(** How the event stream ends: the server closes it, or the transport
    fails. *)
Inductive StreamEnd := stream_closed | stream_failed.

(** One request as [fetchEventSource] plays it to its callbacks: the
    response ([None] when the request itself fails), the frames in arrival
    order and the end of the stream, each with the time it happens at. *)
Record Exchange := mkExchange {
  response : option Response;
  openedAt : Z;
  frames : list (Z * Frame);
  ending : StreamEnd;
  endedAt : Z
}.

(** How the promise of [runAgent] or [handleSend] settles. *)
Inductive Outcome := resolved | rejected (message : string).

Section useAgent.

Variable agentId : string.

Definition setMessages (ms : list Message) (st : Agent) : Agent :=
  {| messages := ms; inProgress := inProgress st; sessions := sessions st;
     debug := debug st; nextRef := nextRef st |}.

Definition setInProgress (b : bool) (st : Agent) : Agent :=
  {| messages := messages st; inProgress := b; sessions := sessions st;
     debug := debug st; nextRef := nextRef st |}.

Definition setAllSessions (f : AllSessions -> AllSessions) (st : Agent) : Agent :=
  {| messages := messages st; inProgress := inProgress st;
     sessions := SessionUtils.setAllSessions f (sessions st);
     debug := debug st; nextRef := nextRef st |}.

Definition setCurrentSessionId (sid : option string) (st : Agent) : Agent :=
  {| messages := messages st; inProgress := inProgress st;
     sessions := {| SessionUtils.allSessions := SessionUtils.allSessions (sessions st);
                    SessionUtils.currentSessionId := sid |};
     debug := debug st; nextRef := nextRef st |}.

Definition setDebug (h : Handlers) (st : Agent) : Agent :=
  {| messages := messages st; inProgress := inProgress st; sessions := sessions st;
     debug := h; nextRef := nextRef st |}.

(** Taking a fresh object identity. *)
Definition allocate (st : Agent) : Agent :=
  {| messages := messages st; inProgress := inProgress st; sessions := sessions st;
     debug := debug st; nextRef := S (nextRef st) |}.

(** What the callbacks of one render read from their closure: the session
    id [syncSessionRef.current] was built with, and [messagesRef.current]. *)
Record Closure := mkClosure {
  closureSessionId : option string;
  closureMessagesRef : list Message
}.

Definition closureOf (st : Agent) : Closure :=
  {| closureSessionId := SessionUtils.currentSessionId (sessions st);
     closureMessagesRef := messages st |}.

(** [sessionUtils.syncSessionRef.current(updatedMessages)]. *)
Definition syncSessionRef_current (cl : Closure) (now : Z)
    (updatedMessages : option (list Message)) (st : Agent) : Agent :=
  setAllSessions
    (SessionUtils.syncSession agentId (closureSessionId cl) (closureMessagesRef cl)
       now updatedMessages) st.

(** The updater [onmessage] hands to [setMessages] for an
    [llm_text_delta] frame, without its call to sync; [r] is the identity
    of the object literal it builds. *)
Definition appendTextDelta (r : nat) (data exec : string)
    (prev : list Message) : list Message :=
  match last_elem prev with
  | Some lastMessage =>
      if decide (role lastMessage = agent)
      then slice_init prev ++
           [{| ref := r; role := role lastMessage;
               content := content lastMessage +:+ data;
               executionId := executionId lastMessage |}]
      else prev ++ [{| ref := r; role := agent; content := data;
                       executionId := Some exec |}]
  | None => prev ++ [{| ref := r; role := agent; content := data;
                        executionId := Some exec |}]
  end.

Definition onmessage (now : Z) (f : Frame) (st : Agent) : Agent :=
  match f with
  | llm_text_delta data exec =>
      let updatedMessages := appendTextDelta (nextRef st) data exec (messages st) in
      syncSessionRef_current (closureOf st) now (Some updatedMessages)
        (setMessages updatedMessages (allocate st))
  | debug_frame parsed => setDebug (handleDebugEvent parsed (debug st)) st
  | other_frame => st
  end.

(** The frames of a stream, handed to [onmessage] one by one. *)
Definition deliver (fs : list (Z * Frame)) (st : Agent) : Agent :=
  foldl (fun st tf => onmessage tf.1 tf.2 st) st fs.

(** The updater [onopen] hands to [setMessages] when the response carries
    an execution id, without its call to sync: [None] when it returns
    [prev] itself. *)
Definition attachExecutionId (r : nat) (executionId : string)
    (prev : list Message) : option (list Message) :=
  match last_elem prev with
  | Some lastMessage =>
      if decide (role lastMessage = user)
      then Some (slice_init prev ++
                 [{| ref := r; role := role lastMessage;
                     content := content lastMessage;
                     executionId := Some executionId |}])
      else None
  | None => None
  end.

(** [onopen] after the status check, first part: the session id header.
    [currentSessionId] is the one [runAgent] closed over; [cl] is the
    closure of the last render. *)
Definition onopenSession (currentSessionId : option string) (cl : Closure)
    (now : Z) (resp : Response) (st : Agent) : Agent :=
  if falsy currentSessionId
     || bool_decide (currentSessionId = Some TEMPORARY_SESSION_ID)
  then
    if falsy (sessionIdHeader resp) then st
    else
      let sessionId := default "" (sessionIdHeader resp) in
      let sessionName :=
        if falsy (sessionNameHeader resp) then DEFAULT_SESSION_NAME
        else default "" (sessionNameHeader resp) in
      setCurrentSessionId (Some sessionId)
        (setAllSessions
           (SessionUtils.createSessionFromResponse agentId sessionId sessionName
              (closureMessagesRef cl) now) st)
  else st.

(** Second part: the execution id header. *)
Definition onopenExecution (cl : Closure) (now : Z) (resp : Response)
    (st : Agent) : Agent :=
  if falsy (executionIdHeader resp) then st
  else
    match attachExecutionId (nextRef st) (default "" (executionIdHeader resp))
            (messages st) with
    | Some updatedMessages =>
        syncSessionRef_current cl now (Some updatedMessages)
          (setMessages updatedMessages (allocate st))
    | None => st
    end.

Definition onopenHeaders (currentSessionId : option string) (cl : Closure)
    (now : Z) (resp : Response) (st : Agent) : Agent :=
  onopenExecution cl now resp (onopenSession currentSessionId cl now resp st).

(** [onopen]: [inr] carries the message of the error it throws. *)
Definition onopen (currentSessionId : option string) (now : Z)
    (resp : Response) (st : Agent) : Agent + string :=
  if bool_decide (400 <= status resp)
  then
    if bool_decide (status resp = 404)
    then inr ("Not Found (" +:+ statusText resp +:+ ")")
    else inr ("Error status " +:+ pretty (status resp))
  else inl (onopenHeaders currentSessionId (closureOf st) now resp st).

Definition onclose (now : Z) (st : Agent) : Agent :=
  let cl := closureOf st in
  syncSessionRef_current cl now None (setInProgress false st).

(** [onerror], which ends by throwing; and the [catch] of [runAgent],
    which does the same again before rethrowing. *)
Definition onerror (now : Z) (st : Agent) : Agent :=
  let cl := closureOf st in
  syncSessionRef_current cl now (Some (closureMessagesRef cl)) (setInProgress false st).

Definition runAgentCatch (now : Z) (st : Agent) : Agent :=
  let cl := closureOf st in
  syncSessionRef_current cl now (Some (closureMessagesRef cl)) (setInProgress false st).

(** [fetchEventSource] reports every failure (of the request, of
    [onopen], of the stream) to [onerror]; [onerror] throws, and the
    library rejects with what it threw. *)
Definition failed (now : Z) (st : Agent) : Agent * Outcome :=
  (runAgentCatch now (onerror now st), rejected "Failed to execute agent").

Definition runAgent (input : string) (x : Exchange) (st : Agent) : Agent * Outcome :=
  let currentSessionId := SessionUtils.currentSessionId (sessions st) in
  let st := setInProgress true st in
  match response x with
  | None => failed (openedAt x) st
  | Some resp =>
      match onopen currentSessionId (openedAt x) resp st with
      | inr _ => failed (openedAt x) st
      | inl st =>
          let st := deliver (frames x) st in
          match ending x with
          | stream_closed => (onclose (endedAt x) st, resolved)
          | stream_failed => failed (endedAt x) st
          end
      end
  end.

(** [prev.some((m) => m === userMessage)]. *)
Definition includesObject (userMessage : Message) (prev : list Message) : bool :=
  existsb (fun m => bool_decide (ref m = ref userMessage)) prev.

Definition handleSend (input : string) (skipUserMessage : bool) (now : Z)
    (x : Exchange) (st : Agent) : Agent * Outcome :=
  let userMessage :=
    {| ref := nextRef st; role := user; content := input;
       executionId := Some (pretty now) |} in
  let st := allocate st in
  let st :=
    if skipUserMessage then st
    else
      let updatedMessages := messages st ++ [userMessage] in
      syncSessionRef_current (closureOf st) now (Some updatedMessages)
        (setMessages updatedMessages st) in
  match runAgent input x st with
  | (st, resolved) => (st, resolved)
  | (st, rejected e) =>
      let st :=
        if skipUserMessage then st
        else
          let updatedMessages :=
            if includesObject userMessage (messages st)
            then messages st
            else messages st ++ [userMessage] in
          syncSessionRef_current (closureOf st) (endedAt x) (Some updatedMessages)
            (setMessages updatedMessages st) in
      (st, rejected e)
  end.

Definition addOptimisticMessage (input : string) (now : Z) (st : Agent) : Agent :=
  let userMessage :=
    {| ref := nextRef st; role := user; content := input;
       executionId := Some (pretty now) |} in
  let st := allocate st in
  let updatedMessages := messages st ++ [userMessage] in
  syncSessionRef_current (closureOf st) now (Some updatedMessages)
    (setMessages updatedMessages st).

(** The effect "initialize or load session", which runs after a render
    in which the current session id, the agent's sessions or [inProgress]
    changed: while nothing is in progress, the transcript is replaced by
    the stored messages of the current session, or emptied when that
    session has no record. *)
Definition loadSession (st : Agent) : Agent :=
  if inProgress st then st
  else
    match SessionUtils.currentSessionId (sessions st)
          ≫= (fun sid => obj_get sid (SessionUtils.agentSessions agentId
                                        (SessionUtils.allSessions (sessions st)))) with
    | Some session => setMessages (Types.messages session) st
    | None => setMessages [] st
    end.

(** [switchSession] and [deleteSession] as the hook returns them: those
    of [useSessionUtils]. *)
Definition setSessions (r : SessionUtils.Repo) (st : Agent) : Agent :=
  {| messages := messages st; inProgress := inProgress st; sessions := r;
     debug := debug st; nextRef := nextRef st |}.

Definition switchSession (sessionId : option string) (st : Agent) : Agent :=
  setSessions (SessionUtils.switchSession sessionId (sessions st)) st.

Definition deleteSession (sessionId : option string) (st : Agent) : Agent :=
  setSessions (SessionUtils.deleteSession agentId sessionId (sessions st)) st.

(** The hook before its first send: no transcript, the temporary session,
    fresh debug handlers over the stored traces. *)
Definition init (all : AllSessions) (d : DebugData) : Agent :=
  {| messages := []; inProgress := false;
     sessions := {| SessionUtils.allSessions := all;
                    SessionUtils.currentSessionId := Some TEMPORARY_SESSION_ID |};
     debug := createDebugHandlers d;
     nextRef := 0 |}.

End useAgent.

(** The number of messages of a role in a transcript. *)
Definition countRole (r : Role) (ms : list Message) : nat :=
  length (filter (fun m => role m = r) ms).

(** The payloads of the text deltas among the frames, in arrival order. *)
Definition payloads (fs : list (Z * Frame)) : list string :=
  omap (fun tf => match tf.2 with llm_text_delta data _ => Some data | _ => None end) fs.

(** [meta.executionId] of the text deltas among the frames. *)
Definition deltaExecutionIds (fs : list (Z * Frame)) : list string :=
  omap (fun tf => match tf.2 with llm_text_delta _ exec => Some exec | _ => None end) fs.

(** Concatenation of strings, in order. *)
Definition concat (l : list string) : string := foldr String.append "" l.

(** A transcript without the identities of its objects. *)
Definition view (ms : list Message) : list (Role * string * option string) :=
  (fun m => (role m, content m, executionId m)) <$> ms.

End UseAgent.

(** ** Vocabulary of the properties *)

Module Props.

(** [x] is a [ToolExecutionItem] whose [toolCallId] is [tcid]. *)
Definition isToolFor (tcid : option string) (x : TraceItem) : Prop :=
  match x with
  | tool_call t => toolCallId t = tcid
  | _ => False
  end.

#[global] Instance isToolFor_dec tcid x : Decision (isToolFor tcid x).
Proof. destruct x; simpl; apply _. Defined.

Definition isReasoning (x : TraceItem) : Prop :=
  match x with
  | reasoning _ => True
  | _ => False
  end.

#[global] Instance isReasoning_dec x : Decision (isReasoning x).
Proof. destruct x; simpl; apply _. Defined.

(** The reasoning item of greatest index of a trace sits at [k] and holds
    the text [r]. *)
Definition lastReasoningAt (l : DebugDataType) (k : nat) (r : string) : Prop :=
  l !! k = Some (reasoning r)
  /\ forall j x, k < j -> l !! j = Some x -> ~ isReasoning x.

(** The number of reasoning items of a trace. *)
Definition reasoningItems (l : DebugDataType) : nat := length (filter isReasoning l).

(** The update events with, for each, its execution id, the [toolCallId]
    it looks for and the object literal its handler builds. *)
Inductive IsUpdate :
  DebugEvent -> string -> option string -> (ToolExecutionItem -> ToolExecutionItem) -> Prop :=
| update_inputs e tcid v :
    IsUpdate (debug_tool_execution_inputs e tcid v) e tcid (withInputs v)
| update_finished e tcid v :
    IsUpdate (debug_tool_execution_finished e tcid v) e tcid (withComplete v)
| update_error e tcid v :
    IsUpdate (debug_tool_execution_error e tcid v) e tcid (withError v)
| update_log e tcid v :
    IsUpdate (debug_tool_log e tcid v) e tcid (withLog v).

(** The trace of an execution as a handler instance holds it. *)
Definition trace (h : Handlers) (e : string) : DebugDataType :=
  traceOf (debugData h) e.

(** Events handled in order by one instance. *)
Definition handleAll (evs : list DebugEvent) (h : Handlers) : Handlers :=
  foldl (fun h ev => handleDebugEvent ev h) h evs.

(** The role of the last message of a transcript, if there is one. *)
Definition lastRole (ms : list Message) : option Role := role <$> last_elem ms.

(** No session of any agent is stored under the temporary id. *)
Definition noTemporary (all : AllSessions) : Prop :=
  forall a o, all !! a = Some o -> obj_get TEMPORARY_SESSION_ID o = None.

(** An operation that is not [createSessionFromResponse] with the
    temporary id as the new session's id. *)
Definition notCreatingTemporary (o : SessionUtils.Op) : Prop :=
  match o with
  | SessionUtils.op_createSessionFromResponse sid _ _ _ => sid ≠ TEMPORARY_SESSION_ID
  | _ => True
  end.

(** Every record an agent's sessions hold carries its key as its [id]. *)
Definition keyedById (o : Obj Session) : Prop :=
  forall k s, (k, s) ∈ o -> id s = Some k.

(** The transcript holds a user message that is the object [u]. *)
Definition holdsUser (u : nat) (l : list Message) : Prop :=
  exists m, m ∈ l /\ ref m = u /\ role m = user.

(** The value the catch block of the synced atom's write hands to the
    second [setItem]: [overrideValue?.(get, set, nextValue) || nextValue]. *)
Definition retried {Value : Type} (truthy : Value -> bool)
    (overrideValue : option (Value -> Value)) (v : Value) : Value :=
  match overrideValue with
  | Some f => if truthy (f v) then f v else v
  | None => v
  end.

(** A storage backend that takes strings of at most eight characters, and
    the truthiness of strings. *)
Definition smallStore (s : string) : bool := bool_decide (String.length s <= 8).

Definition nonEmpty (s : string) : bool := negb (bool_decide (s = "")).

End Props.
Export Props.

(** ** agent-context.tsx *)

Module AgentContext.

(** The provider: the [Map] of [activeAgentsRef], agent id to agent url in
    insertion order (the order [entries()] renders the runner instances
    in; [get] is [obj_get], [set] is [map_set]), and the number of
    [forceUpdate] calls made. *)
Record Provider := mkProvider {
  activeAgents : Obj string;
  forceUpdates : nat
}.

Definition newProvider : Provider := {| activeAgents := []; forceUpdates := 0 |}.

Definition initializeAgent (agentId agentUrl : string) (p : Provider) : Provider :=
  let existingUrl := obj_get agentId (activeAgents p) in
  if falsy existingUrl
  then {| activeAgents := map_set agentId agentUrl (activeAgents p);
          forceUpdates := S (forceUpdates p) |}
  else if bool_decide (existingUrl ≠ Some agentUrl)
  then {| activeAgents := map_set agentId agentUrl (activeAgents p);
          forceUpdates := S (forceUpdates p) |}
  else p.

(** Calls of [initializeAgent], oldest first. *)
Definition initializeAll (calls : list (string * string)) (p : Provider) : Provider :=
  foldl (fun p c => initializeAgent c.1 c.2 p) p calls.

End AgentContext.

(** ** Vocabulary of the further properties *)

Module Further.

(** A trace item without what the update handlers may change: a tool item
    keeps [toolId] and [toolCallId], a reasoning item only its kind, a
    handoff item everything. *)
Definition skeleton (x : TraceItem) : TraceItem :=
  match x with
  | tool_call t =>
      tool_call {| toolId := toolId t; toolCallId := toolCallId t; status := progress;
                   inputs := None; output := None; logs := None |}
  | reasoning _ => reasoning ""
  | handoff a => handoff a
  end.

Definition hasReasoning (l : DebugDataType) : Prop :=
  exists x, x ∈ l /\ isReasoning x.

(** The text of the reasoning items of a trace, in trace order. *)
Definition textOf (x : TraceItem) : string :=
  match x with
  | reasoning r => r
  | _ => ""
  end.

Definition reasoningText (l : DebugDataType) : string :=
  foldr (fun x acc => textOf x +:+ acc) "" l.

(** The texts of the reasoning deltas for execution [e] among events, in
    order. *)
Definition deltasFor (e : string) (evs : list DebugEvent) : list string :=
  omap (fun ev => match ev with
                  | llm_reasoning_delta e' d _ => if decide (e' = e) then Some d else None
                  | _ => None
                  end) evs.

(** The greatest of [c] and the indices of the reasoning deltas among
    events. *)
Definition maxIndex (evs : list DebugEvent) (c : Z) : Z :=
  foldl (fun c ev => match ev with
                     | llm_reasoning_delta _ _ i => Z.max c i
                     | _ => c
                     end) c evs.

(** [value[0]] of a log event. *)
Definition logEntry (value : list JValue) : JValue := default JUndefined (head value).

(** A tool item with log entries appended to its [logs]. *)
Definition withLogs (entries : list JValue) (t : ToolExecutionItem) : ToolExecutionItem :=
  {| toolId := toolId t; toolCallId := toolCallId t; status := status t;
     inputs := inputs t; output := output t;
     logs := Some (default [] (logs t) ++ entries) |}.

(** The events for the debug handlers among frames, in order. *)
Definition debugEvents (fs : list (Z * Frame)) : list DebugEvent :=
  omap (fun tf => match tf.2 with debug_frame ev => Some ev | _ => None end) fs.

(** A session id that names a real session: neither falsy nor the
    temporary id. *)
Definition established (sid : option string) : Prop :=
  exists s, sid = Some s /\ s ≠ "" /\ s ≠ TEMPORARY_SESSION_ID.

(** The messages stored for the current session of an agent. *)
Definition storedMessages (agentId : string) (r : SessionUtils.Repo)
    : option (list Message) :=
  match SessionUtils.currentSessionId r with
  | Some sid =>
      messages <$>
        obj_get sid (SessionUtils.agentSessions agentId (SessionUtils.allSessions r))
  | None => None
  end.

(** The agent's sessions are well kept: every record carries its key as
    [id], and the current session id is the temporary id or the key of a
    stored session. *)
Definition wellKept (agentId : string) (r : SessionUtils.Repo) : Prop :=
  keyedById (SessionUtils.agentSessions agentId (SessionUtils.allSessions r))
  /\ (SessionUtils.currentSessionId r = Some TEMPORARY_SESSION_ID
      \/ exists k, SessionUtils.currentSessionId r = Some k
                   /\ is_Some (obj_get k (SessionUtils.agentSessions agentId
                                            (SessionUtils.allSessions r)))).

(** An operation that does not switch to an id without stored session. *)
Definition switchesToStored (agentId : string) (r : SessionUtils.Repo)
    (o : SessionUtils.Op) : Prop :=
  match o with
  | SessionUtils.op_switchSession (Some sid) =>
      sid = TEMPORARY_SESSION_ID
      \/ is_Some (obj_get sid (SessionUtils.agentSessions agentId
                                 (SessionUtils.allSessions r)))
  | _ => True
  end.

(** Operations run in order, each one checked against the state it meets. *)
Fixpoint allSwitchesToStored (agentId : string) (ops : list SessionUtils.Op)
    (r : SessionUtils.Repo) : Prop :=
  match ops with
  | [] => True
  | o :: ops =>
      switchesToStored agentId r o
      /\ allSwitchesToStored agentId ops (SessionUtils.step agentId r o)
  end.

(** Writes through a synced atom, one after the other, whatever each one's
    completion. *)
Definition writeAll {Value : Type} (fits truthy : Value -> bool) (initialValue : Value)
    (overrideValue : option (Value -> Value))
    (updates : list (SyncedAtom.SetStateAction Value)) (a : SyncedAtom.Atom Value)
    : SyncedAtom.Atom Value :=
  foldl (fun a u => (SyncedAtom.write fits truthy initialValue overrideValue u a).1)
        a updates.

(** The in-memory value a sequence of updates leads to, storage left
    aside. *)
Definition applyAll {Value : Type} (initialValue : Value)
    (updates : list (SyncedAtom.SetStateAction Value)) (v : Value) : Value :=
  foldl (fun v u =>
           match u with
           | SyncedAtom.set_literal (SyncedAtom.next_value w) => w
           | SyncedAtom.set_literal SyncedAtom.RESET => initialValue
           | SyncedAtom.set_updater f =>
               match f v with
               | SyncedAtom.next_value w => w
               | SyncedAtom.RESET => initialValue
               end
           end) v updates.

(** Sessions in descending order of [updatedAt]: each one is at least as
    recent as all that follow. *)
Fixpoint descending (l : list Session) : Prop :=
  match l with
  | [] => True
  | x :: l' => Forall (fun y => (updatedAt y <= updatedAt x)%Z) l' /\ descending l'
  end.

(** What sync stores for a session: the fields of the record it found, if
    any, with the messages and the time of the sync. *)
Definition merged (old : option Session) (msgs : list Message) (now : Z) : Session :=
  {| id := old ≫= id; createdAt := old ≫= createdAt; name := old ≫= name;
     messages := msgs; updatedAt := now |}.

(** The transcript [m] keeps all of [l] but possibly its last message,
    and is at least as long. *)
Definition keepsHistory (l m : list Message) : Prop :=
  take (length l - 1) m = slice_init l /\ length l <= length m.

(** The text deltas among frames, in order. *)
Definition textFrames (fs : list (Z * Frame)) : list (Z * Frame) :=
  omap (fun tf => match tf.2 with llm_text_delta _ _ => Some tf | _ => None end) fs.

(** The agent's sessions hold, under [sid], a record with that id as
    [id], created at [c] and named [n]. *)
Definition holdsSession (agentId sid : string) (c : Z) (n : string)
    (r : SessionUtils.Repo) : Prop :=
  exists s, obj_get sid (SessionUtils.agentSessions agentId (SessionUtils.allSessions r))
            = Some s
    /\ id s = Some sid /\ createdAt s = Some c /\ name s = Some n.

End Further.
Export Further.

(** * Properties *)

(** ** The backward scan *)

Section ScanBack.

Variable upd : TraceItem -> option TraceItem.

Lemma scanBack_app (i : nat) (l t : DebugDataType) :
  i <= length l -> scanBack upd i (l ++ t) = scanBack upd i l ++ t.
Proof.
  induction i as [|j IH]; intros Hi; [done|].
  cbn [scanBack]. rewrite lookup_app_l by lia.
  destruct (l !! j) as [x|]; [destruct (upd x) as [y|]|].
  - rewrite insert_app_l by lia. done.
  - apply IH. lia.
  - apply IH. lia.
Qed.

Lemma updateLast_hit (l : DebugDataType) (x y : TraceItem) :
  upd x = Some y -> updateLast upd (l ++ [x]) = l ++ [y].
Proof.
  intros Hx. unfold updateLast. rewrite length_app. simpl.
  replace (length l + 1) with (S (length l)) by lia. cbn [scanBack].
  rewrite lookup_app_r by lia. rewrite Nat.sub_diag. cbn [lookup list_lookup].
  rewrite Hx. rewrite insert_app_r_alt by lia. rewrite Nat.sub_diag. done.
Qed.

Lemma updateLast_miss (l : DebugDataType) (x : TraceItem) :
  upd x = None -> updateLast upd (l ++ [x]) = updateLast upd l ++ [x].
Proof.
  intros Hx. unfold updateLast. rewrite length_app. simpl.
  replace (length l + 1) with (S (length l)) by lia. cbn [scanBack].
  rewrite lookup_app_r by lia. rewrite Nat.sub_diag. cbn [lookup list_lookup].
  rewrite Hx. apply scanBack_app. lia.
Qed.

Lemma updateLast_nil : updateLast upd [] = [].
Proof. done. Qed.

Lemma updateLast_length (l : DebugDataType) :
  length (updateLast upd l) = length l.
Proof.
  induction l as [|x l IH] using rev_ind; [done|].
  destruct (upd x) as [y|] eqn:E.
  - rewrite (updateLast_hit _ _ _ E). rewrite !length_app. done.
  - rewrite (updateLast_miss _ _ E). rewrite !length_app, IH. done.
Qed.

(** Nothing qualifies: the array is returned as it was. *)
Lemma updateLast_none (l : DebugDataType) :
  (forall x, x ∈ l -> upd x = None) -> updateLast upd l = l.
Proof.
  induction l as [|x l IH] using rev_ind; intros H; [done|].
  rewrite updateLast_miss by (apply H; set_solver).
  rewrite IH; [done|]. intros z Hz. apply H. set_solver.
Qed.

(** The item replaced is the qualifying one of greatest index, and no
    other index changes. *)
Lemma updateLast_most_recent (l : DebugDataType) (k : nat) (x y : TraceItem) :
  l !! k = Some x -> upd x = Some y ->
  (forall j z, k < j -> l !! j = Some z -> upd z = None) ->
  updateLast upd l = <[k := y]> l.
Proof.
  revert k. induction l as [|z l IH] using rev_ind; intros k Hk Hx Hlater; [done|].
  destruct (decide (k = length l)) as [->|Hne].
  - rewrite lookup_app_r in Hk by lia. rewrite Nat.sub_diag in Hk.
    simpl in Hk. injection Hk as ->.
    rewrite (updateLast_hit _ _ _ Hx).
    rewrite insert_app_r_alt by lia. rewrite Nat.sub_diag. done.
  - assert (k < length l) as Hlt.
    { apply lookup_lt_Some in Hk. rewrite length_app in Hk. simpl in Hk. lia. }
    rewrite lookup_app_l in Hk by lia.
    rewrite updateLast_miss.
    + rewrite insert_app_l by lia. f_equal. apply IH; [done..|].
      intros j w Hj Hw. apply (Hlater j w Hj).
      rewrite lookup_app_l; [done|]. by apply lookup_lt_Some in Hw.
    + apply (Hlater (length l) z Hlt).
      rewrite lookup_app_r by lia. by rewrite Nat.sub_diag.
Qed.

End ScanBack.

(** ** Strings *)

Lemma append_cons (x : Ascii.ascii) (a b : string) :
  String x a +:+ b = String x (a +:+ b).
Proof. reflexivity. Qed.

Lemma append_assoc (a b c : string) : (a +:+ b) +:+ c = a +:+ (b +:+ c).
Proof.
  induction a as [|x a IH]; [reflexivity|].
  rewrite !append_cons. by rewrite IH.
Qed.

Lemma append_empty_r (a : string) : a +:+ "" = a.
Proof.
  induction a as [|x a IH]; [reflexivity|].
  rewrite append_cons. by rewrite IH.
Qed.

(** ** The debug trace reducer *)

Lemma traceOf_insert (m : DebugData) (e : string) (l : DebugDataType) :
  traceOf (<[e := l]> m) e = l.
Proof. unfold traceOf. by rewrite lookup_insert_eq. Qed.

Lemma traceOf_insert_ne (m : DebugData) (e e' : string) (l : DebugDataType) :
  e ≠ e' -> traceOf (<[e := l]> m) e' = traceOf m e'.
Proof. intros H. unfold traceOf. by rewrite lookup_insert_ne. Qed.

Lemma onTool_match (tcid : option string) f (t : ToolExecutionItem) :
  toolCallId t = tcid -> onTool tcid f (tool_call t) = Some (tool_call (f t)).
Proof. intros H. unfold onTool. by rewrite decide_True. Qed.

Lemma onTool_other (tcid : option string) f (x : TraceItem) :
  ~ isToolFor tcid x -> onTool tcid f x = None.
Proof.
  destruct x as [t| |]; simpl; intros H; [|done..].
  by rewrite decide_False.
Qed.

Lemma filter_none {A} (P : A -> Prop) `{!forall x, Decision (P x)} (l : list A) :
  (forall x, x ∈ l -> ~ P x) -> filter P l = [].
Proof.
  induction l as [|x l IH]; intros Hl; [done|].
  rewrite filter_cons_False by (apply Hl; set_solver).
  apply IH. intros z Hz. apply Hl. set_solver.
Qed.

(** What an update event does to the trace of its execution. *)
Lemma update_event_trace (ev : DebugEvent) (e : string) (tcid : option string)
    f (h : Handlers) :
  IsUpdate ev e tcid f ->
  debugData (handleDebugEvent ev h)
  = <[e := updateLast (onTool tcid f) (trace h e)]> (debugData h).
Proof. intros H. destruct H; reflexivity. Qed.

(** Every event writes the trace of its own execution and no other. *)
Lemma handleDebugEvent_frame (ev : DebugEvent) (h : Handlers) (e' : string) :
  e' ≠ eventExecutionId ev ->
  debugData (handleDebugEvent ev h) !! e' = debugData h !! e'.
Proof.
  intros Hne. destruct ev; simpl in *;
    unfold handleDebugToolExecutionStarted, handleDebugToolExecutionInputs,
      handleDebugToolExecutionFinished, handleDebugToolExecutionError,
      handleDebugToolLog, handleAgentHandoff;
    by rewrite lookup_insert_ne.
Qed.

Lemma updateLast_onReasoning_twice (d1 d2 : string) (l : DebugDataType) :
  updateLast (onReasoning d2) (updateLast (onReasoning d1) l)
  = updateLast (onReasoning (d1 +:+ d2)) l.
Proof.
  induction l as [|x l IH] using rev_ind; [done|].
  destruct x as [t|r|a].
  - rewrite !updateLast_miss by done. by rewrite IH.
  - rewrite (updateLast_hit (onReasoning d1) l (reasoning r) (reasoning (r +:+ d1))) by done.
    rewrite (updateLast_hit (onReasoning d2) l _ (reasoning ((r +:+ d1) +:+ d2))) by done.
    rewrite (updateLast_hit (onReasoning (d1 +:+ d2)) l _
               (reasoning (r +:+ d1 +:+ d2))) by done.
    by rewrite append_assoc.
  - rewrite !updateLast_miss by done. by rewrite IH.
Qed.

Lemma onReasoning_other (d : string) (x : TraceItem) :
  ~ isReasoning x -> onReasoning d x = None.
Proof. destruct x; simpl; tauto. Qed.

(** C3 (as amended).  When the trace of an execution holds no tool item
    with the [toolCallId] of a [debug_tool_execution_started] event, that
    event followed by the [debug_tool_execution_finished] event with the
    same [toolCallId] leaves the trace extended by one tool item, the only
    one with that [toolCallId], of status [complete] and with the finished
    event's value as output.  Every update event (inputs, finished, error,
    log) replaces the tool item of greatest index with its [toolCallId],
    changes no other index, never changes the length of the trace, and
    leaves the trace as it was when no tool item has that [toolCallId]. *)
Theorem tool_started_then_finished :
  (forall (h : Handlers) (e : string) (tid tcid : option string) (v : JValue),
      (forall x, x ∈ trace h e -> ~ isToolFor tcid x) ->
      let h' := handleAll [debug_tool_execution_started e tid tcid;
                           debug_tool_execution_finished e tcid v] h in
      (exists t, trace h' e = trace h e ++ [tool_call t]
                 /\ toolCallId t = tcid /\ status t = complete /\ output t = Some v)
      /\ length (filter (isToolFor tcid) (trace h' e)) = 1)
  /\ (forall (ev : DebugEvent) (e : string) (tcid : option string) f (h : Handlers),
      IsUpdate ev e tcid f ->
      let l := trace h e in
      let l' := trace (handleDebugEvent ev h) e in
      (forall k t, l !! k = Some (tool_call t) -> toolCallId t = tcid ->
                   (forall j x, k < j -> l !! j = Some x -> ~ isToolFor tcid x) ->
                   l' = <[k := tool_call (f t)]> l)
      /\ ((forall x, x ∈ l -> ~ isToolFor tcid x) -> l' = l)
      /\ length l' = length l).
Proof.
  split.
  - intros h e tid tcid v Hfresh h'.
    assert (trace h' e
            = trace h e ++
              [tool_call {| toolId := if falsy tid then "unknown" else default "" tid;
                            toolCallId := tcid; status := complete;
                            inputs := None; output := Some v; logs := None |}]) as Ht.
    { unfold h', handleAll, trace. simpl.
      unfold handleDebugToolExecutionFinished, handleDebugToolExecutionStarted.
      rewrite !traceOf_insert.
      erewrite updateLast_hit; [done|]. by apply onTool_match. }
    split.
    + eexists. split; [exact Ht|]. done.
    + rewrite Ht, filter_app, (filter_none _ _ Hfresh).
      rewrite filter_cons_True by done. done.
  - intros ev e tcid f h Hup l l'.
    assert (l' = updateLast (onTool tcid f) l) as ->.
    { unfold l', trace. rewrite (update_event_trace _ _ _ _ _ Hup).
      by rewrite traceOf_insert. }
    split; [|split].
    + intros k t Hk Ht Hlater.
      apply (updateLast_most_recent _ _ k (tool_call t)); [done| |].
      * by apply onTool_match.
      * intros j x Hj Hx. apply onTool_other. by apply (Hlater j).
    + intros Hnone. apply updateLast_none.
      intros x Hx. apply onTool_other. by apply Hnone.
    + apply updateLast_length.
Qed.

Lemma tool_started_then_finished_witness :
  let h := handleAll [llm_reasoning_delta "exec_1" "thinking" 0;
                      debug_tool_execution_started "exec_1" (Some "search") (Some "call_1")]
             (createDebugHandlers ∅) in
  (forall x, x ∈ trace h "exec_1" -> ~ isToolFor (Some "call_2") x)
  /\ length (filter (isToolFor (Some "call_2"))
       (trace (handleAll [debug_tool_execution_started "exec_1" (Some "fetch") (Some "call_2");
                          debug_tool_execution_finished "exec_1" (Some "call_2") (JStr "ok")] h)
          "exec_1")) = 1.
Proof.
  intros h.
  assert (forall x, x ∈ trace h "exec_1" -> ~ isToolFor (Some "call_2") x) as Hfresh.
  { apply Forall_forall. vm_compute. repeat constructor; intros H; congruence. }
  split; [exact Hfresh|].
  exact (proj2 (proj1 tool_started_then_finished h "exec_1" (Some "fetch")
                  (Some "call_2") (JStr "ok") Hfresh)).
Defined.

(** C3 as stated fails: on a trace that already holds a tool item with
    the same [toolCallId], a started event followed by the matching
    finished event leaves two tool items with that [toolCallId], both
    complete and with the same output. *)
Lemma tool_started_then_finished_counterexample :
  let pair := [debug_tool_execution_started "exec_1" (Some "search") (Some "call_1");
               debug_tool_execution_finished "exec_1" (Some "call_1") (JStr "r")] in
  let done1 := {| toolId := "search"; toolCallId := Some "call_1"; status := complete;
                  inputs := None; output := Some (JStr "r"); logs := None |} in
  let h := handleAll pair (createDebugHandlers ∅) in
  trace h "exec_1" = [tool_call done1]
  /\ trace (handleAll pair h) "exec_1" = [tool_call done1; tool_call done1]
  /\ length (filter (isToolFor (Some "call_1")) (trace (handleAll pair h) "exec_1")) <> 1.
Proof. vm_compute. repeat split; congruence. Qed.

(** ** Reasoning items *)

Section ReasoningItems.

Lemma reasoningItems_app (l t : DebugDataType) :
  reasoningItems (l ++ t) = reasoningItems l + reasoningItems t.
Proof. unfold reasoningItems. by rewrite filter_app, length_app. Qed.

Lemma reasoningItems_insert (l : DebugDataType) (k : nat) (x y : TraceItem) :
  l !! k = Some x -> (isReasoning x <-> isReasoning y) ->
  reasoningItems (<[k := y]> l) = reasoningItems l.
Proof.
  intros Hk Hxy. rewrite <- (take_drop_middle l k x Hk) at 2.
  rewrite insert_take_drop by (by apply lookup_lt_Some in Hk).
  rewrite !reasoningItems_app. f_equal.
  change (y :: drop (S k) l) with ([y] ++ drop (S k) l).
  change (x :: drop (S k) l) with ([x] ++ drop (S k) l).
  rewrite !reasoningItems_app. f_equal.
  unfold reasoningItems. destruct (decide (isReasoning x)) as [Hx|Hx].
  - rewrite !filter_cons_True by tauto. done.
  - rewrite !filter_cons_False by tauto. done.
Qed.

(** What the backward scan does: nothing, or one replacement at the
    qualifying item of greatest index. *)
Lemma updateLast_cases (upd : TraceItem -> option TraceItem) (l : DebugDataType) :
  updateLast upd l = l
  \/ exists k x y, l !! k = Some x /\ upd x = Some y
       /\ (forall j z, k < j -> l !! j = Some z -> upd z = None)
       /\ updateLast upd l = <[k := y]> l.
Proof.
  induction l as [|z l IH] using rev_ind; [by left|].
  destruct (upd z) as [y|] eqn:E.
  - right. exists (length l), z, y.
    split; [by rewrite lookup_app_r, Nat.sub_diag by lia|]. split; [done|]. split.
    + intros j w Hj Hw. apply lookup_lt_Some in Hw. rewrite length_app in Hw.
      simpl in Hw. lia.
    + rewrite (updateLast_hit _ _ _ _ E).
      rewrite insert_app_r_alt by lia. by rewrite Nat.sub_diag.
  - rewrite (updateLast_miss _ _ _ E).
    destruct IH as [->|(k & x & y & Hk & Hx & Hlater & ->)]; [by left|].
    right. exists k, x, y.
    assert (k < length l) as Hlt by (by apply lookup_lt_Some in Hk).
    split; [by rewrite lookup_app_l|]. split; [done|]. split.
    + intros j w Hj Hw. destruct (decide (j < length l)) as [Hjl|Hjl].
      * rewrite lookup_app_l in Hw by done. by apply (Hlater j).
      * rewrite lookup_app_r in Hw by lia.
        destruct (j - length l) as [|n]; simpl in Hw; [by injection Hw as <-|].
        by destruct n.
    + by rewrite insert_app_l.
Qed.

Lemma lastReasoningAt_insert_tool (l : DebugDataType) (k j : nat) (r : string)
    (t t' : ToolExecutionItem) :
  l !! j = Some (tool_call t) ->
  lastReasoningAt l k r -> lastReasoningAt (<[j := tool_call t']> l) k r.
Proof.
  intros Hj [Hk Hlater].
  assert (j ≠ k) as Hne by (intros ->; congruence).
  split; [by rewrite list_lookup_insert_ne|].
  intros m x Hm Hx. destruct (decide (m = j)) as [->|Hmj].
  - rewrite list_lookup_insert_eq in Hx by (by apply lookup_lt_Some in Hj).
    injection Hx as <-. simpl. tauto.
  - rewrite list_lookup_insert_ne in Hx by done. by apply (Hlater m).
Qed.

Lemma lastReasoningAt_snoc_other (l : DebugDataType) (k : nat) (r : string) (x : TraceItem) :
  ~ isReasoning x -> lastReasoningAt l k r -> lastReasoningAt (l ++ [x]) k r.
Proof.
  intros Hx [Hk Hlater].
  assert (k < length l) as Hlt by (by apply lookup_lt_Some in Hk).
  split; [by rewrite lookup_app_l|].
  intros j z Hj Hz. destruct (decide (j < length l)) as [Hjl|Hjl].
  - rewrite lookup_app_l in Hz by done. by apply (Hlater j).
  - rewrite lookup_app_r in Hz by lia.
    destruct (j - length l) as [|n]; simpl in Hz; [by injection Hz as <-|].
    by destruct n.
Qed.

Lemma lastReasoningAt_snoc (l : DebugDataType) (r : string) :
  lastReasoningAt (l ++ [reasoning r]) (length l) r.
Proof.
  split; [by rewrite lookup_app_r, Nat.sub_diag by lia|].
  intros j x Hj Hx. apply lookup_lt_Some in Hx. rewrite length_app in Hx.
  simpl in Hx. lia.
Qed.

(** The reasoning handler's scan appends to the reasoning item of
    greatest index. *)
Lemma lastReasoningAt_delta (l : DebugDataType) (k : nat) (r d : string) :
  lastReasoningAt l k r ->
  updateLast (onReasoning d) l = <[k := reasoning (r +:+ d)]> l
  /\ lastReasoningAt (updateLast (onReasoning d) l) k (r +:+ d).
Proof.
  intros [Hk Hlater].
  assert (updateLast (onReasoning d) l = <[k := reasoning (r +:+ d)]> l) as Heq.
  { apply (updateLast_most_recent _ _ k (reasoning r)); [done..|].
    intros j x Hj Hx. apply onReasoning_other. by apply (Hlater j). }
  split; [exact Heq|]. rewrite Heq. split.
  - rewrite list_lookup_insert_eq; [done|]. by apply lookup_lt_Some in Hk.
  - intros j x Hj Hx. rewrite list_lookup_insert_ne in Hx by lia. by apply (Hlater j).
Qed.

Lemma hasReasoning_lastReasoningAt (l : DebugDataType) :
  hasReasoning l -> exists k r, lastReasoningAt l k r.
Proof.
  induction l as [|x l IH] using rev_ind; intros (y & Hy & Hr).
  - by apply elem_of_nil in Hy.
  - destruct x as [t|r|a].
    + destruct IH as (k & r & Hk).
      { exists y. split; [|done]. apply elem_of_app in Hy as [Hy|Hy]; [done|].
        apply list_elem_of_singleton in Hy as ->. done. }
      exists k, r. apply lastReasoningAt_snoc_other; [simpl; tauto|done].
    + exists (length l), r. apply lastReasoningAt_snoc.
    + destruct IH as (k & r & Hk).
      { exists y. split; [|done]. apply elem_of_app in Hy as [Hy|Hy]; [done|].
        apply list_elem_of_singleton in Hy as ->. done. }
      exists k, r. apply lastReasoningAt_snoc_other; [simpl; tauto|done].
Qed.

Lemma reasoningItems_updateLast_onTool (tcid : option string) f (l : DebugDataType) :
  reasoningItems (updateLast (onTool tcid f) l) = reasoningItems l
  /\ forall k r, lastReasoningAt l k r -> lastReasoningAt (updateLast (onTool tcid f) l) k r.
Proof.
  destruct (updateLast_cases (onTool tcid f) l)
    as [->|(j & x & y & Hj & Hx & _ & ->)]; [done|].
  destruct x as [t| |]; simpl in Hx; try discriminate.
  destruct (decide (toolCallId t = tcid)); [|discriminate]. injection Hx as <-.
  split.
  - by apply (reasoningItems_insert l j (tool_call t)).
  - intros k r. by apply lastReasoningAt_insert_tool with (t := t).
Qed.

Lemma reasoningItems_updateLast_onReasoning (d : string) (l : DebugDataType) :
  reasoningItems (updateLast (onReasoning d) l) = reasoningItems l.
Proof.
  destruct (updateLast_cases (onReasoning d) l)
    as [->|(j & x & y & Hj & Hx & _ & ->)]; [done|].
  destruct x as [|r|]; simpl in Hx; try discriminate. injection Hx as <-.
  by apply (reasoningItems_insert l j (reasoning r)).
Qed.

Lemma trace_other (ev : DebugEvent) (h : Handlers) (e : string) :
  e ≠ eventExecutionId ev -> trace (handleDebugEvent ev h) e = trace h e.
Proof.
  intros Hne. unfold trace, traceOf. by rewrite handleDebugEvent_frame.
Qed.

Lemma deltasFor_other (e : string) (ev : DebugEvent) :
  e ≠ eventExecutionId ev -> deltasFor e [ev] = [].
Proof.
  intros Hne. destruct ev; try done. simpl in Hne. unfold deltasFor. simpl.
  by rewrite decide_False.
Qed.

(** One event either appends a reasoning item to the trace of an
    execution, or leaves the number of its reasoning items and the place
    of the last one, whose text grows by the event's delta if it is one for
    that execution. *)
Lemma handleDebugEvent_reasoning (ev : DebugEvent) (h : Handlers) (e : string) :
  reasoningItems (trace (handleDebugEvent ev h) e) = S (reasoningItems (trace h e))
  \/ (reasoningItems (trace (handleDebugEvent ev h) e) = reasoningItems (trace h e)
      /\ forall k r, lastReasoningAt (trace h e) k r ->
           lastReasoningAt (trace (handleDebugEvent ev h) e) k
             (r +:+ UseAgent.concat (deltasFor e [ev]))).
Proof.
  destruct (decide (e = eventExecutionId ev)) as [->|Hne].
  2:{ right. rewrite trace_other, deltasFor_other by done.
      split; [done|]. intros k r. cbn [UseAgent.concat foldr].
      by rewrite append_empty_r. }
  destruct ev as [e tid tcid|e tcid v|e tcid v|e tcid v|e tcid v|e d i|e a];
    cbn [eventExecutionId handleDebugEvent]; unfold trace, setDebugData;
    cbn [debugData deltasFor omap list_omap UseAgent.concat foldr].
  - right. unfold handleDebugToolExecutionStarted. rewrite traceOf_insert.
    rewrite reasoningItems_app. split; [unfold reasoningItems; simpl; lia|].
    intros k r Hk. rewrite append_empty_r.
    apply lastReasoningAt_snoc_other; [simpl; tauto|done].
  - right. unfold handleDebugToolExecutionInputs. rewrite traceOf_insert.
    destruct (reasoningItems_updateLast_onTool tcid (withInputs v) (traceOf (debugData h) e))
      as [Hc Hl].
    split; [done|]. intros k r Hk. rewrite append_empty_r. by apply Hl.
  - right. unfold handleDebugToolExecutionFinished. rewrite traceOf_insert.
    destruct (reasoningItems_updateLast_onTool tcid (withComplete v) (traceOf (debugData h) e))
      as [Hc Hl].
    split; [done|]. intros k r Hk. rewrite append_empty_r. by apply Hl.
  - right. unfold handleDebugToolExecutionError. rewrite traceOf_insert.
    destruct (reasoningItems_updateLast_onTool tcid (withError v) (traceOf (debugData h) e))
      as [Hc Hl].
    split; [done|]. intros k r Hk. rewrite append_empty_r. by apply Hl.
  - right. unfold handleDebugToolLog. rewrite traceOf_insert.
    destruct (reasoningItems_updateLast_onTool tcid (withLog v) (traceOf (debugData h) e))
      as [Hc Hl].
    split; [done|]. intros k r Hk. rewrite append_empty_r. by apply Hl.
  - unfold handleDebugReasoningStep. cbn [debugData]. rewrite traceOf_insert.
    rewrite decide_True by done. cbn [UseAgent.concat foldr].
    rewrite reasoningItems_updateLast_onReasoning.
    destruct (bool_decide (lastReasoningIndex h < i)%Z).
    + left. rewrite reasoningItems_app. unfold reasoningItems at 2. simpl. lia.
    + right. split; [done|]. intros k r Hk. rewrite append_empty_r.
      by apply lastReasoningAt_delta.
  - right. unfold handleAgentHandoff. rewrite traceOf_insert.
    rewrite reasoningItems_app. split; [unfold reasoningItems; simpl; lia|].
    intros k r Hk. rewrite append_empty_r.
    apply lastReasoningAt_snoc_other; [simpl; tauto|done].
Qed.

Lemma deltasFor_cons (e : string) (ev : DebugEvent) (evs : list DebugEvent) :
  UseAgent.concat (deltasFor e (ev :: evs))
  = UseAgent.concat (deltasFor e [ev]) +:+ UseAgent.concat (deltasFor e evs).
Proof.
  unfold deltasFor. cbn [omap list_omap].
  match goal with |- context [match ?x with Some _ => _ | None => _ end] =>
    destruct x as [d|] end; cbn [UseAgent.concat foldr]; [|done].
  by rewrite append_empty_r.
Qed.

(** Over a sequence of events the number of reasoning items of a trace
    never decreases; while it stays the same, the last reasoning item keeps
    its place and its text grows by the deltas for that execution. *)
Lemma handleAll_reasoning (evs : list DebugEvent) (h : Handlers) (e : string) :
  reasoningItems (trace h e) <= reasoningItems (trace (handleAll evs h) e)
  /\ (reasoningItems (trace (handleAll evs h) e) = reasoningItems (trace h e) ->
      forall k r, lastReasoningAt (trace h e) k r ->
        lastReasoningAt (trace (handleAll evs h) e) k
          (r +:+ UseAgent.concat (deltasFor e evs))).
Proof.
  revert h. induction evs as [|ev evs IH]; intros h.
  - split; [done|]. intros _ k r Hk. cbn [deltasFor omap list_omap UseAgent.concat foldr].
    by rewrite append_empty_r.
  - change (handleAll (ev :: evs) h) with (handleAll evs (handleDebugEvent ev h)).
    destruct (IH (handleDebugEvent ev h)) as [Hle Hsame].
    destruct (handleDebugEvent_reasoning ev h e) as [Hs|[Hs Hl]].
    + split; [lia|]. intros Heq. lia.
    + split; [lia|]. intros Heq k r Hk.
      rewrite deltasFor_cons, <- append_assoc.
      apply Hsame; [lia|]. by apply Hl.
Qed.

Lemma handleDebugEvent_cursor_le (ev : DebugEvent) (h : Handlers) :
  (lastReasoningIndex h <= lastReasoningIndex (handleDebugEvent ev h))%Z.
Proof.
  destruct ev; cbn [handleDebugEvent setDebugData lastReasoningIndex]; try lia.
  unfold handleDebugReasoningStep. cbn [lastReasoningIndex]. case_bool_decide; lia.
Qed.

Lemma handleAll_cursor_le (evs : list DebugEvent) (h : Handlers) :
  (lastReasoningIndex h <= lastReasoningIndex (handleAll evs h))%Z.
Proof.
  revert h. induction evs as [|ev evs IH]; intros h; [done|].
  change (handleAll (ev :: evs) h) with (handleAll evs (handleDebugEvent ev h)).
  etrans; [apply handleDebugEvent_cursor_le|apply IH].
Qed.

End ReasoningItems.

(** C4 (as amended).  Two reasoning deltas with the same index, handled
    for the same execution by one handler instance, with any events (for
    any executions) handled in between.  The second adds no item.  When
    the first reached an item (its index exceeded the cursor, or the trace
    of the execution held a reasoning item) and the trace of the execution
    holds as many reasoning items before the second as after the first,
    both texts are in the same reasoning item, the last one of the trace,
    which has not moved: after the first it ends with the first text, and
    after the second it holds, after that and in order, the texts of the
    deltas handled for that execution in between and the second text.
    That item is the new one when the index exceeded the cursor, and else
    the reasoning item of greatest index the trace held.  A delta whose
    index strictly exceeds the cursor moves the cursor to its index and
    appends a new reasoning item holding its text.  With nothing handled in
    between, the two deltas act as a single delta carrying the
    concatenation of their texts. *)
Theorem reasoning_deltas_same_index (h : Handlers) (e d1 d2 : string) (i : Z)
    (evs : list DebugEvent) :
  let h1 := handleDebugReasoningStep e d1 i h in
  let h' := handleAll evs h1 in
  let h2 := handleDebugReasoningStep e d2 i h' in
  length (trace h2 e) = length (trace h' e)
  /\ ((lastReasoningIndex h < i)%Z \/ hasReasoning (trace h e) ->
      reasoningItems (trace h' e) = reasoningItems (trace h1 e) ->
      exists k r,
        lastReasoningAt (trace h1 e) k (r +:+ d1)
        /\ lastReasoningAt (trace h2 e) k
             (r +:+ d1 +:+ UseAgent.concat (deltasFor e evs) +:+ d2)
        /\ ((lastReasoningIndex h < i)%Z -> k = length (trace h e) /\ r = "")
        /\ (~ (lastReasoningIndex h < i)%Z -> lastReasoningAt (trace h e) k r))
  /\ ((lastReasoningIndex h < i)%Z ->
        lastReasoningIndex h1 = i
        /\ trace h1 e = trace h e ++ [reasoning d1])
  /\ (evs = [] -> h2 = handleDebugReasoningStep e (d1 +:+ d2) i h).
Proof.
  intros h1 h' h2.
  assert (i <= lastReasoningIndex h1)%Z as Hc1.
  { unfold h1, handleDebugReasoningStep. cbn [lastReasoningIndex]. case_bool_decide; lia. }
  assert (~ (lastReasoningIndex h' < i)%Z) as Hc'.
  { pose proof (handleAll_cursor_le evs h1). fold h' in H. lia. }
  assert (trace h2 e = updateLast (onReasoning d2) (trace h' e)) as H2.
  { unfold h2, trace, handleDebugReasoningStep. cbn [debugData].
    by rewrite traceOf_insert, bool_decide_eq_false_2 by done. }
  assert ((lastReasoningIndex h < i)%Z ->
          lastReasoningIndex h1 = i /\ trace h1 e = trace h e ++ [reasoning d1]) as Hadv.
  { intros Hlt. unfold h1, trace, handleDebugReasoningStep.
    cbn [lastReasoningIndex debugData].
    rewrite traceOf_insert, !bool_decide_eq_true_2 by done. split; [done|].
    by rewrite (updateLast_hit (onReasoning d1) _ (reasoning "") (reasoning d1)). }
  split; [by rewrite H2, updateLast_length|]. split; [|split; [exact Hadv|]].
  - intros Hreach Hsame.
    assert (exists k r, lastReasoningAt (trace h1 e) k (r +:+ d1)
              /\ ((lastReasoningIndex h < i)%Z -> k = length (trace h e) /\ r = "")
              /\ (~ (lastReasoningIndex h < i)%Z -> lastReasoningAt (trace h e) k r))
      as (k & r & Hk1 & Hadvk & Hold).
    { destruct (decide (lastReasoningIndex h < i)%Z) as [Hlt|Hnlt].
      - exists (length (trace h e)), "". destruct (Hadv Hlt) as [_ ->].
        split; [apply lastReasoningAt_snoc|]. split; [done|]. by intros Hn.
      - destruct Hreach as [Hlt|Hhas]; [done|].
        destruct (hasReasoning_lastReasoningAt _ Hhas) as (k & r & Hk).
        exists k, r. split; [|split; [by intros Hlt|done]].
        unfold h1, trace, handleDebugReasoningStep. cbn [debugData].
        rewrite traceOf_insert, bool_decide_eq_false_2 by done.
        by apply lastReasoningAt_delta. }
    exists k, r. split; [exact Hk1|]. split; [|split; [exact Hadvk|exact Hold]].
    pose proof (proj2 (handleAll_reasoning evs h1 e) Hsame k _ Hk1) as Hk'.
    fold h' in Hk'. rewrite H2.
    apply (lastReasoningAt_delta _ _ _ d2) in Hk' as [_ Hk2].
    by rewrite !append_assoc in Hk2.
  - intros ->. unfold h2, h', h1, handleAll. cbn [foldl].
    unfold handleDebugReasoningStep. cbn [lastReasoningIndex debugData].
    rewrite traceOf_insert, insert_insert_eq.
    destruct (bool_decide (lastReasoningIndex h < i)%Z) eqn:Hlt.
    + rewrite bool_decide_eq_false_2 by lia.
      rewrite (updateLast_hit (onReasoning d1) _ (reasoning "") (reasoning d1)) by done.
      rewrite (updateLast_hit (onReasoning d2) _ (reasoning d1)
                 (reasoning (d1 +:+ d2))) by done.
      rewrite (updateLast_hit (onReasoning (d1 +:+ d2)) _ (reasoning "")
                 (reasoning (d1 +:+ d2))) by done.
      done.
    + rewrite Hlt. by rewrite updateLast_onReasoning_twice.
Qed.

Lemma reasoning_deltas_same_index_witness :
  let h := createDebugHandlers ∅ in
  let between := [debug_tool_execution_started "exec_1" (Some "search") (Some "call_1");
                  debug_tool_execution_finished "exec_1" (Some "call_1") (JStr "ok");
                  agent_handoff "exec_1" "helper";
                  llm_reasoning_delta "exec_2" "z" 0;
                  llm_reasoning_delta "exec_1" " and " 0] in
  let h1 := handleDebugReasoningStep "exec_1" "a" 0 h in
  let h2 := handleDebugReasoningStep "exec_1" "b" 0 (handleAll between h1) in
  (lastReasoningIndex h < 0)%Z
  /\ reasoningItems (trace (handleAll between h1) "exec_1")
     = reasoningItems (trace h1 "exec_1")
  /\ lastReasoningAt (trace h1 "exec_1") 0 "a"
  /\ lastReasoningAt (trace h2 "exec_1") 0 "a and b".
Proof.
  intros h between h1 h2.
  assert (lastReasoningIndex h < 0)%Z as Hlt by (vm_compute; reflexivity).
  assert (reasoningItems (trace (handleAll between h1) "exec_1")
          = reasoningItems (trace h1 "exec_1")) as Hsame by (vm_compute; reflexivity).
  split; [exact Hlt|]. split; [exact Hsame|].
  destruct (proj1 (proj2 (reasoning_deltas_same_index h "exec_1" "a" "b" 0 between))
              (or_introl Hlt) Hsame) as (k & r & Hk1 & Hk2 & Hnew & _).
  destruct (Hnew Hlt) as [-> ->]. split; [exact Hk1|exact Hk2].
Defined.

(** C4 as stated fails for two deltas that share an index but are
    separated by a delta of greater index, or belong to different
    executions, or arrive when the cursor is not below their index and the
    trace of their execution holds no reasoning item: their texts do not
    end up in one reasoning item. *)
Lemma reasoning_deltas_same_index_counterexample :
  trace (handleAll [llm_reasoning_delta "exec_1" "a" 0;
                    llm_reasoning_delta "exec_1" "b" 1;
                    llm_reasoning_delta "exec_1" "c" 0] (createDebugHandlers ∅)) "exec_1"
  = [reasoning "a"; reasoning "bc"]
  /\ (let h := handleAll [llm_reasoning_delta "exec_1" "a" 0;
                          llm_reasoning_delta "exec_2" "b" 0] (createDebugHandlers ∅) in
      trace h "exec_1" = [reasoning "a"] /\ trace h "exec_2" = [])
  /\ (let h := handleAll [llm_reasoning_delta "exec_1" "x" 3;
                          llm_reasoning_delta "exec_2" "a" 0;
                          llm_reasoning_delta "exec_2" "b" 0] (createDebugHandlers ∅) in
      trace h "exec_1" = [reasoning "x"] /\ trace h "exec_2" = []).
Proof. vm_compute. repeat split. Qed.

(** C10.  A reasoning delta whose index does not exceed the cursor, for an
    execution whose trace holds no reasoning item, is dropped: the cursor
    keeps its value, the trace of every execution reads as before (the
    execution of the event is bound to its unchanged trace, an empty one if
    it had none), so no item is created and no item receives the text. *)
Theorem reasoning_delta_dropped (h : Handlers) (e d : string) (i : Z) :
  ~ (lastReasoningIndex h < i)%Z ->
  (forall x, x ∈ trace h e -> ~ isReasoning x) ->
  let h' := handleDebugEvent (llm_reasoning_delta e d i) h in
  lastReasoningIndex h' = lastReasoningIndex h
  /\ debugData h' = <[e := trace h e]> (debugData h)
  /\ (forall e', trace h' e' = trace h e').
Proof.
  intros Hnlt Hnone h'.
  assert (debugData h' = <[e := trace h e]> (debugData h)) as Hd.
  { unfold h'. cbn [handleDebugEvent]. unfold handleDebugReasoningStep.
    cbn [debugData]. rewrite bool_decide_eq_false_2 by done.
    rewrite updateLast_none; [done|].
    intros x Hx. apply onReasoning_other. by apply Hnone. }
  split; [|split; [exact Hd|]].
  - unfold h'. cbn [handleDebugEvent]. unfold handleDebugReasoningStep.
    cbn [lastReasoningIndex]. by rewrite bool_decide_eq_false_2.
  - intros e'. unfold trace at 1. rewrite Hd.
    destruct (decide (e = e')) as [->|Hne].
    + by rewrite traceOf_insert.
    + by rewrite traceOf_insert_ne.
Qed.

Lemma reasoning_delta_dropped_witness :
  let h := handleAll [llm_reasoning_delta "exec_1" "first" 2;
                      debug_tool_execution_started "exec_2" (Some "search") (Some "call_1")]
             (createDebugHandlers ∅) in
  ~ (lastReasoningIndex h < 0)%Z
  /\ (forall x, x ∈ trace h "exec_2" -> ~ isReasoning x)
  /\ trace (handleDebugEvent (llm_reasoning_delta "exec_2" "lost" 0) h) "exec_2"
     = trace h "exec_2".
Proof.
  intros h.
  assert (~ (lastReasoningIndex h < 0)%Z) as Hnlt by (vm_compute; discriminate).
  assert (forall x, x ∈ trace h "exec_2" -> ~ isReasoning x) as Hnone.
  { apply Forall_forall. vm_compute. repeat constructor; tauto. }
  split; [exact Hnlt|]. split; [exact Hnone|].
  exact (proj2 (proj2 (reasoning_delta_dropped h "exec_2" "lost" 0 Hnlt Hnone)) "exec_2").
Defined.

(** ** Objects in property order *)

Section Objects.

Context {V : Type}.
Implicit Types (o : Obj V) (k : string) (v : V).

Lemma obj_get_replace_eq k v o :
  is_Some (obj_get k o) -> obj_get k (obj_replace k v o) = Some v.
Proof.
  induction o as [|[k' v'] o IH]; simpl; intros H.
  - by destruct H.
  - destruct (decide (k' = k)) as [->|Hne]; simpl.
    + by rewrite decide_True.
    + rewrite decide_False by done. by apply IH.
Qed.

Lemma obj_get_replace_ne k k' v o :
  k ≠ k' -> obj_get k' (obj_replace k v o) = obj_get k' o.
Proof.
  intros Hne. induction o as [|[k0 v0] o IH]; simpl; [done|].
  destruct (decide (k0 = k)) as [->|Hne0]; simpl.
  - by rewrite !decide_False.
  - destruct (decide (k0 = k')); [done|]. exact IH.
Qed.

Lemma obj_get_place_eq n k v o :
  obj_get k o = None -> obj_get k (obj_place n k v o) = Some v.
Proof.
  induction o as [|[k' v'] o IH]; simpl; intros H.
  - by rewrite decide_True.
  - destruct (decide (k' = k)) as [->|Hne]; [done|].
    destruct (arrayIndex k') as [n'|]; [destruct (n' <? n)%N|]; simpl.
    + rewrite decide_False by done. by apply IH.
    + by rewrite decide_True.
    + by rewrite decide_True.
Qed.

Lemma obj_get_place_ne n k k' v o :
  k ≠ k' -> obj_get k' (obj_place n k v o) = obj_get k' o.
Proof.
  intros Hne. induction o as [|[k0 v0] o IH]; simpl.
  - by rewrite decide_False.
  - destruct (arrayIndex k0) as [n'|]; [destruct (n' <? n)%N|]; simpl.
    + destruct (decide (k0 = k')); [done|]. exact IH.
    + by rewrite (decide_False (P := k = k')).
    + by rewrite (decide_False (P := k = k')).
Qed.

Lemma obj_get_app_None k o o' :
  obj_get k o = None -> obj_get k (o ++ o') = obj_get k o'.
Proof.
  induction o as [|[k0 v0] o IH]; simpl; [done|].
  destruct (decide (k0 = k)); [done|]. exact IH.
Qed.

Lemma obj_get_app_Some k o o' :
  is_Some (obj_get k o) -> obj_get k (o ++ o') = obj_get k o.
Proof.
  induction o as [|[k0 v0] o IH]; simpl; intros H; [by destruct H|].
  destruct (decide (k0 = k)); [done|]. by apply IH.
Qed.

Lemma obj_get_set_eq k v o : obj_get k (obj_set k v o) = Some v.
Proof.
  unfold obj_set. destruct (obj_get k o) as [x|] eqn:E.
  - apply obj_get_replace_eq. rewrite E. by eexists.
  - destruct (arrayIndex k) as [n|]; [by apply obj_get_place_eq|].
    rewrite obj_get_app_None by done. simpl. by rewrite decide_True.
Qed.

Lemma obj_get_set_ne k k' v o : k ≠ k' -> obj_get k' (obj_set k v o) = obj_get k' o.
Proof.
  intros Hne. unfold obj_set. destruct (obj_get k o) as [x|] eqn:E.
  - by apply obj_get_replace_ne.
  - destruct (arrayIndex k) as [n|]; [by apply obj_get_place_ne|].
    destruct (obj_get k' o) as [y|] eqn:E'.
    + rewrite obj_get_app_Some by (rewrite E'; by eexists). done.
    + rewrite obj_get_app_None by done. simpl. by rewrite decide_False.
Qed.

Lemma obj_get_map_set_eq k v o : obj_get k (map_set k v o) = Some v.
Proof.
  induction o as [|[k' v'] o IH]; simpl.
  - by rewrite decide_True.
  - destruct (decide (k' = k)) as [->|Hne]; simpl.
    + by rewrite decide_True.
    + by rewrite decide_False.
Qed.

Lemma obj_get_map_set_ne k k' v o :
  k ≠ k' -> obj_get k' (map_set k v o) = obj_get k' o.
Proof.
  intros Hne. induction o as [|[k0 v0] o IH]; simpl.
  - by rewrite decide_False.
  - destruct (decide (k0 = k)) as [->|Hne0]; simpl.
    + by rewrite !decide_False.
    + destruct (decide (k0 = k')); [done|]. exact IH.
Qed.

Lemma obj_get_delete_eq k o : obj_get k (obj_delete k o) = None.
Proof.
  induction o as [|[k0 v0] o IH]; simpl; [done|].
  destruct (decide (k0 = k)) as [->|Hne]; simpl; [done|].
  by rewrite decide_False.
Qed.

Lemma obj_get_delete_ne k k' o : k ≠ k' -> obj_get k' (obj_delete k o) = obj_get k' o.
Proof.
  intros Hne. induction o as [|[k0 v0] o IH]; simpl; [done|].
  destruct (decide (k0 = k)) as [->|Hne0]; simpl.
  - by rewrite decide_False.
  - destruct (decide (k0 = k')); [done|]. exact IH.
Qed.

Lemma elem_of_obj_delete k k' v o :
  (k', v) ∈ obj_delete k o <-> (k', v) ∈ o /\ k' ≠ k.
Proof.
  induction o as [|[k0 v0] o IH]; simpl.
  - rewrite elem_of_nil. tauto.
  - destruct (decide (k0 = k)) as [->|Hne].
    + rewrite IH, elem_of_cons. split.
      * intros [Hin Hk]. auto.
      * intros [[Heq|Hin] Hk]; [|by auto]. injection Heq as -> ->. done.
    + rewrite !elem_of_cons, IH. split.
      * intros [Heq|[Hin Hk]]; [|by auto]. injection Heq as -> ->. auto.
      * intros [[Heq|Hin] Hk]; auto.
Qed.

End Objects.

(** ** The session repository *)

Section SessionRepository.

Variable agentId : string.

Lemma agentSessions_insert (all : AllSessions) (o : Obj Session) :
  SessionUtils.agentSessions agentId (<[agentId := o]> all) = o.
Proof. unfold SessionUtils.agentSessions. by rewrite lookup_insert_eq. Qed.

Lemma noTemporary_agentSessions (all : AllSessions) :
  noTemporary all ->
  obj_get TEMPORARY_SESSION_ID (SessionUtils.agentSessions agentId all) = None.
Proof.
  intros H. unfold SessionUtils.agentSessions.
  destruct (all !! agentId) as [o|] eqn:E; simpl; [by apply (H agentId)|done].
Qed.

Lemma noTemporary_insert (all : AllSessions) (o : Obj Session) :
  noTemporary all -> obj_get TEMPORARY_SESSION_ID o = None ->
  noTemporary (<[agentId := o]> all).
Proof.
  intros H Ho a o'. destruct (decide (agentId = a)) as [<-|Hne].
  - rewrite lookup_insert_eq. by intros [= <-].
  - rewrite lookup_insert_ne by done. apply H.
Qed.

(** Sync is a no-op on the temporary and on a falsy session id. *)
Lemma syncSession_temporary cur ref now upd (prev : AllSessions) :
  falsy cur = true \/ cur = Some TEMPORARY_SESSION_ID ->
  SessionUtils.syncSession agentId cur ref now upd prev = prev.
Proof.
  unfold SessionUtils.syncSession.
  intros [H| ->].
  - destruct cur as [s|]; [|done]. simpl in H. by rewrite H.
  - rewrite (bool_decide_eq_true_2 (TEMPORARY_SESSION_ID = TEMPORARY_SESSION_ID)) by done.
    by rewrite orb_true_r.
Qed.

Lemma syncSession_noTemporary cur ref now upd (prev : AllSessions) :
  noTemporary prev ->
  noTemporary (SessionUtils.syncSession agentId cur ref now upd prev).
Proof.
  intros H. unfold SessionUtils.syncSession.
  destruct cur as [sid|]; [|done].
  destruct (bool_decide (sid = "")) eqn:E1; [done|].
  destruct (bool_decide (sid = TEMPORARY_SESSION_ID)) eqn:E2; [done|]. simpl.
  apply bool_decide_eq_false in E2.
  apply noTemporary_insert; [done|].
  rewrite obj_get_set_ne by done. by apply noTemporary_agentSessions.
Qed.

Lemma deleteSession_noTemporary sid (r : SessionUtils.Repo) :
  noTemporary (SessionUtils.allSessions r) ->
  noTemporary (SessionUtils.allSessions (SessionUtils.deleteSession agentId sid r)).
Proof.
  intros H. unfold SessionUtils.deleteSession.
  destruct sid as [sid|]; [|done].
  destruct (bool_decide (sid = "")) eqn:E1; [done|].
  destruct (bool_decide (sid = TEMPORARY_SESSION_ID)) eqn:E2; [done|].
  cbn [orb SessionUtils.allSessions].
  apply bool_decide_eq_false in E2.
  apply noTemporary_insert; [done|].
  rewrite obj_get_delete_ne by done. by apply noTemporary_agentSessions.
Qed.

Lemma createSessionFromResponse_noTemporary sid nm msgs now (prev : AllSessions) :
  sid ≠ TEMPORARY_SESSION_ID ->
  noTemporary prev ->
  noTemporary (SessionUtils.createSessionFromResponse agentId sid nm msgs now prev).
Proof.
  intros Hsid H. unfold SessionUtils.createSessionFromResponse.
  apply noTemporary_insert; [done|].
  rewrite obj_get_set_ne by done. by apply noTemporary_agentSessions.
Qed.

Lemma step_noTemporary (r : SessionUtils.Repo) (o : SessionUtils.Op) :
  notCreatingTemporary o ->
  noTemporary (SessionUtils.allSessions r) ->
  noTemporary (SessionUtils.allSessions (SessionUtils.step agentId r o)).
Proof.
  intros Ho H. destruct o; simpl in *.
  - by apply syncSession_noTemporary.
  - done.
  - by apply deleteSession_noTemporary.
  - by apply createSessionFromResponse_noTemporary.
Qed.

End SessionRepository.

(** C6 (as amended).  [switchSession] without argument sets the current
    session id to the temporary id; sync changes nothing while the
    current session id is the temporary id or falsy; and from a session
    map with no entry under the temporary id, no sequence of sync,
    [switchSession], [deleteSession] and [createSessionFromResponse]
    operations in which [createSessionFromResponse] is never handed the
    temporary id as the new session's id leads to a map with such an
    entry. *)
Theorem temporary_session_not_persisted (agentId : string) :
  (forall r, SessionUtils.currentSessionId (SessionUtils.switchSession None r)
             = Some TEMPORARY_SESSION_ID)
  /\ (forall cur ref now upd prev,
        falsy cur = true \/ cur = Some TEMPORARY_SESSION_ID ->
        SessionUtils.syncSession agentId cur ref now upd prev = prev)
  /\ (forall ops r,
        noTemporary (SessionUtils.allSessions r) ->
        Forall notCreatingTemporary ops ->
        noTemporary (SessionUtils.allSessions (SessionUtils.run agentId ops r))).
Proof.
  split; [done|]. split; [apply syncSession_temporary|].
  intros ops. unfold SessionUtils.run.
  induction ops as [|o ops IH]; intros r Hr Hops; [done|].
  apply Forall_cons in Hops as [Ho Hops]. simpl.
  apply IH; [|done]. by apply step_noTemporary.
Qed.

Lemma temporary_session_not_persisted_witness :
  let r := {| SessionUtils.allSessions := ∅;
              SessionUtils.currentSessionId := Some TEMPORARY_SESSION_ID |} in
  let m := {| ref := 0; role := user; content := "hello"; executionId := Some "5" |} in
  let ops := [SessionUtils.op_sync [m] 5 (Some [m]);
              SessionUtils.op_createSessionFromResponse "sess_1" "New Chat" [m] 6;
              SessionUtils.op_sync [m] 7 None;
              SessionUtils.op_switchSession None;
              SessionUtils.op_sync [] 8 None;
              SessionUtils.op_deleteSession (Some "sess_1")] in
  noTemporary (SessionUtils.allSessions r)
  /\ Forall notCreatingTemporary ops
  /\ noTemporary (SessionUtils.allSessions (SessionUtils.run "a1" ops r)).
Proof.
  intros r m ops.
  assert (noTemporary (SessionUtils.allSessions r)) as Hr.
  { intros a o. simpl. by rewrite lookup_empty. }
  assert (Forall notCreatingTemporary ops) as Hops.
  { repeat constructor. simpl. discriminate. }
  split; [exact Hr|]. split; [exact Hops|].
  exact (proj2 (proj2 (temporary_session_not_persisted "a1")) ops r Hr Hops).
Defined.

(** C6 as stated fails: [createSessionFromResponse] stores whatever id it
    is handed.  A first send goes out with the temporary id in its session
    header; when the response names that same id, [onopen] creates the
    session, and the session map holds an entry under the temporary id. *)
Lemma temporary_session_not_persisted_counterexample :
  let r0 := {| SessionUtils.allSessions := ∅;
               SessionUtils.currentSessionId := Some TEMPORARY_SESSION_ID |} in
  let x := {| UseAgent.response :=
                Some {| UseAgent.status := 200; UseAgent.statusText := "OK";
                        UseAgent.sessionIdHeader := Some "sess_temp";
                        UseAgent.sessionNameHeader := None;
                        UseAgent.executionIdHeader := None |};
              UseAgent.openedAt := 6; UseAgent.frames := [];
              UseAgent.ending := UseAgent.stream_closed; UseAgent.endedAt := 7 |} in
  noTemporary (SessionUtils.allSessions r0)
  /\ is_Some (obj_get TEMPORARY_SESSION_ID
       (SessionUtils.agentSessions "a1"
          (SessionUtils.allSessions
             (SessionUtils.run "a1"
                [SessionUtils.op_createSessionFromResponse "sess_temp" "New Chat" [] 6] r0))))
  /\ is_Some (obj_get TEMPORARY_SESSION_ID
       (SessionUtils.agentSessions "a1"
          (SessionUtils.allSessions
             (UseAgent.sessions
                (UseAgent.handleSend "a1" "hello" false 5 x (UseAgent.init ∅ ∅)).1)))).
Proof.
  split; [|split].
  - intros a o. simpl. by rewrite lookup_empty.
  - vm_compute. eexists. reflexivity.
  - vm_compute. eexists. reflexivity.
Qed.

(** C9.  Sync, [deleteSession] and [createSessionFromResponse] of one
    agent leave the sessions of every other agent as they were, and a
    debug event leaves the trace of every execution other than its own as
    it was. *)
Theorem other_agents_and_executions_untouched :
  (forall (a a' : string) cur ref now upd (prev : AllSessions),
      a ≠ a' -> SessionUtils.syncSession a cur ref now upd prev !! a' = prev !! a')
  /\ (forall (a a' : string) sid (r : SessionUtils.Repo),
      a ≠ a' ->
      SessionUtils.allSessions (SessionUtils.deleteSession a sid r) !! a'
      = SessionUtils.allSessions r !! a')
  /\ (forall (a a' : string) sid nm msgs now (prev : AllSessions),
      a ≠ a' ->
      SessionUtils.createSessionFromResponse a sid nm msgs now prev !! a' = prev !! a')
  /\ (forall (ev : DebugEvent) (h : Handlers) (e' : string),
      e' ≠ eventExecutionId ev ->
      debugData (handleDebugEvent ev h) !! e' = debugData h !! e').
Proof.
  split; [|split; [|split]].
  - intros a a' cur ref now upd prev Hne. unfold SessionUtils.syncSession.
    destruct cur as [sid|]; [|done].
    destruct (bool_decide (sid = "") || bool_decide (sid = TEMPORARY_SESSION_ID)); [done|].
    by rewrite lookup_insert_ne.
  - intros a a' sid r Hne. unfold SessionUtils.deleteSession.
    destruct sid as [sid|]; [|done].
    destruct (bool_decide (sid = "") || bool_decide (sid = TEMPORARY_SESSION_ID)); [done|].
    cbn [SessionUtils.allSessions]. by rewrite lookup_insert_ne.
  - intros a a' sid nm msgs now prev Hne. unfold SessionUtils.createSessionFromResponse.
    by rewrite lookup_insert_ne.
  - apply handleDebugEvent_frame.
Qed.

Lemma other_agents_and_executions_untouched_witness :
  let m := {| ref := 0; role := user; content := "hello"; executionId := Some "5" |} in
  let all := SessionUtils.createSessionFromResponse "a2" "sess_9" "Other" [m] 3 ∅ in
  "a1" ≠ "a2"
  /\ SessionUtils.createSessionFromResponse "a1" "sess_1" "New Chat" [m] 6 all !! "a2"
     = all !! "a2".
Proof.
  intros m all.
  assert ("a1" ≠ "a2") as Hne by discriminate.
  split; [exact Hne|].
  exact (proj1 (proj2 (proj2 other_agents_and_executions_untouched))
           "a1" "a2" "sess_1" "New Chat" [m] 6%Z all Hne).
Defined.

(** ** Re-selection after [deleteSession] *)

Lemma insertByUpdatedAt_head (s : Session) (l : list Session) :
  exists m t, SessionUtils.insertByUpdatedAt s l = m :: t
    /\ (m = s \/ exists t', l = m :: t' /\ (updatedAt s < updatedAt m)%Z)
    /\ (m = s -> forall x t', l = x :: t' -> (updatedAt x <= updatedAt s)%Z).
Proof.
  destruct l as [|x l]; simpl.
  - exists s, []. split; [done|]. split; [by left|]. intros _ x t' H. discriminate.
  - case_bool_decide as Hle.
    + exists s, (x :: l). split; [done|]. split; [by left|].
      intros _ x' t' [= -> ->]. done.
    + exists x, (SessionUtils.insertByUpdatedAt s l). split; [done|]. split.
      * right. exists l. split; [done|]. lia.
      * intros -> x' t' [= -> ->]. lia.
Qed.

(** The first element of the sorted array is a most recently updated
    one. *)
Lemma sortByUpdatedAtDesc_head (l : list Session) :
  match SessionUtils.sortByUpdatedAtDesc l with
  | [] => l = []
  | m :: _ => m ∈ l /\ forall x, x ∈ l -> (updatedAt x <= updatedAt m)%Z
  end.
Proof.
  induction l as [|s l IH]; [done|].
  unfold SessionUtils.sortByUpdatedAtDesc in *. cbn [foldr].
  destruct (insertByUpdatedAt_head s (foldr SessionUtils.insertByUpdatedAt [] l))
    as (m & t & -> & Hm & Hs).
  destruct (foldr SessionUtils.insertByUpdatedAt [] l) as [|m0 t0] eqn:E.
  - subst l. destruct Hm as [->|(t' & Hnil & _)]; [|discriminate].
    split; [by left|]. intros x Hx. apply list_elem_of_singleton in Hx as ->. lia.
  - destruct IH as [Hin Hmax]. destruct Hm as [->|(t' & Hcons & Hlt)].
    + split; [by left|]. intros x Hx. apply elem_of_cons in Hx as [->|Hx]; [lia|].
      specialize (Hs eq_refl m0 t0 eq_refl). specialize (Hmax x Hx). lia.
    + injection Hcons as <- <-. split; [by right|].
      intros x Hx. apply elem_of_cons in Hx as [->|Hx]; [lia|]. by apply Hmax.
Qed.

(** Under [keyedById], filtering the values on their [id] is deleting by
    key. *)
Lemma remaining_keyed (sid : string) (o : Obj Session) :
  keyedById o ->
  filter (fun s => id s ≠ Some sid) (obj_values o) = obj_values (obj_delete sid o).
Proof.
  unfold obj_values. induction o as [|[k s] o IH]; intros Hk; [done|].
  assert (id s = Some k) as Hs by (apply Hk; by left).
  assert (keyedById o) as Hk' by (intros k' s' H'; apply Hk; by right).
  cbn [fmap list_fmap snd obj_delete].
  destruct (decide (k = sid)) as [->|Hne].
  - rewrite filter_cons_False by (rewrite Hs; tauto). by apply IH.
  - rewrite filter_cons_True by (rewrite Hs; congruence).
    cbn [fmap list_fmap snd]. f_equal. by apply IH.
Qed.

(** [deleteSession] does nothing for a falsy id and for the temporary
    id. *)
Lemma deleteSession_noop (agentId : string) (sid : option string) (r : SessionUtils.Repo) :
  falsy sid = true \/ sid = Some TEMPORARY_SESSION_ID ->
  SessionUtils.deleteSession agentId sid r = r.
Proof.
  unfold SessionUtils.deleteSession. intros [H| ->].
  - destruct sid as [s|]; [|done]. simpl in H. by rewrite H.
  - rewrite (bool_decide_eq_true_2 (TEMPORARY_SESSION_ID = TEMPORARY_SESSION_ID)) by done.
    by rewrite orb_true_r.
Qed.

(** For any other id, the key is gone from the agent's sessions, and a
    session that was not the current one leaves the current id alone. *)
Lemma deleteSession_removes (agentId sid : string) (r : SessionUtils.Repo) :
  sid ≠ "" -> sid ≠ TEMPORARY_SESSION_ID ->
  let r' := SessionUtils.deleteSession agentId (Some sid) r in
  obj_get sid (SessionUtils.agentSessions agentId (SessionUtils.allSessions r')) = None
  /\ (SessionUtils.currentSessionId r ≠ Some sid ->
      SessionUtils.currentSessionId r' = SessionUtils.currentSessionId r).
Proof.
  intros H1 H2 r'. unfold r', SessionUtils.deleteSession.
  rewrite !bool_decide_eq_false_2 by done.
  cbn [orb SessionUtils.allSessions SessionUtils.currentSessionId]. split.
  - rewrite agentSessions_insert. apply obj_get_delete_eq.
  - intros Hne. by rewrite decide_False.
Qed.

(** On a store whose records carry their keys as ids, deleting the current
    session re-selects as the specification says. *)
Lemma deleteSession_current_keyed (agentId sid : string) (r : SessionUtils.Repo) :
  sid ≠ "" -> sid ≠ TEMPORARY_SESSION_ID ->
  SessionUtils.currentSessionId r = Some sid ->
  keyedById (SessionUtils.agentSessions agentId (SessionUtils.allSessions r)) ->
  let r' := SessionUtils.deleteSession agentId (Some sid) r in
  let remaining := SessionUtils.agentSessions agentId (SessionUtils.allSessions r') in
  remaining = obj_delete sid (SessionUtils.agentSessions agentId (SessionUtils.allSessions r))
  /\ obj_get sid remaining = None
  /\ SessionUtils.currentSessionId r' ≠ Some sid
  /\ (remaining = [] -> SessionUtils.currentSessionId r' = Some TEMPORARY_SESSION_ID)
  /\ (remaining ≠ [] ->
      exists k s, (k, s) ∈ remaining
        /\ SessionUtils.currentSessionId r' = Some k
        /\ forall k' s', (k', s') ∈ remaining -> (updatedAt s' <= updatedAt s)%Z).
Proof.
  intros H1 H2 Hcur Hkeyed r' remaining.
  set (o := SessionUtils.agentSessions agentId (SessionUtils.allSessions r)) in *.
  assert (remaining = obj_delete sid o) as Hrem.
  { unfold remaining, r', SessionUtils.deleteSession.
    rewrite !bool_decide_eq_false_2 by done. cbn [orb SessionUtils.allSessions].
    by rewrite agentSessions_insert. }
  assert (SessionUtils.currentSessionId r'
          = match SessionUtils.sortByUpdatedAtDesc (obj_values (obj_delete sid o)) with
            | mostRecent :: _ => id mostRecent
            | [] => Some TEMPORARY_SESSION_ID
            end) as Hsel.
  { unfold r', SessionUtils.deleteSession.
    rewrite !bool_decide_eq_false_2 by done. cbn [orb SessionUtils.currentSessionId].
    rewrite decide_True by done. fold o. by rewrite remaining_keyed. }
  pose proof (sortByUpdatedAtDesc_head (obj_values (obj_delete sid o))) as Hhead.
  assert (forall x, x ∈ obj_values (obj_delete sid o) ->
                    exists k, (k, x) ∈ obj_delete sid o /\ id x = Some k /\ k ≠ sid) as Hval.
  { intros x Hx. unfold obj_values in Hx. apply list_elem_of_fmap in Hx as ([k x'] & -> & Hin).
    exists k. split; [done|]. apply elem_of_obj_delete in Hin as [Hin Hk].
    split; [by apply Hkeyed|done]. }
  split; [exact Hrem|]. split; [rewrite Hrem; apply obj_get_delete_eq|].
  rewrite Hsel, Hrem.
  destruct (SessionUtils.sortByUpdatedAtDesc (obj_values (obj_delete sid o)))
    as [|m t] eqn:E.
  - split; [congruence|]. split; [done|].
    intros Hne. exfalso. apply Hne.
    unfold obj_values in Hhead. by apply fmap_nil_inv in Hhead.
  - destruct Hhead as [Hin Hmax]. destruct (Hval m Hin) as (k & Hk & Hid & Hksid).
    split; [rewrite Hid; congruence|]. split.
    + intros Hnil. rewrite Hnil in Hk. by apply elem_of_nil in Hk.
    + intros _. exists k, m. split; [done|]. split; [done|].
      intros k' s' Hin'. apply Hmax. unfold obj_values.
      apply list_elem_of_fmap. by exists (k', s').
Qed.

(** C5, evaluated where the code departs from it.  Switching to an id
    that has no stored record and adding a message stores, through sync, a
    record without [id]; deleting that session, the current one, removes
    it from the repository, no session remains, and the current session id
    becomes [undefined] instead of the temporary id. *)
Theorem deleteSession_record_without_id :
  let st1 := UseAgent.addOptimisticMessage "a1" "hi" 5
               (UseAgent.switchSession (Some "ghost") (UseAgent.init ∅ ∅)) in
  let st2 := UseAgent.deleteSession "a1" (Some "ghost") st1 in
  let m := {| ref := 0; role := user; content := "hi"; executionId := Some "5" |} in
  SessionUtils.agentSessions "a1" (SessionUtils.allSessions (UseAgent.sessions st1))
  = [("ghost", {| id := None; createdAt := None; updatedAt := 5;
                  messages := [m]; name := None |})]
  /\ SessionUtils.currentSessionId (UseAgent.sessions st1) = Some "ghost"
  /\ SessionUtils.agentSessions "a1" (SessionUtils.allSessions (UseAgent.sessions st2)) = []
  /\ SessionUtils.currentSessionId (UseAgent.sessions st2) = None.
Proof. vm_compute. repeat split. Qed.

(** ** The stream consumer *)

Section Transcript.

Implicit Types (l prev : list Message) (m : Message).

Lemma last_elem_snoc l m : last_elem (l ++ [m]) = Some m.
Proof.
  unfold last_elem. rewrite length_app. simpl.
  rewrite lookup_app_r by lia.
  replace (length l + 1 - 1 - length l) with 0 by lia. done.
Qed.

Lemma slice_init_snoc l m : slice_init (l ++ [m]) = l.
Proof.
  unfold slice_init. rewrite length_app. simpl.
  replace (length l + 1 - 1) with (length l) by lia. apply take_app_length.
Qed.

Lemma last_elem_inv prev m : last_elem prev = Some m -> prev = slice_init prev ++ [m].
Proof.
  destruct prev as [|x prev _] using rev_ind; [done|].
  rewrite last_elem_snoc, slice_init_snoc. by intros [= ->].
Qed.

Lemma lastRole_snoc l m : lastRole (l ++ [m]) = Some (role m).
Proof. unfold lastRole. by rewrite last_elem_snoc. Qed.

Lemma countRole_snoc (r : Role) l m :
  UseAgent.countRole r (l ++ [m])
  = UseAgent.countRole r l + (if decide (role m = r) then 1 else 0).
Proof.
  unfold UseAgent.countRole. rewrite filter_app, length_app. f_equal.
  destruct (decide (role m = r)).
  - by rewrite filter_cons_True.
  - by rewrite filter_cons_False.
Qed.

(** A text delta on a transcript that ends with an agent message. *)
Lemma appendTextDelta_agent (r : nat) (data exec : string) l m :
  role m = agent ->
  UseAgent.appendTextDelta r data exec (l ++ [m])
  = l ++ [{| ref := r; role := agent; content := content m +:+ data;
             executionId := executionId m |}].
Proof.
  intros Hm. unfold UseAgent.appendTextDelta.
  rewrite last_elem_snoc, slice_init_snoc, decide_True by done. by rewrite Hm.
Qed.

(** A text delta on a transcript that is empty or ends with a user
    message. *)
Lemma appendTextDelta_other (r : nat) (data exec : string) prev :
  lastRole prev ≠ Some agent ->
  UseAgent.appendTextDelta r data exec prev
  = prev ++ [{| ref := r; role := agent; content := data; executionId := Some exec |}].
Proof.
  intros H. unfold UseAgent.appendTextDelta. unfold lastRole in H.
  destruct (last_elem prev) as [m|]; [|done].
  rewrite decide_False; [done|]. intros Hm. apply H. simpl. by rewrite Hm.
Qed.

Lemma attachExecutionId_user (r : nat) (x : string) l m :
  role m = user ->
  UseAgent.attachExecutionId r x (l ++ [m])
  = Some (l ++ [{| ref := r; role := user; content := content m;
                   executionId := Some x |}]).
Proof.
  intros Hm. unfold UseAgent.attachExecutionId.
  rewrite last_elem_snoc, slice_init_snoc, decide_True by done. by rewrite Hm.
Qed.

Lemma attachExecutionId_other (r : nat) (x : string) prev :
  lastRole prev ≠ Some user -> UseAgent.attachExecutionId r x prev = None.
Proof.
  intros H. unfold UseAgent.attachExecutionId. unfold lastRole in H.
  destruct (last_elem prev) as [m|]; [|done].
  rewrite decide_False; [done|]. intros Hm. apply H. simpl. by rewrite Hm.
Qed.

End Transcript.

Section StreamConsumer.

Variable agentId : string.

Lemma onmessage_messages (now : Z) (f : Frame) (st : UseAgent.Agent) :
  UseAgent.messages (UseAgent.onmessage agentId now f st)
  = match f with
    | llm_text_delta data exec =>
        UseAgent.appendTextDelta (UseAgent.nextRef st) data exec (UseAgent.messages st)
    | _ => UseAgent.messages st
    end.
Proof. by destruct f. Qed.

(** Frames delivered to a transcript that ends with an agent message: all
    the text goes to that message. *)
Lemma deliver_agent_last (fs : list (Z * Frame)) :
  forall (st : UseAgent.Agent) l m,
    UseAgent.messages st = l ++ [m] -> role m = agent ->
    exists m', UseAgent.messages (UseAgent.deliver agentId fs st) = l ++ [m']
      /\ role m' = agent
      /\ content m' = content m +:+ UseAgent.concat (UseAgent.payloads fs)
      /\ executionId m' = executionId m.
Proof.
  induction fs as [|[t f] fs IH]; intros st l m Hst Hm.
  - exists m. simpl. by rewrite append_empty_r.
  - unfold UseAgent.deliver. cbn [foldl fst snd].
    fold (UseAgent.deliver agentId fs (UseAgent.onmessage agentId t f st)).
    pose proof (onmessage_messages t f st) as Hf.
    destruct f as [data exec|ev|].
    + rewrite Hst, (appendTextDelta_agent _ _ _ _ _ Hm) in Hf.
      destruct (IH _ _ _ Hf eq_refl) as (m' & H1 & H2 & H3 & H4).
      exists m'. split; [done|]. split; [done|]. split; [|done].
      rewrite H3. cbn [content]. unfold UseAgent.payloads. cbn [omap list_omap snd].
      fold (UseAgent.payloads fs). cbn [UseAgent.concat foldr].
      fold (UseAgent.concat (UseAgent.payloads fs)). by rewrite append_assoc.
    + rewrite Hst in Hf. destruct (IH _ _ _ Hf Hm) as (m' & H1 & H2 & H3 & H4).
      by exists m'.
    + rewrite Hst in Hf. destruct (IH _ _ _ Hf Hm) as (m' & H1 & H2 & H3 & H4).
      by exists m'.
Qed.

End StreamConsumer.

(** C1 (as amended).  Frames are delivered to [onmessage] in order; the
    text deltas among them share one execution id, other frames may come
    in between; nothing else touches the transcript.  When there is at
    least one text delta and the transcript does not end with an agent
    message as the first of them arrives, the final transcript is the
    initial one followed by exactly one message, of role agent, tagged with
    the execution id, whose content is the concatenation of the payloads in
    arrival order.  When the transcript ends with an agent message, no
    message is added: that message's content is extended by the
    concatenation of the payloads and it keeps its execution id. *)
Theorem text_deltas_concatenate (agentId : string) (fs : list (Z * Frame))
    (e : string) (st : UseAgent.Agent) :
  Forall (fun x => x = e) (UseAgent.deltaExecutionIds fs) ->
  let st' := UseAgent.deliver agentId fs st in
  (UseAgent.payloads fs ≠ [] ->
   lastRole (UseAgent.messages st) ≠ Some agent ->
   exists m', UseAgent.messages st' = UseAgent.messages st ++ [m']
     /\ role m' = agent
     /\ content m' = UseAgent.concat (UseAgent.payloads fs)
     /\ executionId m' = Some e)
  /\ (forall l m,
        UseAgent.messages st = l ++ [m] -> role m = agent ->
        exists m', UseAgent.messages st' = l ++ [m']
          /\ role m' = agent
          /\ content m' = content m +:+ UseAgent.concat (UseAgent.payloads fs)
          /\ executionId m' = executionId m).
Proof.
  intros He st'. split; [|by apply deliver_agent_last].
  unfold st'. clear st'. revert st He.
  induction fs as [|[t f] fs IH]; intros st He Hne Hlast; [done|].
  unfold UseAgent.deliver. cbn [foldl fst snd].
  fold (UseAgent.deliver agentId fs (UseAgent.onmessage agentId t f st)).
  pose proof (onmessage_messages agentId t f st) as Hf.
  destruct f as [data exec|ev|].
  - unfold UseAgent.deltaExecutionIds in He. cbn [omap list_omap snd] in He.
    apply Forall_cons in He as [-> _].
    rewrite (appendTextDelta_other _ _ _ _ Hlast) in Hf.
    destruct (deliver_agent_last agentId fs _ _ _ Hf eq_refl) as (m' & H1 & H2 & H3 & H4).
    exists m'. split; [done|]. split; [done|]. split; [|done].
    rewrite H3. reflexivity.
  - rewrite <- Hf. apply IH; [done|done|by rewrite Hf].
  - rewrite <- Hf. apply IH; [done|done|by rewrite Hf].
Qed.

Lemma text_deltas_concatenate_witness :
  let st := UseAgent.addOptimisticMessage "a1" "hello" 5 (UseAgent.init ∅ ∅) in
  let fs := [(11%Z, llm_text_delta "Hi " "exec_1");
             (12%Z, debug_frame (llm_reasoning_delta "exec_1" "hm" 0));
             (13%Z, llm_text_delta "there" "exec_1")] in
  Forall (fun x => x = "exec_1") (UseAgent.deltaExecutionIds fs)
  /\ UseAgent.payloads fs ≠ []
  /\ lastRole (UseAgent.messages st) ≠ Some agent
  /\ exists m', UseAgent.messages (UseAgent.deliver "a1" fs st)
                = UseAgent.messages st ++ [m']
       /\ role m' = agent /\ content m' = "Hi there" /\ executionId m' = Some "exec_1".
Proof.
  intros st fs.
  assert (Forall (fun x => x = "exec_1") (UseAgent.deltaExecutionIds fs)) as He.
  { vm_compute. repeat constructor. }
  assert (UseAgent.payloads fs ≠ []) as Hne by (vm_compute; discriminate).
  assert (lastRole (UseAgent.messages st) ≠ Some agent) as Hlast
    by (vm_compute; discriminate).
  split; [exact He|]. split; [exact Hne|]. split; [exact Hlast|].
  exact (proj1 (text_deltas_concatenate "a1" fs "exec_1" st He) Hne Hlast).
Defined.

(** C1 as stated fails when the transcript already ends with an agent
    message, as it does when a send with [skipUserMessage] follows a
    finished exchange: the deltas are appended to that earlier message, and
    no agent message has the concatenation of the payloads as content.
    (It also fails, trivially, for a sequence of no frames: no agent
    message appears.) *)
Lemma text_deltas_concatenate_counterexample :
  let x1 := {| UseAgent.response :=
                 Some {| UseAgent.status := 200; UseAgent.statusText := "OK";
                         UseAgent.sessionIdHeader := Some "sess_1";
                         UseAgent.sessionNameHeader := None;
                         UseAgent.executionIdHeader := None |};
               UseAgent.openedAt := 6;
               UseAgent.frames := [(7%Z, llm_text_delta "Fine." "exec_1")];
               UseAgent.ending := UseAgent.stream_closed; UseAgent.endedAt := 8 |} in
  let st := UseAgent.loadSession "a1"
              (UseAgent.handleSend "a1" "how are you" false 5 x1 (UseAgent.init ∅ ∅)).1 in
  let fs := [(11%Z, llm_text_delta "Hi " "exec_2"); (12%Z, llm_text_delta "there" "exec_2")] in
  let st0 := UseAgent.addOptimisticMessage "a1" "hello" 5 (UseAgent.init ∅ ∅) in
  UseAgent.view (UseAgent.messages st)
  = [(user, "how are you", Some "5"); (agent, "Fine.", Some "exec_1")]
  /\ UseAgent.view (UseAgent.messages (UseAgent.deliver "a1" fs st))
     = [(user, "how are you", Some "5"); (agent, "Fine.Hi there", Some "exec_1")]
  /\ Forall (fun m => content m ≠ UseAgent.concat (UseAgent.payloads fs))
       (UseAgent.messages (UseAgent.deliver "a1" fs st))
  /\ UseAgent.countRole agent (UseAgent.messages (UseAgent.deliver "a1" [] st0)) = 0.
Proof. vm_compute. repeat split; repeat constructor; discriminate. Qed.

(** C7 (as amended).  In [onopen], an execution id header is attached to
    the last message of the transcript only when that message is a user
    message; it then replaces whatever [executionId] the message carried,
    and the transcript so changed is passed to sync at once (the sync of
    the closure in force, which does nothing while that closure's session
    is the temporary one).  Without the header, or when the last message is
    not a user message, nothing changes. *)
Theorem execution_id_header (agentId : string) (cl : UseAgent.Closure) (now : Z)
    (resp : UseAgent.Response) (st : UseAgent.Agent) :
  let st' := UseAgent.onopenExecution agentId cl now resp st in
  (falsy (UseAgent.executionIdHeader resp) = true -> st' = st)
  /\ (lastRole (UseAgent.messages st) ≠ Some user -> st' = st)
  /\ (forall x l m,
        UseAgent.executionIdHeader resp = Some x -> x ≠ "" ->
        UseAgent.messages st = l ++ [m] -> role m = user ->
        exists m',
          UseAgent.messages st' = l ++ [m']
          /\ role m' = user /\ content m' = content m /\ executionId m' = Some x
          /\ SessionUtils.allSessions (UseAgent.sessions st')
             = SessionUtils.syncSession agentId (UseAgent.closureSessionId cl)
                 (UseAgent.closureMessagesRef cl) now (Some (l ++ [m']))
                 (SessionUtils.allSessions (UseAgent.sessions st))).
Proof.
  intros st'. unfold st', UseAgent.onopenExecution. split; [|split].
  - by intros ->.
  - intros Hlast. destruct (falsy (UseAgent.executionIdHeader resp)); [done|].
    by rewrite attachExecutionId_other.
  - intros x l m Hx Hne Hst Hm. rewrite Hx. cbn [falsy default].
    rewrite bool_decide_eq_false_2 by done.
    rewrite Hst, (attachExecutionId_user _ _ _ _ Hm).
    eexists. split; [reflexivity|]. done.
Qed.

Lemma execution_id_header_witness :
  let st := UseAgent.addOptimisticMessage "a1" "hello" 5
              (UseAgent.setCurrentSessionId (Some "sess_1") (UseAgent.init ∅ ∅)) in
  let resp := {| UseAgent.status := 200; UseAgent.statusText := "OK";
                 UseAgent.sessionIdHeader := None; UseAgent.sessionNameHeader := None;
                 UseAgent.executionIdHeader := Some "exec_1" |} in
  let m := {| ref := 0; role := user; content := "hello"; executionId := Some "5" |} in
  UseAgent.executionIdHeader resp = Some "exec_1" /\ "exec_1" ≠ ""
  /\ UseAgent.messages st = [] ++ [m] /\ role m = user
  /\ exists m',
       UseAgent.messages
         (UseAgent.onopenExecution "a1" (UseAgent.closureOf st) 6 resp st) = [] ++ [m']
       /\ role m' = user /\ content m' = content m /\ executionId m' = Some "exec_1"
       /\ SessionUtils.allSessions
            (UseAgent.sessions
               (UseAgent.onopenExecution "a1" (UseAgent.closureOf st) 6 resp st))
          = SessionUtils.syncSession "a1" (UseAgent.closureSessionId (UseAgent.closureOf st))
              (UseAgent.closureMessagesRef (UseAgent.closureOf st)) 6 (Some ([] ++ [m']))
              (SessionUtils.allSessions (UseAgent.sessions st)).
Proof.
  intros st resp m.
  assert (UseAgent.executionIdHeader resp = Some "exec_1") as H1 by reflexivity.
  assert ("exec_1" ≠ "") as H2 by discriminate.
  assert (UseAgent.messages st = [] ++ [m]) as H3 by (vm_compute; reflexivity).
  assert (role m = user) as H4 by reflexivity.
  split; [exact H1|]. split; [exact H2|]. split; [exact H3|]. split; [exact H4|].
  exact (proj2 (proj2 (execution_id_header "a1" (UseAgent.closureOf st) 6 resp st))
           "exec_1" [] m H1 H2 H3 H4).
Defined.

(** C7 as stated fails: the user message [handleSend] appends carries a
    provisional execution id, and the header's id overwrites it. *)
Lemma execution_id_header_counterexample :
  let st := UseAgent.addOptimisticMessage "a1" "hello" 1700000000000 (UseAgent.init ∅ ∅) in
  let resp := {| UseAgent.status := 200; UseAgent.statusText := "OK";
                 UseAgent.sessionIdHeader := None; UseAgent.sessionNameHeader := None;
                 UseAgent.executionIdHeader := Some "exec_1" |} in
  UseAgent.view (UseAgent.messages st) = [(user, "hello", Some "1700000000000")]
  /\ exists st', UseAgent.onopen "a1" (Some TEMPORARY_SESSION_ID) 1700000000300 resp st
                 = inl st'
       /\ UseAgent.view (UseAgent.messages st') = [(user, "hello", Some "exec_1")].
Proof. split; [vm_compute; reflexivity|]. eexists. split; vm_compute; reflexivity. Qed.

(** ** Sending *)

Section Sending.

Variable agentId : string.

Lemma countRole_appendTextDelta (r : nat) (data exec : string) (prev : list Message) :
  UseAgent.countRole user (UseAgent.appendTextDelta r data exec prev)
  = UseAgent.countRole user prev.
Proof.
  unfold UseAgent.appendTextDelta.
  destruct (last_elem prev) as [m|] eqn:E.
  - destruct (decide (role m = agent)) as [Hm|Hm].
    + rewrite (last_elem_inv _ _ E) at 2. rewrite !countRole_snoc. cbn [role].
      by rewrite !decide_False by (rewrite Hm; discriminate).
    + rewrite countRole_snoc. cbn [role]. rewrite decide_False by discriminate. lia.
  - rewrite countRole_snoc. cbn [role]. rewrite decide_False by discriminate. lia.
Qed.

Lemma countRole_attachExecutionId (r : nat) (x : string) (prev updated : list Message) :
  UseAgent.attachExecutionId r x prev = Some updated ->
  UseAgent.countRole user updated = UseAgent.countRole user prev.
Proof.
  unfold UseAgent.attachExecutionId.
  destruct (last_elem prev) as [m|] eqn:E; [|done].
  destruct (decide (role m = user)) as [Hm|Hm]; [|done].
  intros [= <-]. rewrite (last_elem_inv _ _ E) at 2. rewrite !countRole_snoc. cbn [role].
  by rewrite !decide_True.
Qed.

Lemma countRole_onmessage (now : Z) (f : Frame) (st : UseAgent.Agent) :
  UseAgent.countRole user (UseAgent.messages (UseAgent.onmessage agentId now f st))
  = UseAgent.countRole user (UseAgent.messages st).
Proof.
  rewrite onmessage_messages. destruct f; [|done..]. apply countRole_appendTextDelta.
Qed.

Lemma countRole_deliver (fs : list (Z * Frame)) (st : UseAgent.Agent) :
  UseAgent.countRole user (UseAgent.messages (UseAgent.deliver agentId fs st))
  = UseAgent.countRole user (UseAgent.messages st).
Proof.
  revert st. induction fs as [|[t f] fs IH]; intros st; [done|].
  unfold UseAgent.deliver. cbn [foldl fst snd].
  fold (UseAgent.deliver agentId fs (UseAgent.onmessage agentId t f st)).
  rewrite IH. apply countRole_onmessage.
Qed.

Lemma countRole_onopen (cur : option string) (now : Z) (resp : UseAgent.Response)
    (st st' : UseAgent.Agent) :
  UseAgent.onopen agentId cur now resp st = inl st' ->
  UseAgent.countRole user (UseAgent.messages st')
  = UseAgent.countRole user (UseAgent.messages st).
Proof.
  unfold UseAgent.onopen.
  destruct (bool_decide (400 <= UseAgent.status resp)).
  { destruct (bool_decide (UseAgent.status resp = 404)); discriminate. }
  intros [= <-]. unfold UseAgent.onopenHeaders, UseAgent.onopenExecution.
  set (st1 := UseAgent.onopenSession agentId cur (UseAgent.closureOf st) now resp st).
  assert (UseAgent.messages st1 = UseAgent.messages st) as H1.
  { unfold st1, UseAgent.onopenSession.
    destruct (falsy cur || bool_decide (cur = Some TEMPORARY_SESSION_ID)); [|done].
    by destruct (falsy (UseAgent.sessionIdHeader resp)). }
  destruct (falsy (UseAgent.executionIdHeader resp)); [by rewrite H1|].
  destruct (UseAgent.attachExecutionId _ _ _) as [updated|] eqn:E; [|by rewrite H1].
  cbn [UseAgent.messages UseAgent.syncSessionRef_current UseAgent.setAllSessions
       UseAgent.setMessages].
  rewrite (countRole_attachExecutionId _ _ _ _ E). by rewrite H1.
Qed.

(** [runAgent] neither adds nor removes a user message. *)
Lemma countRole_runAgent (input : string) (x : UseAgent.Exchange) (st : UseAgent.Agent) :
  UseAgent.countRole user (UseAgent.messages (UseAgent.runAgent agentId input x st).1)
  = UseAgent.countRole user (UseAgent.messages st).
Proof.
  unfold UseAgent.runAgent.
  destruct (UseAgent.response x) as [resp|]; [|done].
  destruct (UseAgent.onopen agentId _ _ resp _) as [st1|err] eqn:E; [|done].
  apply countRole_onopen in E. cbn [UseAgent.messages UseAgent.setInProgress] in E.
  destruct (UseAgent.ending x); cbn [fst]; rewrite <- E;
    apply (countRole_deliver (UseAgent.frames x) st1).
Qed.

(** With [skipUserMessage], [handleSend] adds no user message, however
    the exchange ends. *)
Lemma handleSend_skip (input : string) (now : Z) (x : UseAgent.Exchange)
    (st : UseAgent.Agent) :
  UseAgent.countRole user
    (UseAgent.messages (UseAgent.handleSend agentId input true now x st).1)
  = UseAgent.countRole user (UseAgent.messages st).
Proof.
  unfold UseAgent.handleSend.
  pose proof (countRole_runAgent input x (UseAgent.allocate st)) as H.
  destruct (UseAgent.runAgent agentId input x (UseAgent.allocate st)) as [st1 [|err]];
    exact H.
Qed.

(** Without it, an exchange that ends well leaves exactly one more user
    message. *)
Lemma handleSend_resolved (input : string) (now : Z) (x : UseAgent.Exchange)
    (st : UseAgent.Agent) :
  (UseAgent.handleSend agentId input false now x st).2 = UseAgent.resolved ->
  UseAgent.countRole user
    (UseAgent.messages (UseAgent.handleSend agentId input false now x st).1)
  = S (UseAgent.countRole user (UseAgent.messages st)).
Proof.
  unfold UseAgent.handleSend.
  set (st0 := UseAgent.syncSessionRef_current _ _ _ _ _).
  pose proof (countRole_runAgent input x st0) as H.
  destruct (UseAgent.runAgent agentId input x st0) as [st1 [|err]]; [|discriminate].
  intros _. cbn [fst] in *. rewrite H. unfold st0.
  cbn [UseAgent.messages UseAgent.syncSessionRef_current UseAgent.setAllSessions
       UseAgent.setMessages UseAgent.allocate].
  rewrite countRole_snoc. cbn [role]. rewrite decide_True by done. lia.
Qed.

End Sending.

(** C2, evaluated where the code departs from it.  A send without
    [skipUserMessage] on a fresh runner: the response names a session and
    carries an execution id, so [onopen] creates the session and replaces
    the user message by a copy with that id; the stream then fails; the
    [catch] of [handleSend] looks for the object it appended, does not
    find it, and appends it again.  The transcript, and the session it is
    synchronized to and reloaded from, end with two user messages for the
    one send. *)
Theorem handleSend_duplicates_user_message :
  let x := {| UseAgent.response :=
                Some {| UseAgent.status := 200; UseAgent.statusText := "OK";
                        UseAgent.sessionIdHeader := Some "sess_1";
                        UseAgent.sessionNameHeader := None;
                        UseAgent.executionIdHeader := Some "exec_1" |};
              UseAgent.openedAt := 1700000000300; UseAgent.frames := [];
              UseAgent.ending := UseAgent.stream_failed;
              UseAgent.endedAt := 1700000000900 |} in
  let r := UseAgent.handleSend "a1" "hello" false 1700000000000 x (UseAgent.init ∅ ∅) in
  let twice := [(user, "hello", Some "exec_1"); (user, "hello", Some "1700000000000")] in
  r.2 = UseAgent.rejected "Failed to execute agent"
  /\ UseAgent.view (UseAgent.messages r.1) = twice
  /\ UseAgent.countRole user (UseAgent.messages r.1) = 2
  /\ (UseAgent.view ∘ messages) <$>
       obj_get "sess_1"
         (SessionUtils.agentSessions "a1" (SessionUtils.allSessions (UseAgent.sessions r.1)))
     = Some twice
  /\ UseAgent.view (UseAgent.messages (UseAgent.loadSession "a1" r.1)) = twice.
Proof. vm_compute. repeat split. Qed.

(** When the response carries no execution id, the message [handleSend]
    appended is still in the transcript, as the same object, when the
    exchange fails; it is not appended again. *)

Section SendingWithoutExecutionHeader.

Variable agentId : string.

Lemma holdsUser_includesObject (um : Message) (l : list Message) :
  holdsUser (ref um) l -> UseAgent.includesObject um l = true.
Proof.
  intros (m & Hin & Href & _). unfold UseAgent.includesObject.
  induction l as [|y l IH]; [by apply elem_of_nil in Hin|].
  apply elem_of_cons in Hin as [<-|Hin]; cbn [existsb].
  - by rewrite bool_decide_eq_true_2.
  - rewrite IH by done. apply orb_true_r.
Qed.

Lemma holdsUser_appendTextDelta (u r : nat) (data exec : string) (prev : list Message) :
  holdsUser u prev -> holdsUser u (UseAgent.appendTextDelta r data exec prev).
Proof.
  intros (m & Hin & Href & Hrole). unfold UseAgent.appendTextDelta.
  destruct (last_elem prev) as [lastMessage|] eqn:E.
  - destruct (decide (role lastMessage = agent)) as [Hl|Hl].
    + exists m. split; [|done]. rewrite (last_elem_inv _ _ E) in Hin.
      apply elem_of_app in Hin as [Hin|Hin]; [apply elem_of_app; by left|].
      apply list_elem_of_singleton in Hin as ->. congruence.
    + exists m. split; [|done]. apply elem_of_app. by left.
  - exists m. split; [|done]. apply elem_of_app. by left.
Qed.

Lemma holdsUser_deliver (u : nat) (fs : list (Z * Frame)) (st : UseAgent.Agent) :
  holdsUser u (UseAgent.messages st) ->
  holdsUser u (UseAgent.messages (UseAgent.deliver agentId fs st)).
Proof.
  revert st. induction fs as [|[t f] fs IH]; intros st H; [done|].
  unfold UseAgent.deliver. cbn [foldl fst snd].
  fold (UseAgent.deliver agentId fs (UseAgent.onmessage agentId t f st)).
  apply IH. rewrite onmessage_messages. destruct f; [|done..].
  by apply holdsUser_appendTextDelta.
Qed.

Lemma onopen_messages_without_header (cur : option string) (now : Z)
    (resp : UseAgent.Response) (st st' : UseAgent.Agent) :
  falsy (UseAgent.executionIdHeader resp) = true ->
  UseAgent.onopen agentId cur now resp st = inl st' ->
  UseAgent.messages st' = UseAgent.messages st.
Proof.
  intros Hx. unfold UseAgent.onopen.
  destruct (bool_decide (400 <= UseAgent.status resp)).
  { destruct (bool_decide (UseAgent.status resp = 404)); discriminate. }
  intros [= <-]. unfold UseAgent.onopenHeaders, UseAgent.onopenExecution.
  rewrite Hx. unfold UseAgent.onopenSession.
  destruct (falsy cur || bool_decide (cur = Some TEMPORARY_SESSION_ID)); [|done].
  by destruct (falsy (UseAgent.sessionIdHeader resp)).
Qed.

Lemma holdsUser_runAgent (u : nat) (input : string) (x : UseAgent.Exchange)
    (st : UseAgent.Agent) :
  (forall resp, UseAgent.response x = Some resp ->
                falsy (UseAgent.executionIdHeader resp) = true) ->
  holdsUser u (UseAgent.messages st) ->
  holdsUser u (UseAgent.messages (UseAgent.runAgent agentId input x st).1).
Proof.
  intros Hx H. unfold UseAgent.runAgent.
  destruct (UseAgent.response x) as [resp|]; [|done].
  destruct (UseAgent.onopen agentId _ _ resp _) as [st1|err] eqn:E; [|done].
  apply onopen_messages_without_header in E; [|by apply Hx].
  cbn [UseAgent.messages UseAgent.setInProgress] in E.
  assert (holdsUser u (UseAgent.messages (UseAgent.deliver agentId (UseAgent.frames x) st1)))
    as Hd by (apply holdsUser_deliver; by rewrite E).
  by destruct (UseAgent.ending x).
Qed.

Lemma handleSend_without_execution_header (input : string) (now : Z)
    (x : UseAgent.Exchange) (st : UseAgent.Agent) :
  (forall resp, UseAgent.response x = Some resp ->
                falsy (UseAgent.executionIdHeader resp) = true) ->
  UseAgent.countRole user
    (UseAgent.messages (UseAgent.handleSend agentId input false now x st).1)
  = S (UseAgent.countRole user (UseAgent.messages st)).
Proof.
  intros Hx. unfold UseAgent.handleSend.
  set (um := {| ref := UseAgent.nextRef st; role := user; content := input;
                executionId := Some (pretty now) |}).
  set (st0 := UseAgent.syncSessionRef_current _ _ _ _ _).
  assert (UseAgent.messages st0 = UseAgent.messages st ++ [um]) as H0 by reflexivity.
  assert (holdsUser (ref um) (UseAgent.messages st0)) as Hu.
  { exists um. rewrite H0. split; [|done]. apply elem_of_app. right. by left. }
  pose proof (countRole_runAgent agentId input x st0) as Hc.
  pose proof (holdsUser_runAgent (ref um) input x st0 Hx Hu) as Hh.
  assert (UseAgent.countRole user (UseAgent.messages st0)
          = S (UseAgent.countRole user (UseAgent.messages st))) as Hs.
  { rewrite H0, countRole_snoc. cbn [role um]. rewrite decide_True by done. lia. }
  destruct (UseAgent.runAgent agentId input x st0) as [st1 [|err]]; cbn [fst] in *.
  - by rewrite Hc.
  - cbn [UseAgent.messages UseAgent.syncSessionRef_current UseAgent.setAllSessions
         UseAgent.setMessages].
    rewrite (holdsUser_includesObject um _ Hh). by rewrite Hc.
Qed.

End SendingWithoutExecutionHeader.

(** ** The synced atom *)

Section SyncedAtomWrite.

Context {Value : Type}.
Variable fits : Value -> bool.
Variable truthy : Value -> bool.
Variable initialValue : Value.

Lemma write_rejected (overrideValue : option (Value -> Value))
    (update : SyncedAtom.SetStateAction Value) (a : SyncedAtom.Atom Value) (v : Value) :
  SyncedAtom.nextOf update a = SyncedAtom.next_value v ->
  fits v = false ->
  SyncedAtom.write fits truthy initialValue overrideValue update a
  = SyncedAtom.setItem fits (retried truthy overrideValue v)
      {| SyncedAtom.baseAtom := v; SyncedAtom.stored := SyncedAtom.stored a;
         SyncedAtom.setItemCalls := SyncedAtom.setItemCalls a ++ [v] |}.
Proof.
  intros Hn Hv. unfold SyncedAtom.write. rewrite Hn.
  unfold SyncedAtom.setItem at 1. rewrite Hv.
  cbn [SyncedAtom.baseAtom SyncedAtom.stored SyncedAtom.setItemCalls].
  unfold retried. by destruct overrideValue.
Qed.

End SyncedAtomWrite.

(** C8 (as amended).  For a write of a value the storage backend rejects:
    the in-memory value is the new value in every case, and [setItem] is
    called exactly once more, with the value the override function returns
    when there is one and it returns a truthy value, and with the rejected
    value itself otherwise.  When the backend takes the second value, that
    value is persisted and the write returns; when it rejects it, nothing
    is persisted and the rejection reaches the caller as an exception.
    Without an override function the second value is the rejected one, so
    the write always ends that way. *)
Theorem rejected_write {Value : Type} (fits truthy : Value -> bool)
    (initialValue : Value) (overrideValue : option (Value -> Value))
    (update : SyncedAtom.SetStateAction Value) (a : SyncedAtom.Atom Value) (v : Value) :
  SyncedAtom.nextOf update a = SyncedAtom.next_value v ->
  fits v = false ->
  let result := SyncedAtom.write fits truthy initialValue overrideValue update a in
  let w := retried truthy overrideValue v in
  SyncedAtom.baseAtom result.1 = v
  /\ SyncedAtom.setItemCalls result.1 = SyncedAtom.setItemCalls a ++ [v; w]
  /\ (fits w = true ->
      result.2 = SyncedAtom.returned /\ SyncedAtom.stored result.1 = Some w)
  /\ (fits w = false ->
      result.2 = SyncedAtom.thrown /\ SyncedAtom.stored result.1 = SyncedAtom.stored a)
  /\ (forall f, overrideValue = Some f -> truthy (f v) = true -> w = f v)
  /\ (forall f, overrideValue = Some f -> truthy (f v) = false -> w = v)
  /\ (overrideValue = None ->
      w = v /\ result.2 = SyncedAtom.thrown
      /\ SyncedAtom.stored result.1 = SyncedAtom.stored a).
Proof.
  intros Hn Hv result w. unfold result.
  rewrite (write_rejected fits truthy initialValue overrideValue update a v Hn Hv).
  fold w. unfold SyncedAtom.setItem.
  cbn [SyncedAtom.setItemCalls SyncedAtom.stored SyncedAtom.baseAtom].
  split; [by destruct (fits w)|].
  split; [destruct (fits w); cbn [fst SyncedAtom.setItemCalls]; by rewrite <- app_assoc|].
  split; [by intros ->|]. split; [by intros ->|].
  split; [intros f -> Hf; unfold w, retried; by rewrite Hf|].
  split; [intros f -> Hf; unfold w, retried; by rewrite Hf|].
  intros Ho. assert (w = v) as -> by (unfold w; by rewrite Ho).
  by rewrite Hv.
Qed.

Lemma rejected_write_witness :
  let a := SyncedAtom.atomWithSyncedStorage "" (Some "short") in
  let update := SyncedAtom.set_updater (fun prev => SyncedAtom.next_value (prev +:+ " and long")) in
  let result := SyncedAtom.write smallStore nonEmpty "" (Some (fun s => "cut")) update a in
  SyncedAtom.nextOf update a = SyncedAtom.next_value "short and long"
  /\ smallStore "short and long" = false
  /\ SyncedAtom.baseAtom result.1 = "short and long"
  /\ SyncedAtom.setItemCalls result.1 = [] ++ ["short and long"; "cut"]
  /\ result.2 = SyncedAtom.returned
  /\ SyncedAtom.stored result.1 = Some "cut".
Proof.
  intros a update result.
  assert (SyncedAtom.nextOf update a = SyncedAtom.next_value "short and long") as Hn
    by reflexivity.
  assert (smallStore "short and long" = false) as Hv by reflexivity.
  pose proof (rejected_write smallStore nonEmpty "" (Some (fun s => "cut")) update a
                "short and long" Hn Hv) as (Hbase & Hcalls & Hfit & _).
  destruct (Hfit eq_refl) as [Hret Hstored].
  split; [exact Hn|]. split; [exact Hv|]. split; [exact Hbase|].
  split; [exact Hcalls|]. split; [exact Hret|exact Hstored].
Defined.

(** C8 as stated fails: without an override function the rejected value
    is handed to [setItem] a second time, outside any [try], and the
    second rejection surfaces to the caller of the write.  The same
    happens when the override function returns a value the backend rejects
    as well; and a falsy value returned by the override function is not
    used, the rejected value is handed over again instead. *)
Lemma rejected_write_counterexample :
  let a := SyncedAtom.atomWithSyncedStorage "" (Some "short") in
  let update := SyncedAtom.set_literal (SyncedAtom.next_value "short and long") in
  let result := SyncedAtom.write smallStore nonEmpty "" None update a in
  let result2 :=
    SyncedAtom.write smallStore nonEmpty "" (Some (fun s => "still too long")) update a in
  let result3 := SyncedAtom.write smallStore nonEmpty "" (Some (fun s => "")) update a in
  smallStore "short and long" = false
  /\ (result.2 = SyncedAtom.thrown
      /\ SyncedAtom.baseAtom result.1 = "short and long"
      /\ SyncedAtom.stored result.1 = Some "short"
      /\ SyncedAtom.setItemCalls result.1 = ["short and long"; "short and long"])
  /\ (result2.2 = SyncedAtom.thrown
      /\ SyncedAtom.setItemCalls result2.1 = ["short and long"; "still too long"])
  /\ (result3.2 = SyncedAtom.thrown
      /\ SyncedAtom.setItemCalls result3.1 = ["short and long"; "short and long"]).
Proof. vm_compute. repeat split. Qed.

(** ** The scenarios of the specification *)

(** A first send: the server names session [sess_1] and execution
    [exec_1], streams two text deltas and closes. *)
Example scenario_first_send :
  let x := {| UseAgent.response :=
                Some {| UseAgent.status := 200; UseAgent.statusText := "OK";
                        UseAgent.sessionIdHeader := Some "sess_1";
                        UseAgent.sessionNameHeader := None;
                        UseAgent.executionIdHeader := Some "exec_1" |};
              UseAgent.openedAt := 10;
              UseAgent.frames := [(11%Z, llm_text_delta "Hi " "exec_1");
                                  (12%Z, llm_text_delta "there" "exec_1")];
              UseAgent.ending := UseAgent.stream_closed; UseAgent.endedAt := 13 |} in
  let r := UseAgent.handleSend "a1" "hello" false 5 x (UseAgent.init ∅ ∅) in
  let transcript := [(user, "hello", Some "exec_1"); (agent, "Hi there", Some "exec_1")] in
  r.2 = UseAgent.resolved
  /\ UseAgent.inProgress r.1 = false
  /\ SessionUtils.currentSessionId (UseAgent.sessions r.1) = Some "sess_1"
  /\ UseAgent.view (UseAgent.messages r.1) = transcript
  /\ (UseAgent.view ∘ messages) <$>
       obj_get "sess_1"
         (SessionUtils.agentSessions "a1" (SessionUtils.allSessions (UseAgent.sessions r.1)))
     = Some transcript.
Proof. vm_compute. repeat split. Qed.

(** Deleting the only session while it is the current one. *)
Example scenario_delete_only_session :
  let all := SessionUtils.createSessionFromResponse "a1" "sess_1" "New Chat" [] 10 ∅ in
  let r := SessionUtils.deleteSession "a1" (Some "sess_1")
             {| SessionUtils.allSessions := all;
                SessionUtils.currentSessionId := Some "sess_1" |} in
  SessionUtils.currentSessionId r = Some TEMPORARY_SESSION_ID
  /\ obj_get "sess_1" (SessionUtils.agentSessions "a1" (SessionUtils.allSessions r)) = None.
Proof. vm_compute. repeat split. Qed.

(** * Further properties *)

(** ** The debug trace reducer, over sequences of events *)

Section ReducerInvariants.

Lemma updateLast_ext (upd upd' : TraceItem -> option TraceItem) (l : DebugDataType) :
  (forall x, upd x = upd' x) -> updateLast upd l = updateLast upd' l.
Proof.
  intros Hext. induction l as [|x l IH] using rev_ind; [done|].
  destruct (upd x) as [y|] eqn:E.
  - rewrite (updateLast_hit upd l x y E).
    rewrite (updateLast_hit upd' l x y); [done|]. by rewrite <- Hext.
  - rewrite (updateLast_miss upd l x E).
    rewrite (updateLast_miss upd' l x); [by rewrite IH|]. by rewrite <- Hext.
Qed.

Lemma updateLast_skeleton (upd : TraceItem -> option TraceItem) (l : DebugDataType) :
  (forall x y, upd x = Some y -> skeleton y = skeleton x) ->
  skeleton <$> updateLast upd l = skeleton <$> l.
Proof.
  intros Hupd. induction l as [|x l IH] using rev_ind; [done|].
  destruct (upd x) as [y|] eqn:E.
  - rewrite (updateLast_hit upd l x y E). rewrite !fmap_app. simpl.
    by rewrite (Hupd x y E).
  - rewrite (updateLast_miss upd l x E). rewrite !fmap_app. by rewrite IH.
Qed.

Lemma onTool_skeleton (tcid : option string) f :
  (forall t, toolId (f t) = toolId t /\ toolCallId (f t) = toolCallId t) ->
  forall x y, onTool tcid f x = Some y -> skeleton y = skeleton x.
Proof.
  intros Hf x y. destruct x as [t| |]; simpl; [|done..].
  destruct (decide (toolCallId t = tcid)); [|done].
  intros [= <-]. simpl. destruct (Hf t) as [-> ->]. done.
Qed.

Lemma onReasoning_skeleton (d : string) (x y : TraceItem) :
  onReasoning d x = Some y -> skeleton y = skeleton x.
Proof. destruct x; simpl; [done| |done]. by intros [= <-]. Qed.

(** One event extends the skeleton of every trace, if it changes it at
    all. *)
Lemma handleDebugEvent_skeleton (ev : DebugEvent) (h : Handlers) (e : string) :
  (skeleton <$> trace h e) `prefix_of` (skeleton <$> trace (handleDebugEvent ev h) e).
Proof.
  destruct (decide (e = eventExecutionId ev)) as [->|Hne].
  2: { unfold trace, traceOf. by rewrite handleDebugEvent_frame. }
  destruct ev as [x tid tcid|x tcid v|x tcid v|x tcid v|x tcid v|x d i|x a];
    cbn [eventExecutionId handleDebugEvent]; unfold trace.
  - cbn [setDebugData debugData]. unfold handleDebugToolExecutionStarted.
    rewrite traceOf_insert, fmap_app. by apply prefix_app_r.
  - cbn [setDebugData debugData]. unfold handleDebugToolExecutionInputs.
    rewrite traceOf_insert, updateLast_skeleton; [done|].
    by apply onTool_skeleton.
  - cbn [setDebugData debugData]. unfold handleDebugToolExecutionFinished.
    rewrite traceOf_insert, updateLast_skeleton; [done|].
    by apply onTool_skeleton.
  - cbn [setDebugData debugData]. unfold handleDebugToolExecutionError.
    rewrite traceOf_insert, updateLast_skeleton; [done|].
    by apply onTool_skeleton.
  - cbn [setDebugData debugData]. unfold handleDebugToolLog.
    rewrite traceOf_insert, updateLast_skeleton; [done|].
    by apply onTool_skeleton.
  - unfold handleDebugReasoningStep. cbn [debugData].
    rewrite traceOf_insert, updateLast_skeleton by apply onReasoning_skeleton.
    case_bool_decide; [|done]. rewrite fmap_app. by apply prefix_app_r.
  - cbn [setDebugData debugData]. unfold handleAgentHandoff.
    rewrite traceOf_insert, fmap_app. by apply prefix_app_r.
Qed.

Lemma handleAll_cons (ev : DebugEvent) (evs : list DebugEvent) (h : Handlers) :
  handleAll (ev :: evs) h = handleAll evs (handleDebugEvent ev h).
Proof. reflexivity. Qed.

End ReducerInvariants.

(** X1.  Traces only grow, and what identifies an item never changes:
    whatever events one handler instance handles, every item of every
    trace stays at its index with its kind, a tool item with its [toolId]
    and [toolCallId], a handoff item with its agent name; new items come
    after the old ones. *)
Theorem trace_items_keep_their_place (evs : list DebugEvent) (h : Handlers) (e : string) :
  (skeleton <$> trace h e) `prefix_of` (skeleton <$> trace (handleAll evs h) e).
Proof.
  revert h. induction evs as [|ev evs IH]; intros h; [done|].
  rewrite handleAll_cons. etrans; [apply (handleDebugEvent_skeleton ev)|apply IH].
Qed.

(** X2.  The cursor of a handler instance is the greatest reasoning index
    it has seen, over all executions: after any events it is the maximum of
    its earlier value and the indices of the reasoning deltas among them;
    no other event moves it, and it never decreases. *)
Theorem cursor_is_greatest_index (evs : list DebugEvent) (h : Handlers) :
  lastReasoningIndex (handleAll evs h) = maxIndex evs (lastReasoningIndex h)
  /\ (lastReasoningIndex h <= lastReasoningIndex (handleAll evs h))%Z.
Proof.
  assert (forall evs c, (c <= maxIndex evs c)%Z) as Hmono.
  { clear. intros evs. induction evs as [|ev evs IH]; intros c; [simpl; lia|].
    unfold maxIndex in *. cbn [foldl]. destruct ev; try apply IH.
    etrans; [|apply IH]. lia. }
  assert (lastReasoningIndex (handleAll evs h) = maxIndex evs (lastReasoningIndex h)) as Heq.
  { revert h. induction evs as [|ev evs IH]; intros h; [done|].
    rewrite handleAll_cons, IH. unfold maxIndex. cbn [foldl]. f_equal.
    destruct ev; try reflexivity.
    cbn [handleDebugEvent]. unfold handleDebugReasoningStep. cbn [lastReasoningIndex].
    case_bool_decide; lia. }
  split; [exact Heq|]. rewrite Heq. apply Hmono.
Qed.

Section ReasoningText.

Lemma reasoningText_snoc (l : DebugDataType) (x : TraceItem) :
  reasoningText (l ++ [x]) = reasoningText l +:+ textOf x.
Proof.
  induction l as [|y l IH]; simpl.
  - by rewrite append_empty_r.
  - rewrite IH. by rewrite append_assoc.
Qed.

Lemma hasReasoning_snoc_other (l : DebugDataType) (x : TraceItem) :
  ~ isReasoning x -> hasReasoning (l ++ [x]) -> hasReasoning l.
Proof.
  intros Hx (y & Hin & Hy). exists y. split; [|done].
  apply elem_of_app in Hin as [Hin|Hin]; [done|].
  apply list_elem_of_singleton in Hin as ->. done.
Qed.

(** An update that leaves the text of every item alone leaves the text of
    the trace alone. *)
Lemma updateLast_reasoningText_same (upd : TraceItem -> option TraceItem)
    (l : DebugDataType) :
  (forall x y, upd x = Some y -> textOf y = textOf x) ->
  reasoningText (updateLast upd l) = reasoningText l.
Proof.
  intros Hupd. induction l as [|x l IH] using rev_ind; [done|].
  destruct (upd x) as [y|] eqn:E.
  - rewrite (updateLast_hit upd l x y E), !reasoningText_snoc. by rewrite (Hupd x y E).
  - rewrite (updateLast_miss upd l x E), !reasoningText_snoc. by rewrite IH.
Qed.

Lemma updateLast_reasoningText_delta (d : string) (l : DebugDataType) :
  hasReasoning l ->
  reasoningText (updateLast (onReasoning d) l) = reasoningText l +:+ d.
Proof.
  induction l as [|x l IH] using rev_ind; intros Hl.
  - destruct Hl as (y & Hin & _). by apply elem_of_nil in Hin.
  - destruct x as [t|r|a].
    + rewrite updateLast_miss by done. rewrite !reasoningText_snoc. simpl.
      rewrite !append_empty_r. apply IH.
      apply (hasReasoning_snoc_other _ (tool_call t)); [simpl; tauto|done].
    + rewrite (updateLast_hit _ l (reasoning r) (reasoning (r +:+ d))) by done.
      rewrite !reasoningText_snoc. simpl. by rewrite append_assoc.
    + rewrite updateLast_miss by done. rewrite !reasoningText_snoc. simpl.
      rewrite !append_empty_r. apply IH.
      apply (hasReasoning_snoc_other _ (handoff a)); [simpl; tauto|done].
Qed.

Lemma onTool_textOf (tcid : option string) f (x y : TraceItem) :
  onTool tcid f x = Some y -> textOf y = textOf x.
Proof.
  destruct x as [t| |]; simpl; [|done..].
  destruct (decide (toolCallId t = tcid)); [|done]. by intros [= <-].
Qed.

Lemma hasReasoning_skeleton (l l' : DebugDataType) :
  (skeleton <$> l) `prefix_of` (skeleton <$> l') -> hasReasoning l -> hasReasoning l'.
Proof.
  intros [k Hk] (x & Hin & Hx).
  apply list_elem_of_lookup in Hin as [i Hi].
  assert ((skeleton <$> l') !! i = Some (skeleton x)) as Hi'.
  { rewrite Hk. apply lookup_app_l_Some. by rewrite list_lookup_fmap, Hi. }
  rewrite list_lookup_fmap in Hi'.
  destruct (l' !! i) as [y|] eqn:Ey; [|done]. simpl in Hi'.
  exists y. split; [by apply list_elem_of_lookup; exists i|].
  destruct x; [done| |done]. destruct y; simpl in Hi'; [discriminate|done|discriminate].
Qed.

(** One event adds to the reasoning text of a trace that holds a
    reasoning item exactly the text of its delta, if it is a reasoning
    delta for that execution. *)
Lemma handleDebugEvent_reasoningText (ev : DebugEvent) (h : Handlers) (e : string) :
  hasReasoning (trace h e) ->
  reasoningText (trace (handleDebugEvent ev h) e)
  = reasoningText (trace h e) +:+ UseAgent.concat (deltasFor e [ev]).
Proof.
  intros Hr.
  destruct (decide (e = eventExecutionId ev)) as [->|Hne].
  2: { unfold trace at 1, traceOf. rewrite handleDebugEvent_frame by done.
       fold (traceOf (debugData h) e). fold (trace h e).
       destruct ev; simpl in *; try (by rewrite append_empty_r).
       rewrite decide_False by done. simpl. by rewrite append_empty_r. }
  destruct ev as [x tid tcid|x tcid v|x tcid v|x tcid v|x tcid v|x d i|x a];
    cbn [eventExecutionId handleDebugEvent] in *; unfold trace in *;
    cbn [deltasFor omap list_omap].
  - cbn [setDebugData debugData]. unfold handleDebugToolExecutionStarted.
    rewrite traceOf_insert, reasoningText_snoc. done.
  - cbn [setDebugData debugData]. unfold handleDebugToolExecutionInputs.
    rewrite traceOf_insert, updateLast_reasoningText_same by apply onTool_textOf.
    simpl. by rewrite append_empty_r.
  - cbn [setDebugData debugData]. unfold handleDebugToolExecutionFinished.
    rewrite traceOf_insert, updateLast_reasoningText_same by apply onTool_textOf.
    simpl. by rewrite append_empty_r.
  - cbn [setDebugData debugData]. unfold handleDebugToolExecutionError.
    rewrite traceOf_insert, updateLast_reasoningText_same by apply onTool_textOf.
    simpl. by rewrite append_empty_r.
  - cbn [setDebugData debugData]. unfold handleDebugToolLog.
    rewrite traceOf_insert, updateLast_reasoningText_same by apply onTool_textOf.
    simpl. by rewrite append_empty_r.
  - unfold handleDebugReasoningStep. cbn [debugData]. rewrite traceOf_insert.
    rewrite decide_True by done. cbn [UseAgent.concat foldr]. rewrite append_empty_r.
    case_bool_decide.
    + rewrite (updateLast_hit _ _ (reasoning "") (reasoning d)) by done.
      rewrite reasoningText_snoc. done.
    + by apply updateLast_reasoningText_delta.
  - cbn [setDebugData debugData]. unfold handleAgentHandoff.
    rewrite traceOf_insert, reasoningText_snoc. done.
Qed.

Lemma concat_app (l k : list string) :
  UseAgent.concat (l ++ k) = UseAgent.concat l +:+ UseAgent.concat k.
Proof.
  induction l as [|x l IH]; [done|]. simpl. rewrite IH. by rewrite append_assoc.
Qed.

End ReasoningText.

(** X3.  No reasoning text is lost or reordered once a trace holds a
    reasoning item: whatever events one handler instance then handles, for
    whatever executions, the reasoning text of the trace (the texts of its
    reasoning items in trace order) is extended by exactly the texts of
    the reasoning deltas for that execution, in arrival order.  A delta
    whose index exceeds the cursor always leaves its trace with a
    reasoning item. *)
Theorem reasoning_text_is_kept (e : string) :
  (forall (evs : list DebugEvent) (h : Handlers),
      hasReasoning (trace h e) ->
      reasoningText (trace (handleAll evs h) e)
      = reasoningText (trace h e) +:+ UseAgent.concat (deltasFor e evs))
  /\ (forall (h : Handlers) (d : string) (i : Z),
        (lastReasoningIndex h < i)%Z ->
        hasReasoning (trace (handleDebugEvent (llm_reasoning_delta e d i) h) e)).
Proof.
  split.
  - intros evs. induction evs as [|ev evs IH]; intros h Hr.
    + simpl. by rewrite append_empty_r.
    + rewrite handleAll_cons, IH.
      2: { apply (hasReasoning_skeleton (trace h e)); [|done].
           apply handleDebugEvent_skeleton. }
      rewrite (handleDebugEvent_reasoningText ev h e Hr).
      rewrite append_assoc. f_equal.
      change (ev :: evs) with ([ev] ++ evs). unfold deltasFor.
      rewrite omap_app. apply eq_sym, concat_app.
  - intros h d i Hlt. cbn [handleDebugEvent]. unfold trace, handleDebugReasoningStep.
    cbn [debugData]. rewrite traceOf_insert, bool_decide_eq_true_2 by done.
    rewrite (updateLast_hit _ _ (reasoning "") (reasoning d)) by done.
    exists (reasoning d). split; [|done]. apply elem_of_app. right. by left.
Qed.

Lemma reasoning_text_is_kept_witness :
  let h := handleAll [llm_reasoning_delta "exec_1" "I " 0] (createDebugHandlers ∅) in
  let evs := [debug_tool_execution_started "exec_1" (Some "search") (Some "call_1");
              llm_reasoning_delta "exec_2" "elsewhere" 4;
              llm_reasoning_delta "exec_1" "look " 1;
              agent_handoff "exec_1" "helper";
              llm_reasoning_delta "exec_1" "again" 0] in
  hasReasoning (trace h "exec_1")
  /\ reasoningText (trace (handleAll evs h) "exec_1") = "I " +:+ "look again".
Proof.
  intros h evs.
  assert (hasReasoning (trace h "exec_1")) as Hr.
  { exists (reasoning "I "). split; [vm_compute; by left|done]. }
  split; [exact Hr|].
  exact (proj1 (reasoning_text_is_kept "exec_1") evs h Hr).
Defined.

Section UpdatesOfOneCall.

Lemma updateLast_onTool_compose (tcid : option string)
    (f g : ToolExecutionItem -> ToolExecutionItem) (l : DebugDataType) :
  (forall t, toolCallId (g t) = toolCallId t) ->
  updateLast (onTool tcid f) (updateLast (onTool tcid g) l)
  = updateLast (onTool tcid (f ∘ g)) l.
Proof.
  intros Hg. induction l as [|x l IH] using rev_ind; [done|].
  destruct (decide (isToolFor tcid x)) as [Hx|Hx].
  - destruct x as [t| |]; [|done..]. simpl in Hx.
    rewrite (updateLast_hit (onTool tcid g) l _ _ (onTool_match tcid g t Hx)).
    rewrite (updateLast_hit (onTool tcid f) l (tool_call (g t)) (tool_call (f (g t)))).
    2: { apply onTool_match. by rewrite Hg. }
    by rewrite (updateLast_hit (onTool tcid (f ∘ g)) l _ _ (onTool_match tcid (f ∘ g) t Hx)).
  - rewrite (updateLast_miss (onTool tcid g) l x (onTool_other tcid g x Hx)).
    rewrite (updateLast_miss (onTool tcid f) _ x (onTool_other tcid f x Hx)).
    rewrite (updateLast_miss (onTool tcid (f ∘ g)) l x (onTool_other tcid (f ∘ g) x Hx)).
    by rewrite IH.
Qed.

Lemma updateLast_onTool_ext (tcid : option string)
    (f g : ToolExecutionItem -> ToolExecutionItem) (l : DebugDataType) :
  (forall t, f t = g t) ->
  updateLast (onTool tcid f) l = updateLast (onTool tcid g) l.
Proof.
  intros Hfg. apply updateLast_ext. intros [t| |]; simpl; [|done..].
  by rewrite Hfg.
Qed.

(** Two update events for the same call, one after the other, act on the
    same item as the composition of their two changes. *)
Lemma two_updates (ev1 ev2 : DebugEvent) (e : string) (tcid : option string)
    f g (h : Handlers) :
  IsUpdate ev1 e tcid g -> IsUpdate ev2 e tcid f ->
  (forall t, toolCallId (g t) = toolCallId t) ->
  handleAll [ev1; ev2] h
  = {| lastReasoningIndex := lastReasoningIndex h;
       debugData := <[e := updateLast (onTool tcid (f ∘ g)) (trace h e)]> (debugData h) |}.
Proof.
  intros H1 H2 Hg. unfold handleAll. cbn [foldl].
  assert (forall ev e tcid f h, IsUpdate ev e tcid f ->
            lastReasoningIndex (handleDebugEvent ev h) = lastReasoningIndex h) as Hc.
  { clear. intros ev e tcid f h H. by destruct H. }
  destruct (handleDebugEvent ev2 (handleDebugEvent ev1 h)) as [c d] eqn:E.
  assert (c = lastReasoningIndex h) as ->.
  { change c with (lastReasoningIndex {| lastReasoningIndex := c; debugData := d |}).
    rewrite <- E. rewrite (Hc _ _ _ _ _ H2). by rewrite (Hc _ _ _ _ _ H1). }
  f_equal.
  change d with (debugData {| lastReasoningIndex := lastReasoningIndex h; debugData := d |}).
  rewrite <- E. rewrite (update_event_trace _ _ _ _ _ H2).
  unfold trace at 1. rewrite (update_event_trace _ _ _ _ _ H1).
  rewrite traceOf_insert, insert_insert_eq.
  by rewrite updateLast_onTool_compose.
Qed.

End UpdatesOfOneCall.

(** X4.  For one tool call, the order in which its inputs or a log entry
    and its finished event arrive does not matter, and of a finished and
    an error event the later one decides status and output: handled by
    one instance for the same execution and [toolCallId], inputs then
    finished equals finished then inputs, log then finished equals
    finished then log, error then finished equals finished alone, and
    finished then error equals error alone. *)
Theorem updates_of_one_call (h : Handlers) (e : string) (tcid : option string)
    (v w : JValue) (vs : list JValue) :
  handleAll [debug_tool_execution_inputs e tcid v; debug_tool_execution_finished e tcid w] h
  = handleAll [debug_tool_execution_finished e tcid w; debug_tool_execution_inputs e tcid v] h
  /\ handleAll [debug_tool_log e tcid vs; debug_tool_execution_finished e tcid w] h
     = handleAll [debug_tool_execution_finished e tcid w; debug_tool_log e tcid vs] h
  /\ handleAll [debug_tool_execution_error e tcid v; debug_tool_execution_finished e tcid w] h
     = handleAll [debug_tool_execution_finished e tcid w] h
  /\ handleAll [debug_tool_execution_finished e tcid w; debug_tool_execution_error e tcid v] h
     = handleAll [debug_tool_execution_error e tcid v] h.
Proof.
  repeat split.
  - rewrite (two_updates _ _ e tcid _ _ h (update_inputs e tcid v) (update_finished e tcid w))
      by done.
    rewrite (two_updates _ _ e tcid _ _ h (update_finished e tcid w) (update_inputs e tcid v))
      by done.
    f_equal; try reflexivity; f_equal; try reflexivity; by apply updateLast_onTool_ext.
  - rewrite (two_updates _ _ e tcid _ _ h (update_log e tcid vs) (update_finished e tcid w))
      by done.
    rewrite (two_updates _ _ e tcid _ _ h (update_finished e tcid w) (update_log e tcid vs))
      by done.
    f_equal; try reflexivity; f_equal; try reflexivity; by apply updateLast_onTool_ext.
  - rewrite (two_updates _ _ e tcid _ _ h (update_error e tcid v) (update_finished e tcid w))
      by done.
    unfold handleAll. cbn [foldl handleDebugEvent setDebugData].
    unfold handleDebugToolExecutionFinished. f_equal; try reflexivity; f_equal; try reflexivity; by apply updateLast_onTool_ext.
  - rewrite (two_updates _ _ e tcid _ _ h (update_finished e tcid w) (update_error e tcid v))
      by done.
    unfold handleAll. cbn [foldl handleDebugEvent setDebugData].
    unfold handleDebugToolExecutionError. f_equal; try reflexivity; f_equal; try reflexivity; by apply updateLast_onTool_ext.
Qed.

Section Logs.

Lemma withLogs_compose (es1 es2 : list JValue) (t : ToolExecutionItem) :
  withLogs es2 (withLogs es1 t) = withLogs (es1 ++ es2) t.
Proof. unfold withLogs. simpl. by rewrite app_assoc. Qed.

Lemma log_events_trace (e : string) (tcid : option string) (vs : list JValue)
    (vss : list (list JValue)) :
  forall h,
    trace (handleAll (debug_tool_log e tcid <$> (vs :: vss)) h) e
    = updateLast (onTool tcid (withLogs (logEntry <$> (vs :: vss)))) (trace h e).
Proof.
  revert vs. induction vss as [|vs' vss IH]; intros vs h.
  - unfold handleAll, trace. cbn [fmap list_fmap foldl handleDebugEvent setDebugData debugData].
    unfold handleDebugToolLog. by rewrite traceOf_insert.
  - change (debug_tool_log e tcid <$> vs :: vs' :: vss)
      with (debug_tool_log e tcid vs :: (debug_tool_log e tcid <$> vs' :: vss)).
    rewrite handleAll_cons, IH.
    unfold trace at 1. cbn [handleDebugEvent setDebugData debugData].
    unfold handleDebugToolLog. rewrite traceOf_insert.
    rewrite updateLast_onTool_compose by done.
    apply updateLast_onTool_ext. intros t. cbn [compose].
    change (withLog vs t) with (withLogs [logEntry vs] t).
    by rewrite withLogs_compose.
Qed.

End Logs.

(** X5.  Log entries accumulate in arrival order on the most recent tool
    item of their call: after one or more [debug_tool_log] events for an
    execution and [toolCallId], the tool item of greatest index with that
    [toolCallId] has, appended to the logs it had, the first element of
    each event's value ([undefined] for an empty value) in order of
    arrival, and nothing else in the trace has changed. *)
Theorem logs_accumulate_in_order (h : Handlers) (e : string) (tcid : option string)
    (vs : list JValue) (vss : list (list JValue)) (k : nat) (t : ToolExecutionItem) :
  trace h e !! k = Some (tool_call t) ->
  toolCallId t = tcid ->
  (forall j x, k < j -> trace h e !! j = Some x -> ~ isToolFor tcid x) ->
  trace (handleAll (debug_tool_log e tcid <$> (vs :: vss)) h) e
  = <[k := tool_call (withLogs (logEntry <$> (vs :: vss)) t)]> (trace h e).
Proof.
  intros Hk Ht Hlater. rewrite log_events_trace.
  apply (updateLast_most_recent _ _ k (tool_call t)); [done| |].
  - by apply onTool_match.
  - intros j x Hj Hx. apply onTool_other. by apply (Hlater j).
Qed.

Lemma logs_accumulate_in_order_witness :
  let h := handleAll [debug_tool_execution_started "exec_1" (Some "search") (Some "call_1");
                      llm_reasoning_delta "exec_1" "hm" 0] (createDebugHandlers ∅) in
  let t := {| toolId := "search"; toolCallId := Some "call_1"; status := progress;
              inputs := None; output := None; logs := None |} in
  trace h "exec_1" !! 0 = Some (tool_call t)
  /\ toolCallId t = Some "call_1"
  /\ (forall j x, 0 < j -> trace h "exec_1" !! j = Some x -> ~ isToolFor (Some "call_1") x)
  /\ trace (handleAll (debug_tool_log "exec_1" (Some "call_1")
                         <$> [[JStr "a"; JStr "ignored"]; []; [JNum 3]]) h) "exec_1"
     = <[0 := tool_call (withLogs [JStr "a"; JUndefined; JNum 3] t)]> (trace h "exec_1").
Proof.
  intros h t.
  assert (trace h "exec_1" !! 0 = Some (tool_call t)) as Hk by (vm_compute; reflexivity).
  assert (toolCallId t = Some "call_1") as Ht by reflexivity.
  assert (forall j x, 0 < j -> trace h "exec_1" !! j = Some x
                      -> ~ isToolFor (Some "call_1") x) as Hlater.
  { intros j x Hj. destruct j as [|[|j]]; [lia| |].
    - vm_compute. intros [= <-]. tauto.
    - vm_compute. discriminate. }
  split; [exact Hk|]. split; [exact Ht|]. split; [exact Hlater|].
  exact (logs_accumulate_in_order h "exec_1" (Some "call_1") [JStr "a"; JStr "ignored"]
           [[]; [JNum 3]] 0 t Hk Ht Hlater).
Defined.

(** ** The session repository, further *)

Section ObjectsFurther.

Context {V : Type}.
Implicit Types (o : Obj V) (k : string) (v : V).

Lemma obj_keys_replace k v o : obj_keys (obj_replace k v o) = obj_keys o.
Proof.
  unfold obj_keys. induction o as [|[k0 v0] o IH]; cbn [obj_replace]; [done|].
  destruct (decide (k0 = k)) as [->|Hne]; [done|].
  rewrite !fmap_cons. by rewrite IH.
Qed.

Lemma obj_keys_set_stored k v o :
  is_Some (obj_get k o) -> obj_keys (obj_set k v o) = obj_keys o.
Proof.
  intros [x Hx]. unfold obj_set. rewrite Hx. apply obj_keys_replace.
Qed.

(** A new property whose key does not spell an array index goes last. *)
Lemma obj_set_new k v o :
  obj_get k o = None -> arrayIndex k = None -> obj_set k v o = o ++ [(k, v)].
Proof. intros H Hk. unfold obj_set. by rewrite H, Hk. Qed.

Lemma obj_place_perm n k v o : obj_place n k v o ≡ₚ (k, v) :: o.
Proof.
  induction o as [|[k0 v0] o IH]; simpl; [done|].
  destruct (arrayIndex k0) as [n'|]; [destruct (n' <? n)%N|]; [|done..].
  rewrite IH. apply perm_swap.
Qed.

(** A new property is added, wherever it goes. *)
Lemma obj_set_new_perm k v o : obj_get k o = None -> obj_set k v o ≡ₚ (k, v) :: o.
Proof.
  intros H. unfold obj_set. rewrite H.
  destruct (arrayIndex k) as [n|]; [apply obj_place_perm|].
  by rewrite Permutation_app_comm.
Qed.

(** Where a new property keyed by an array index goes: after the leading
    keys that spell lower indices. *)
Lemma obj_place_split n k v o :
  exists l1 l2, o = l1 ++ l2 /\ obj_place n k v o = l1 ++ (k, v) :: l2
    /\ Forall (fun p => indexBelow n p.1 = true) l1
    /\ (forall p, head l2 = Some p -> indexBelow n p.1 = false).
Proof.
  induction o as [|[k0 v0] o IH]; cbn [obj_place].
  - exists [], []. repeat split; [constructor|]. intros p [=].
  - destruct (indexBelow n k0) eqn:E; unfold indexBelow in E;
      destruct (arrayIndex k0) as [n'|] eqn:Ek; try discriminate; try rewrite E.
    + destruct IH as (l1 & l2 & -> & -> & Hl1 & Hl2).
      exists ((k0, v0) :: l1), l2. repeat split; [|done].
      constructor; [|done]. unfold indexBelow. cbn [fst]. by rewrite Ek.
    + exists [], ((k0, v0) :: o). repeat split; [constructor|].
      intros p [= <-]. unfold indexBelow. cbn [fst]. by rewrite Ek.
    + exists [], ((k0, v0) :: o). repeat split; [constructor|].
      intros p [= <-]. unfold indexBelow. cbn [fst]. by rewrite Ek.
Qed.

Lemma obj_delete_absent k o : obj_get k o = None -> obj_delete k o = o.
Proof.
  induction o as [|[k0 v0] o IH]; cbn [obj_get obj_delete]; [done|].
  destruct (decide (k0 = k)); [done|]. intros H. by rewrite IH.
Qed.

Lemma obj_delete_app k o1 o2 :
  obj_delete k (o1 ++ o2) = obj_delete k o1 ++ obj_delete k o2.
Proof.
  induction o1 as [|[k0 v0] o1 IH]; cbn [obj_delete app]; [done|].
  destruct (decide (k0 = k)); [done|]. by rewrite IH.
Qed.

(** Creating a property leaves the others in the order they were in. *)
Lemma obj_delete_set_new k v o : obj_get k o = None -> obj_delete k (obj_set k v o) = o.
Proof.
  intros H. unfold obj_set. rewrite H.
  assert (obj_delete k [(k, v)] = []) as Hone.
  { cbn [obj_delete]. by rewrite decide_True. }
  destruct (arrayIndex k) as [n|].
  - destruct (obj_place_split n k v o) as (l1 & l2 & Ho & -> & _).
    change (l1 ++ (k, v) :: l2) with (l1 ++ [(k, v)] ++ l2).
    rewrite !obj_delete_app, Hone. cbn [app].
    rewrite <- obj_delete_app, <- Ho. by apply obj_delete_absent.
  - rewrite obj_delete_app, Hone, app_nil_r. by apply obj_delete_absent.
Qed.

Lemma elem_of_obj_replace k v o (p : string * V) :
  p ∈ obj_replace k v o -> p = (k, v) \/ p ∈ o.
Proof.
  induction o as [|[k0 v0] o IH]; simpl.
  - intros H. by apply elem_of_nil in H.
  - destruct (decide (k0 = k)) as [->|Hne].
    + intros H. apply elem_of_cons in H as [->|H]; [by left|]. right. by right.
    + intros H. apply elem_of_cons in H as [->|H]; [right; by left|].
      destruct (IH H) as [->|Hin]; [by left|]. right. by right.
Qed.

Lemma elem_of_obj_replace_new k v o :
  is_Some (obj_get k o) -> (k, v) ∈ obj_replace k v o.
Proof.
  induction o as [|[k0 v0] o IH]; simpl; intros H; [by destruct H|].
  destruct (decide (k0 = k)) as [->|Hne]; [by left|]. right. by apply IH.
Qed.

Lemma elem_of_obj_set k v o (p : string * V) :
  p ∈ obj_set k v o -> p = (k, v) \/ p ∈ o.
Proof.
  unfold obj_set. destruct (obj_get k o) as [x|] eqn:E.
  - apply elem_of_obj_replace.
  - intros H.
    assert (p ∈ (k, v) :: o) as Hp.
    { destruct (arrayIndex k) as [n|].
      - by rewrite <- (obj_place_perm n k v o).
      - apply elem_of_app in H as [H|H]; [by right|].
        apply list_elem_of_singleton in H as ->. by left. }
    apply elem_of_cons in Hp as [->|Hp]; [by left|by right].
Qed.

Lemma elem_of_obj_set_new k v o : (k, v) ∈ obj_set k v o.
Proof.
  unfold obj_set. destruct (obj_get k o) as [x|] eqn:E.
  - apply elem_of_obj_replace_new. rewrite E. by eexists.
  - destruct (arrayIndex k) as [n|].
    + rewrite (obj_place_perm n k v o). by left.
    + apply elem_of_app. right. by left.
Qed.

Lemma obj_get_elem_of k v o : obj_get k o = Some v -> (k, v) ∈ o.
Proof.
  induction o as [|[k0 v0] o IH]; simpl; [done|].
  destruct (decide (k0 = k)) as [->|Hne].
  - intros [= ->]. by left.
  - intros H. right. by apply IH.
Qed.

Lemma elem_of_obj_get k v o : (k, v) ∈ o -> is_Some (obj_get k o).
Proof.
  induction o as [|[k0 v0] o IH]; simpl; intros H; [by apply elem_of_nil in H|].
  destruct (decide (k0 = k)) as [->|Hne]; [by eexists|].
  apply elem_of_cons in H as [[= <- <-]|H]; [done|]. by apply IH.
Qed.

End ObjectsFurther.

Section Sorting.

Lemma insertByUpdatedAt_perm (s : Session) (l : list Session) :
  SessionUtils.insertByUpdatedAt s l ≡ₚ s :: l.
Proof.
  induction l as [|x l IH]; simpl; [done|].
  case_bool_decide; [done|]. rewrite IH. apply perm_swap.
Qed.

Lemma sortByUpdatedAtDesc_perm (l : list Session) :
  SessionUtils.sortByUpdatedAtDesc l ≡ₚ l.
Proof.
  induction l as [|s l IH]; [done|].
  unfold SessionUtils.sortByUpdatedAtDesc in *. cbn [foldr].
  rewrite insertByUpdatedAt_perm. by rewrite IH.
Qed.

Lemma insertByUpdatedAt_descending (s : Session) (l : list Session) :
  descending l -> descending (SessionUtils.insertByUpdatedAt s l).
Proof.
  induction l as [|x l IH]; simpl; [done|].
  intros [Hx Hl]. case_bool_decide as Hle.
  - simpl. split; [|done]. constructor; [done|].
    eapply Forall_impl; [exact Hx|]. simpl. intros y Hy. lia.
  - simpl. split; [|by apply IH].
    rewrite insertByUpdatedAt_perm. constructor; [lia|done].
Qed.

Lemma sortByUpdatedAtDesc_descending (l : list Session) :
  descending (SessionUtils.sortByUpdatedAtDesc l).
Proof.
  induction l as [|s l IH]; [done|].
  unfold SessionUtils.sortByUpdatedAtDesc in *. cbn [foldr].
  by apply insertByUpdatedAt_descending.
Qed.

End Sorting.

(** X6.  The list of sessions the hook exposes holds exactly the stored
    sessions of the agent, each as often as it is stored, in descending
    order of [updatedAt]. *)
Theorem sessionsList_sorted (agentId : string) (all : AllSessions) :
  SessionUtils.sessionsList agentId all
  ≡ₚ obj_values (SessionUtils.agentSessions agentId all)
  /\ descending (SessionUtils.sessionsList agentId all).
Proof.
  split; [apply sortByUpdatedAtDesc_perm|apply sortByUpdatedAtDesc_descending].
Qed.

(** X7.  [getInitialSessionId] is the temporary id when the agent has no
    stored session; when it has some and every record carries its key as
    [id], it is the key of a stored session that no other stored session
    is more recent than. *)
Theorem getInitialSessionId_most_recent (agentId : string) (all : AllSessions) :
  (SessionUtils.agentSessions agentId all = [] ->
   SessionUtils.getInitialSessionId agentId all = Some TEMPORARY_SESSION_ID)
  /\ (SessionUtils.agentSessions agentId all ≠ [] ->
      keyedById (SessionUtils.agentSessions agentId all) ->
      exists k s, (k, s) ∈ SessionUtils.agentSessions agentId all
        /\ SessionUtils.getInitialSessionId agentId all = Some k
        /\ forall k' s', (k', s') ∈ SessionUtils.agentSessions agentId all ->
                         (updatedAt s' <= updatedAt s)%Z).
Proof.
  unfold SessionUtils.getInitialSessionId.
  set (o := SessionUtils.agentSessions agentId all). split.
  - by intros ->.
  - intros Hne Hkeyed.
    pose proof (sortByUpdatedAtDesc_head (obj_values o)) as Hhead.
    destruct (SessionUtils.sortByUpdatedAtDesc (obj_values o)) as [|m t].
    + exfalso. apply Hne. unfold obj_values in Hhead. by apply fmap_nil_inv in Hhead.
    + destruct Hhead as [Hin Hmax]. unfold obj_values in Hin.
      apply list_elem_of_fmap in Hin as ([k m'] & -> & Hin).
      exists k, m'. split; [done|]. split; [by apply Hkeyed|].
      intros k' s' Hin'. apply Hmax. unfold obj_values.
      apply list_elem_of_fmap. by exists (k', s').
Qed.

Lemma getInitialSessionId_most_recent_witness :
  let m := {| ref := 0; role := user; content := "hi"; executionId := Some "5" |} in
  let all := SessionUtils.syncSession "a1" (Some "sess_1") [] 30 (Some [m])
               (SessionUtils.createSessionFromResponse "a1" "sess_2" "Second" [] 20
                  (SessionUtils.createSessionFromResponse "a1" "sess_1" "First" [] 10 ∅)) in
  SessionUtils.agentSessions "a1" all ≠ []
  /\ keyedById (SessionUtils.agentSessions "a1" all)
  /\ SessionUtils.getInitialSessionId "a1" all = Some "sess_1".
Proof.
  intros m all.
  assert (SessionUtils.agentSessions "a1" all ≠ []) as Hne by (vm_compute; discriminate).
  assert (keyedById (SessionUtils.agentSessions "a1" all)) as Hk.
  { intros k s. vm_compute. intros H.
    apply elem_of_cons in H as [[= -> ->]|H]; [done|].
    apply elem_of_cons in H as [[= -> ->]|H]; [done|].
    by apply elem_of_nil in H. }
  split; [exact Hne|]. split; [exact Hk|].
  destruct (proj2 (getInitialSessionId_most_recent "a1" all) Hne Hk)
    as (k & s & _ & Hget & _).
  rewrite Hget. vm_compute in Hget. exact (eq_sym Hget).
Defined.

Section SyncFurther.

Variable agentId : string.

Lemma syncSession_established (sid : string) ref now upd (prev : AllSessions) :
  sid ≠ "" -> sid ≠ TEMPORARY_SESSION_ID ->
  SessionUtils.agentSessions agentId
    (SessionUtils.syncSession agentId (Some sid) ref now upd prev)
  = obj_set sid
      (merged (obj_get sid (SessionUtils.agentSessions agentId prev))
         (default ref upd) now)
      (SessionUtils.agentSessions agentId prev).
Proof.
  intros H1 H2. unfold SessionUtils.syncSession.
  rewrite !bool_decide_eq_false_2 by done. cbn [orb].
  by rewrite agentSessions_insert.
Qed.

End SyncFurther.

(** X8.  Sync to an established session merges: the record stored under
    the current session id keeps its [id], [createdAt] and [name] and
    takes the given messages (the last known transcript when none are
    given) and the time of the sync; every other session of the agent,
    and the order of the agent's sessions, stay as they were.  When no
    record is stored under that id, sync adds one with neither [id] nor
    [createdAt] nor [name], and the other sessions keep their order; the
    new record is the last one unless the id spells an array index, and
    then it comes right after the leading sessions whose ids spell lower
    array indices. *)
Theorem sync_merges (agentId sid : string) (ref : list Message) (now : Z)
    (upd : option (list Message)) (prev : AllSessions) :
  sid ≠ "" -> sid ≠ TEMPORARY_SESSION_ID ->
  let before := SessionUtils.agentSessions agentId prev in
  let after := SessionUtils.agentSessions agentId
                 (SessionUtils.syncSession agentId (Some sid) ref now upd prev) in
  let fresh := {| id := None; createdAt := None; name := None;
                  messages := default ref upd; updatedAt := now |} in
  (forall k, k ≠ sid -> obj_get k after = obj_get k before)
  /\ (forall s, obj_get sid before = Some s ->
        obj_get sid after
        = Some {| id := id s; createdAt := createdAt s; name := name s;
                  messages := default ref upd; updatedAt := now |}
        /\ obj_keys after = obj_keys before)
  /\ (obj_get sid before = None ->
        obj_get sid after = Some fresh
        /\ obj_delete sid after = before
        /\ (arrayIndex sid = None -> after = before ++ [(sid, fresh)])
        /\ (forall n, arrayIndex sid = Some n ->
              exists l1 l2, before = l1 ++ l2 /\ after = l1 ++ (sid, fresh) :: l2
                /\ Forall (fun p => indexBelow n p.1 = true) l1
                /\ (forall p, head l2 = Some p -> indexBelow n p.1 = false))).
Proof.
  intros H1 H2 before after fresh. unfold after.
  rewrite (syncSession_established agentId sid ref now upd prev H1 H2). fold before.
  split; [|split].
  - intros k Hk. by rewrite obj_get_set_ne.
  - intros s Hs. rewrite Hs. split; [apply obj_get_set_eq|].
    apply obj_keys_set_stored. rewrite Hs. by eexists.
  - intros Hnone. rewrite Hnone. fold fresh.
    split; [apply obj_get_set_eq|]. split; [by apply obj_delete_set_new|]. split.
    + intros Hk. by apply obj_set_new.
    + intros n Hn. unfold obj_set. rewrite Hnone, Hn. apply obj_place_split.
Qed.

Lemma sync_merges_witness :
  let m := {| ref := 0; role := user; content := "hi"; executionId := Some "5" |} in
  let prev := SessionUtils.createSessionFromResponse "a1" "b" "Second" [] 20
                (SessionUtils.createSessionFromResponse "a1" "0" "First" [] 10 ∅) in
  let before := SessionUtils.agentSessions "a1" prev in
  let after := SessionUtils.agentSessions "a1"
                 (SessionUtils.syncSession "a1" (Some "1") [] 30 (Some [m]) prev) in
  "1" ≠ "" /\ "1" ≠ TEMPORARY_SESSION_ID
  /\ obj_get "1" before = None
  /\ arrayIndex "1" = Some 1%N
  /\ obj_keys before = ["0"; "b"]
  /\ obj_keys after = ["0"; "1"; "b"].
Proof.
  intros m prev before after.
  assert ("1" ≠ "") as H1 by discriminate.
  assert ("1" ≠ TEMPORARY_SESSION_ID) as H2 by discriminate.
  assert (obj_get "1" before = None) as Hnone by (vm_compute; reflexivity).
  assert (arrayIndex "1" = Some 1%N) as Hidx by (vm_compute; reflexivity).
  split; [exact H1|]. split; [exact H2|]. split; [exact Hnone|]. split; [exact Hidx|].
  split; [vm_compute; reflexivity|].
  destruct (proj2 (proj2 (sync_merges "a1" "1" [] 30 (Some [m]) prev H1 H2)) Hnone)
    as (_ & Hdel & _ & Hplace).
  fold after in Hdel. fold before in Hdel.
  destruct (Hplace 1%N Hidx) as (l1 & l2 & Hb & Ha & Hl1 & Hl2).
  fold after in Ha. fold before in Hb. rewrite Ha.
  assert (before = [("0", {| id := Some "0"; createdAt := Some 10%Z; updatedAt := 10;
                             messages := []; name := Some "First" |});
                    ("b", {| id := Some "b"; createdAt := Some 20%Z; updatedAt := 20;
                             messages := []; name := Some "Second" |})]) as Hbefore
    by (vm_compute; reflexivity).
  rewrite Hbefore in Hb.
  destruct l1 as [|p1 [|p2 l1]].
  - exfalso. simpl in Hb. subst l2. by specialize (Hl2 _ eq_refl).
  - simpl in Hb. injection Hb as <- <-. reflexivity.
  - exfalso. simpl in Hb. injection Hb as <- <- Hb.
    apply Forall_cons in Hl1 as [_ Hl1]. apply Forall_cons in Hl1 as [Hl1 _].
    by vm_compute in Hl1.
Defined.

Section WellKept.

Variable agentId : string.

Lemma keyedById_set (k : string) (s : Session) (o : Obj Session) :
  keyedById o -> id s = Some k -> keyedById (obj_set k s o).
Proof.
  intros Ho Hs k' s' Hin. apply elem_of_obj_set in Hin as [[= -> ->]|Hin]; [done|].
  by apply Ho.
Qed.

Lemma keyedById_delete (k : string) (o : Obj Session) :
  keyedById o -> keyedById (obj_delete k o).
Proof.
  intros Ho k' s' Hin. apply elem_of_obj_delete in Hin as [Hin _]. by apply Ho.
Qed.

Lemma is_Some_obj_get_set (k k' : string) (s : Session) (o : Obj Session) :
  is_Some (obj_get k' o) -> is_Some (obj_get k' (obj_set k s o)).
Proof.
  intros H. destruct (decide (k = k')) as [->|Hne].
  - rewrite obj_get_set_eq. by eexists.
  - by rewrite obj_get_set_ne.
Qed.

Lemma step_wellKept (r : SessionUtils.Repo) (o : SessionUtils.Op) :
  wellKept agentId r -> switchesToStored agentId r o ->
  wellKept agentId (SessionUtils.step agentId r o).
Proof.
  intros [Hkeyed Hcur] Hop.
  set (ss := SessionUtils.agentSessions agentId (SessionUtils.allSessions r)) in *.
  destruct o as [ref now upd|sid|sid|sid nm msgs now]; cbn [SessionUtils.step].
  - (* sync *)
    unfold SessionUtils.setAllSessions, wellKept.
    cbn [SessionUtils.allSessions SessionUtils.currentSessionId].
    destruct Hcur as [Hcur|(k & Hcur & Hk)].
    + rewrite Hcur, syncSession_temporary by (by right). split; [done|by left].
    + rewrite Hcur. destruct (decide (k = "" \/ k = TEMPORARY_SESSION_ID)) as [Hf|Hf].
      * rewrite syncSession_temporary.
        { split; [done|]. right. by exists k. }
        destruct Hf as [->| ->]; [by left|by right].
      * rewrite syncSession_established by tauto. fold ss.
        destruct Hk as [s Hs]. rewrite Hs. split.
        -- apply keyedById_set; [done|]. simpl. apply Hkeyed. by apply obj_get_elem_of.
        -- right. exists k. split; [done|]. rewrite obj_get_set_eq. by eexists.
  - (* switchSession *)
    unfold SessionUtils.switchSession, wellKept.
    cbn [SessionUtils.allSessions SessionUtils.currentSessionId]. split; [done|].
    destruct sid as [sid|]; [|by left]. simpl in *.
    destruct Hop as [->|Hs]; [by left|]. right. by exists sid.
  - (* deleteSession *)
    destruct (decide (falsy sid = true \/ sid = Some TEMPORARY_SESSION_ID)) as [Hn|Hn].
    { rewrite deleteSession_noop by done. by split. }
    destruct sid as [sid|]; [|exfalso; apply Hn; by left].
    assert (sid ≠ "") as H1.
    { intros ->. apply Hn. by left. }
    assert (sid ≠ TEMPORARY_SESSION_ID) as H2.
    { intros ->. apply Hn. by right. }
    destruct (decide (SessionUtils.currentSessionId r = Some sid)) as [Hc|Hc].
    + destruct (deleteSession_current_keyed agentId sid r H1 H2 Hc Hkeyed)
        as (Hrem & _ & _ & Hnil & Hsome).
      unfold wellKept. rewrite Hrem in *. fold ss in Hnil, Hsome |- *.
      split; [by apply keyedById_delete|].
      destruct (obj_delete sid ss) as [|p rest] eqn:E.
      * left. by apply Hnil.
      * right. destruct Hsome as (k & s & Hin & Hk & _); [done|].
        exists k. split; [done|]. by apply (elem_of_obj_get k s).
    + pose proof (deleteSession_removes agentId sid r H1 H2) as [_ Hkeep].
      unfold wellKept. rewrite (Hkeep Hc).
      assert (SessionUtils.agentSessions agentId
                (SessionUtils.allSessions (SessionUtils.deleteSession agentId (Some sid) r))
              = obj_delete sid ss) as ->.
      { unfold SessionUtils.deleteSession. rewrite !bool_decide_eq_false_2 by done.
        cbn [orb SessionUtils.allSessions]. by rewrite agentSessions_insert. }
      split; [by apply keyedById_delete|].
      destruct Hcur as [Hcur|(k & Hcur & Hk)]; [by left|].
      right. exists k. split; [done|]. rewrite obj_get_delete_ne; [done|].
      intros ->. by apply Hc.
  - (* createSessionFromResponse *)
    unfold SessionUtils.setAllSessions, SessionUtils.createSessionFromResponse, wellKept.
    cbn [SessionUtils.allSessions SessionUtils.currentSessionId].
    rewrite agentSessions_insert. fold ss. split.
    + by apply keyedById_set.
    + destruct Hcur as [Hcur|(k & Hcur & Hk)]; [by left|].
      right. exists k. split; [done|]. by apply is_Some_obj_get_set.
Qed.

End WellKept.

(** X9.  As long as [switchSession] is only called without argument,
    with the temporary id or with the id of a stored session, the
    repository stays well kept under any sequence of sync,
    [switchSession], [deleteSession] and [createSessionFromResponse]:
    every stored record carries its key as [id], and the current session
    id is the temporary id or the id of a stored session. *)
Theorem repository_stays_well_kept (agentId : string) (ops : list SessionUtils.Op)
    (r : SessionUtils.Repo) :
  wellKept agentId r ->
  allSwitchesToStored agentId ops r ->
  wellKept agentId (SessionUtils.run agentId ops r).
Proof.
  revert r. induction ops as [|o ops IH]; intros r Hr Hops; [done|].
  destruct Hops as [Ho Hops]. unfold SessionUtils.run. cbn [foldl].
  apply IH; [by apply step_wellKept|done].
Qed.

Lemma repository_stays_well_kept_witness :
  let r := {| SessionUtils.allSessions := ∅;
              SessionUtils.currentSessionId := Some TEMPORARY_SESSION_ID |} in
  let m := {| ref := 0; role := user; content := "hello"; executionId := Some "5" |} in
  let ops := [SessionUtils.op_createSessionFromResponse "sess_1" "New Chat" [m] 6;
              SessionUtils.op_switchSession (Some "sess_1");
              SessionUtils.op_sync [m] 7 None;
              SessionUtils.op_createSessionFromResponse "sess_2" "Next" [] 8;
              SessionUtils.op_deleteSession (Some "sess_1");
              SessionUtils.op_switchSession None] in
  wellKept "a1" r
  /\ allSwitchesToStored "a1" ops r
  /\ wellKept "a1" (SessionUtils.run "a1" ops r).
Proof.
  intros r m ops.
  assert (wellKept "a1" r) as Hr.
  { split; [|by left]. intros k s H. vm_compute in H. by apply elem_of_nil in H. }
  assert (allSwitchesToStored "a1" ops r) as Hops.
  { cbn [allSwitchesToStored ops switchesToStored]. repeat split.
    right. vm_compute. by eexists. }
  split; [exact Hr|]. split; [exact Hops|].
  exact (repository_stays_well_kept "a1" ops r Hr Hops).
Defined.

(** X10.  The session just synced is the most recent one: when the time
    of the sync is later than the [updatedAt] of every stored session of
    the agent, the record sync stores under an established session id is
    the first of [sessionsList]; and when a record was stored under that
    id with the id as its [id], [getInitialSessionId] is that id. *)
Theorem synced_session_comes_first (agentId sid : string) (ref : list Message) (now : Z)
    (upd : option (list Message)) (prev : AllSessions) :
  sid ≠ "" -> sid ≠ TEMPORARY_SESSION_ID ->
  (forall s, s ∈ obj_values (SessionUtils.agentSessions agentId prev) ->
             (updatedAt s < now)%Z) ->
  let all := SessionUtils.syncSession agentId (Some sid) ref now upd prev in
  let old := obj_get sid (SessionUtils.agentSessions agentId prev) in
  head (SessionUtils.sessionsList agentId all) = Some (merged old (default ref upd) now)
  /\ (forall s, old = Some s -> id s = Some sid ->
        SessionUtils.getInitialSessionId agentId all = Some sid).
Proof.
  intros H1 H2 Hold all old.
  assert (head (SessionUtils.sessionsList agentId all)
          = Some (merged old (default ref upd) now)) as Hhead.
  { unfold SessionUtils.sessionsList, all.
    rewrite (syncSession_established agentId sid ref now upd prev H1 H2). fold old.
    set (rec := merged old (default ref upd) now).
    set (o := obj_set sid rec (SessionUtils.agentSessions agentId prev)).
    pose proof (sortByUpdatedAtDesc_head (obj_values o)) as Hs.
    assert (rec ∈ obj_values o) as Hrec.
    { unfold obj_values. apply list_elem_of_fmap. exists (sid, rec).
      split; [done|]. apply elem_of_obj_set_new. }
    destruct (SessionUtils.sortByUpdatedAtDesc (obj_values o)) as [|m t].
    - rewrite Hs in Hrec. by apply elem_of_nil in Hrec.
    - destruct Hs as [Hin Hmax]. simpl. f_equal.
      unfold obj_values in Hin. apply list_elem_of_fmap in Hin as ([k m'] & -> & Hin).
      apply elem_of_obj_set in Hin as [[= -> ->]|Hin]; [done|]. exfalso.
      specialize (Hmax rec Hrec). simpl in Hmax.
      assert (updatedAt m' < now)%Z; [|lia].
      apply Hold. unfold obj_values. apply list_elem_of_fmap. by exists (k, m'). }
  split; [exact Hhead|].
  intros s Hs Hid. unfold SessionUtils.getInitialSessionId.
  unfold SessionUtils.sessionsList in Hhead.
  destruct (SessionUtils.sortByUpdatedAtDesc _) as [|m t]; [discriminate|].
  simpl in Hhead. injection Hhead as ->. unfold merged, old in *. cbn [id].
  rewrite Hs. exact Hid.
Qed.

Lemma synced_session_comes_first_witness :
  let m := {| ref := 0; role := user; content := "hi"; executionId := Some "5" |} in
  let prev := SessionUtils.createSessionFromResponse "a1" "sess_2" "Second" [] 20
                (SessionUtils.createSessionFromResponse "a1" "sess_1" "First" [] 10 ∅) in
  "sess_1" ≠ "" /\ "sess_1" ≠ TEMPORARY_SESSION_ID
  /\ (forall s, s ∈ obj_values (SessionUtils.agentSessions "a1" prev) -> (updatedAt s < 30)%Z)
  /\ head (SessionUtils.sessionsList "a1"
             (SessionUtils.syncSession "a1" (Some "sess_1") [] 30 (Some [m]) prev))
     = Some (merged (obj_get "sess_1" (SessionUtils.agentSessions "a1" prev)) [m] 30).
Proof.
  intros m prev.
  assert ("sess_1" ≠ "") as H1 by discriminate.
  assert ("sess_1" ≠ TEMPORARY_SESSION_ID) as H2 by discriminate.
  assert (forall s, s ∈ obj_values (SessionUtils.agentSessions "a1" prev)
                    -> (updatedAt s < 30)%Z) as Hold.
  { apply Forall_forall. vm_compute. repeat constructor. }
  split; [exact H1|]. split; [exact H2|]. split; [exact Hold|].
  exact (proj1 (synced_session_comes_first "a1" "sess_1" [] 30 (Some [m]) prev H1 H2 Hold)).
Defined.

(** ** The synced atom, further *)

Section AtomFurther.

Context {Value : Type}.
Variable fits : Value -> bool.
Variable truthy : Value -> bool.
Variable initialValue : Value.
Variable overrideValue : option (Value -> Value).

Lemma write_baseAtom (update : SyncedAtom.SetStateAction Value) (a : SyncedAtom.Atom Value) :
  SyncedAtom.baseAtom (SyncedAtom.write fits truthy initialValue overrideValue update a).1
  = match SyncedAtom.nextOf update a with
    | SyncedAtom.next_value v => v
    | SyncedAtom.RESET => initialValue
    end.
Proof.
  unfold SyncedAtom.write.
  destruct (SyncedAtom.nextOf update a) as [v|]; [|done].
  unfold SyncedAtom.setItem. cbn [SyncedAtom.baseAtom SyncedAtom.stored SyncedAtom.setItemCalls].
  destruct (fits v); [done|].
  by destruct (fits _).
Qed.

End AtomFurther.

(** X11.  The in-memory value of a synced atom does not depend on the
    storage backend: after any sequence of writes (literals, updater
    functions, resets), whatever the backend accepted or rejected and
    whatever each write's completion, the atom holds the value the updates
    alone lead to from the value it held. *)
Theorem memory_independent_of_storage {Value : Type} (fits truthy : Value -> bool)
    (initialValue : Value) (overrideValue : option (Value -> Value))
    (updates : list (SyncedAtom.SetStateAction Value)) (a : SyncedAtom.Atom Value) :
  SyncedAtom.baseAtom (writeAll fits truthy initialValue overrideValue updates a)
  = applyAll initialValue updates (SyncedAtom.baseAtom a).
Proof.
  revert a. induction updates as [|u updates IH]; intros a; [done|].
  unfold writeAll, applyAll in *. cbn [foldl]. rewrite IH. f_equal.
  rewrite write_baseAtom. destruct u as [[v|]|f]; try done.
Qed.

(** ** The stream consumer, further *)

Section ExchangeEnds.

Variable agentId : string.

Lemma failed_inProgress (now : Z) (st : UseAgent.Agent) :
  UseAgent.inProgress (UseAgent.failed agentId now st).1 = false.
Proof. reflexivity. Qed.

Lemma runAgent_outcome (input : string) (x : UseAgent.Exchange) (st : UseAgent.Agent) :
  (UseAgent.runAgent agentId input x st).2
  = match UseAgent.response x with
    | Some resp =>
        if bool_decide (400 <= UseAgent.status resp)
        then UseAgent.rejected "Failed to execute agent"
        else match UseAgent.ending x with
             | UseAgent.stream_closed => UseAgent.resolved
             | UseAgent.stream_failed => UseAgent.rejected "Failed to execute agent"
             end
    | None => UseAgent.rejected "Failed to execute agent"
    end.
Proof.
  unfold UseAgent.runAgent, UseAgent.onopen.
  destruct (UseAgent.response x) as [resp|]; [|done].
  destruct (bool_decide (400 <= UseAgent.status resp)).
  - by destruct (bool_decide (UseAgent.status resp = 404)).
  - by destruct (UseAgent.ending x).
Qed.

Lemma runAgent_inProgress (input : string) (x : UseAgent.Exchange) (st : UseAgent.Agent) :
  UseAgent.inProgress (UseAgent.runAgent agentId input x st).1 = false.
Proof.
  unfold UseAgent.runAgent.
  destruct (UseAgent.response x) as [resp|]; [|done].
  destruct (UseAgent.onopen agentId _ _ resp _) as [st1|err]; [|done].
  by destruct (UseAgent.ending x).
Qed.

End ExchangeEnds.

(** X13.  Every send ends idle: whatever the exchange (no response, a
    status of 400 or more, any frames, a closed or a failed stream) and
    with or without [skipUserMessage], [inProgress] is false when
    [handleSend] settles; and it resolves exactly when there was a
    response with a status below 400 and the stream was closed by the
    server. *)
Theorem send_ends_idle (agentId input : string) (skip : bool) (now : Z)
    (x : UseAgent.Exchange) (st : UseAgent.Agent) :
  let r := UseAgent.handleSend agentId input skip now x st in
  UseAgent.inProgress r.1 = false
  /\ (r.2 = UseAgent.resolved
      <-> exists resp, UseAgent.response x = Some resp
            /\ UseAgent.status resp < 400
            /\ UseAgent.ending x = UseAgent.stream_closed).
Proof.
  intros r. unfold r, UseAgent.handleSend.
  set (st0 := if skip then _ else _).
  pose proof (runAgent_inProgress agentId input x st0) as Hp.
  pose proof (runAgent_outcome agentId input x st0) as Ho.
  destruct (UseAgent.runAgent agentId input x st0) as [st1 [|err]]; cbn [fst snd] in *.
  - split; [done|]. split; [intros _|done].
    destruct (UseAgent.response x) as [resp|]; [|done].
    exists resp. split; [done|]. case_bool_decide; [done|].
    split; [lia|]. by destruct (UseAgent.ending x).
  - split; [by destruct skip|]. split; [done|].
    intros (resp & Hr & Hs & He). rewrite Hr, He in Ho.
    rewrite bool_decide_eq_false_2 in Ho by lia. done.
Qed.

Section Refused.

Variable agentId : string.

(** What a callback's sync leaves alone. *)
Lemma sync_keeps (cl : UseAgent.Closure) (now : Z) (upd : option (list Message))
    (st : UseAgent.Agent) :
  let st' := UseAgent.syncSessionRef_current agentId cl now upd st in
  UseAgent.messages st' = UseAgent.messages st
  /\ UseAgent.inProgress st' = UseAgent.inProgress st
  /\ SessionUtils.currentSessionId (UseAgent.sessions st')
     = SessionUtils.currentSessionId (UseAgent.sessions st)
  /\ UseAgent.debug st' = UseAgent.debug st
  /\ UseAgent.nextRef st' = UseAgent.nextRef st.
Proof. done. Qed.

End Refused.

(** X14.  A refused request changes nothing but the stored sessions: when
    the request gets no response, or a response with a status of 400 or
    more, [runAgent] rejects and leaves the transcript, the current
    session id and the debug traces as they were; no session is created
    from the response's headers, the stored sessions are those two syncs
    of the unchanged transcript lead to. *)
Theorem refused_request (agentId input : string) (x : UseAgent.Exchange)
    (st : UseAgent.Agent) :
  (UseAgent.response x = None
   \/ exists resp, UseAgent.response x = Some resp /\ 400 <= UseAgent.status resp) ->
  let r := UseAgent.runAgent agentId input x st in
  let cur := SessionUtils.currentSessionId (UseAgent.sessions st) in
  let sync := SessionUtils.syncSession agentId cur (UseAgent.messages st)
                (UseAgent.openedAt x) (Some (UseAgent.messages st)) in
  r.2 = UseAgent.rejected "Failed to execute agent"
  /\ UseAgent.messages r.1 = UseAgent.messages st
  /\ SessionUtils.currentSessionId (UseAgent.sessions r.1) = cur
  /\ UseAgent.debug r.1 = UseAgent.debug st
  /\ SessionUtils.allSessions (UseAgent.sessions r.1)
     = sync (sync (SessionUtils.allSessions (UseAgent.sessions st))).
Proof.
  intros Hx r cur sync. unfold r, UseAgent.runAgent.
  destruct Hx as [->|(resp & -> & Hs)]; [done|].
  unfold UseAgent.onopen. rewrite bool_decide_eq_true_2 by done.
  by destruct (bool_decide (UseAgent.status resp = 404)).
Qed.

Lemma refused_request_witness :
  let st := UseAgent.addOptimisticMessage "a1" "hello" 5 (UseAgent.init ∅ ∅) in
  let x := {| UseAgent.response :=
                Some {| UseAgent.status := 404; UseAgent.statusText := "Not Found";
                        UseAgent.sessionIdHeader := Some "sess_1";
                        UseAgent.sessionNameHeader := None;
                        UseAgent.executionIdHeader := Some "exec_1" |};
              UseAgent.openedAt := 6; UseAgent.frames := [(7%Z, llm_text_delta "x" "exec_1")];
              UseAgent.ending := UseAgent.stream_closed; UseAgent.endedAt := 8 |} in
  (UseAgent.response x = None
   \/ exists resp, UseAgent.response x = Some resp /\ 400 <= UseAgent.status resp)
  /\ UseAgent.messages (UseAgent.runAgent "a1" "hello" x st).1 = UseAgent.messages st.
Proof.
  intros st x.
  assert (UseAgent.response x = None
          \/ exists resp, UseAgent.response x = Some resp /\ 400 <= UseAgent.status resp) as Hx.
  { right. eexists. split; [reflexivity|]. simpl. lia. }
  split; [exact Hx|].
  exact (proj1 (proj2 (refused_request "a1" "hello" x st Hx))).
Defined.

Section InSync.

Variable agentId : string.

(** A sync of the transcript, by a closure that knows the current session,
    leaves the session's stored messages equal to the transcript. *)
Lemma synced_after (now : Z) (upd : option (list Message)) (ref : list Message)
    (st : UseAgent.Agent) :
  default ref upd = UseAgent.messages st ->
  let cl := {| UseAgent.closureSessionId :=
                 SessionUtils.currentSessionId (UseAgent.sessions st);
               UseAgent.closureMessagesRef := ref |} in
  let st' := UseAgent.syncSessionRef_current agentId cl now upd st in
  established (SessionUtils.currentSessionId (UseAgent.sessions st')) ->
  storedMessages agentId (UseAgent.sessions st') = Some (UseAgent.messages st').
Proof.
  intros Hupd cl st' (sid & Hcur & H1 & H2).
  unfold storedMessages. rewrite Hcur.
  unfold st', UseAgent.syncSessionRef_current, UseAgent.setAllSessions in *.
  cbn [UseAgent.sessions UseAgent.messages SessionUtils.setAllSessions
       SessionUtils.allSessions SessionUtils.currentSessionId
       UseAgent.closureSessionId UseAgent.closureMessagesRef cl] in *.
  rewrite Hcur, syncSession_established by done.
  rewrite obj_get_set_eq. simpl. by rewrite Hupd.
Qed.

Lemma failed_in_sync (now : Z) (st : UseAgent.Agent) :
  let st' := (UseAgent.failed agentId now st).1 in
  established (SessionUtils.currentSessionId (UseAgent.sessions st')) ->
  storedMessages agentId (UseAgent.sessions st') = Some (UseAgent.messages st').
Proof.
  intros st'. unfold st', UseAgent.failed. cbn [fst]. unfold UseAgent.runAgentCatch.
  apply (synced_after now (Some _) _ (UseAgent.setInProgress false (UseAgent.onerror agentId now st))).
  reflexivity.
Qed.

Lemma runAgent_in_sync (input : string) (x : UseAgent.Exchange) (st : UseAgent.Agent) :
  let st' := (UseAgent.runAgent agentId input x st).1 in
  established (SessionUtils.currentSessionId (UseAgent.sessions st')) ->
  storedMessages agentId (UseAgent.sessions st') = Some (UseAgent.messages st').
Proof.
  intros st'. unfold st', UseAgent.runAgent.
  destruct (UseAgent.response x) as [resp|]; [|apply failed_in_sync].
  destruct (UseAgent.onopen agentId _ _ resp _) as [st1|err]; [|apply failed_in_sync].
  destruct (UseAgent.ending x); [|apply failed_in_sync].
  cbn [fst]. unfold UseAgent.onclose.
  apply (synced_after (UseAgent.endedAt x) None _
           (UseAgent.setInProgress false (UseAgent.deliver agentId (UseAgent.frames x) st1))).
  reflexivity.
Qed.

End InSync.

(** X15.  Transcript and session agree when a send settles: with or
    without [skipUserMessage], however the exchange went, if the current
    session id is then an established one (neither falsy nor the
    temporary id), the messages stored for that session are the
    transcript, and the reload effect leaves the transcript as it is.
    The same holds after [addOptimisticMessage]. *)
Theorem transcript_and_session_agree (agentId input : string) (skip : bool) (now : Z)
    (x : UseAgent.Exchange) (st : UseAgent.Agent) :
  (let r := (UseAgent.handleSend agentId input skip now x st).1 in
   established (SessionUtils.currentSessionId (UseAgent.sessions r)) ->
   storedMessages agentId (UseAgent.sessions r) = Some (UseAgent.messages r)
   /\ UseAgent.messages (UseAgent.loadSession agentId r) = UseAgent.messages r)
  /\ (let r := UseAgent.addOptimisticMessage agentId input now st in
      established (SessionUtils.currentSessionId (UseAgent.sessions r)) ->
      storedMessages agentId (UseAgent.sessions r) = Some (UseAgent.messages r)).
Proof.
  split.
  - intros r Hest.
    assert (storedMessages agentId (UseAgent.sessions r) = Some (UseAgent.messages r)) as Hs.
    { revert Hest. unfold r, UseAgent.handleSend.
      set (st0 := if skip then _ else _).
      pose proof (runAgent_in_sync agentId input x st0) as Hr.
      destruct (UseAgent.runAgent agentId input x st0) as [st1 [|err]]; cbn [fst] in *;
        [done|].
      destruct skip; [done|].
      apply (synced_after agentId (UseAgent.endedAt x) (Some _) _
               (UseAgent.setMessages _ st1)).
      reflexivity. }
    split; [exact Hs|].
    unfold UseAgent.loadSession.
    assert (UseAgent.inProgress r = false) as ->
      by apply (proj1 (send_ends_idle agentId input skip now x st)).
    unfold storedMessages in Hs.
    destruct (SessionUtils.currentSessionId (UseAgent.sessions r)) as [sid|]; [|done].
    cbn [mbind option_bind].
    destruct (obj_get sid _) as [s|]; [|done]. simpl in Hs. by injection Hs as ->.
  - intros r. unfold r, UseAgent.addOptimisticMessage.
    apply (synced_after agentId now (Some _) (UseAgent.messages (UseAgent.allocate st))
             (UseAgent.setMessages _ (UseAgent.allocate st))).
    reflexivity.
Qed.

Lemma transcript_and_session_agree_witness :
  let x := {| UseAgent.response :=
                Some {| UseAgent.status := 200; UseAgent.statusText := "OK";
                        UseAgent.sessionIdHeader := Some "sess_1";
                        UseAgent.sessionNameHeader := None;
                        UseAgent.executionIdHeader := Some "exec_1" |};
              UseAgent.openedAt := 10;
              UseAgent.frames := [(11%Z, llm_text_delta "Hi" "exec_1")];
              UseAgent.ending := UseAgent.stream_failed; UseAgent.endedAt := 13 |} in
  let r := (UseAgent.handleSend "a1" "hello" false 5 x (UseAgent.init ∅ ∅)).1 in
  established (SessionUtils.currentSessionId (UseAgent.sessions r))
  /\ storedMessages "a1" (UseAgent.sessions r) = Some (UseAgent.messages r).
Proof.
  intros x r.
  assert (established (SessionUtils.currentSessionId (UseAgent.sessions r))) as Hest.
  { exists "sess_1". split; [vm_compute; reflexivity|]. split; discriminate. }
  split; [exact Hest|].
  exact (proj1 (proj1 (transcript_and_session_agree "a1" "hello" false 5 x
                         (UseAgent.init ∅ ∅)) Hest)).
Defined.

Section History.

Variable agentId : string.

Lemma keepsHistory_refl (l : list Message) : keepsHistory l l.
Proof. by split. Qed.

Lemma keepsHistory_snoc (l m : list Message) (x : Message) :
  keepsHistory l m -> keepsHistory l (m ++ [x]).
Proof.
  intros [Ht Hl]. split.
  - rewrite take_app_le by lia. done.
  - rewrite length_app. lia.
Qed.

Lemma keepsHistory_replace_last (l m : list Message) (x : Message) :
  m ≠ [] -> keepsHistory l m -> keepsHistory l (slice_init m ++ [x]).
Proof.
  intros Hm [Ht Hl]. assert (0 < length m) by (destruct m; [done|simpl; lia]).
  unfold slice_init in *. split.
  - rewrite take_app_le by (rewrite length_take; lia).
    rewrite take_take. rewrite Nat.min_l by lia. exact Ht.
  - rewrite length_app, length_take. simpl. lia.
Qed.

Lemma keepsHistory_appendTextDelta (l prev : list Message) (r : nat) (data exec : string) :
  keepsHistory l prev -> keepsHistory l (UseAgent.appendTextDelta r data exec prev).
Proof.
  intros H. unfold UseAgent.appendTextDelta.
  destruct (last_elem prev) as [m|] eqn:E; [|by apply keepsHistory_snoc].
  destruct (decide (role m = agent)); [|by apply keepsHistory_snoc].
  apply keepsHistory_replace_last; [|done]. by intros ->.
Qed.

Lemma keepsHistory_deliver (l : list Message) (fs : list (Z * Frame)) (st : UseAgent.Agent) :
  keepsHistory l (UseAgent.messages st) ->
  keepsHistory l (UseAgent.messages (UseAgent.deliver agentId fs st)).
Proof.
  revert st. induction fs as [|[t f] fs IH]; intros st H; [done|].
  unfold UseAgent.deliver. cbn [foldl fst snd].
  fold (UseAgent.deliver agentId fs (UseAgent.onmessage agentId t f st)).
  apply IH. rewrite onmessage_messages. destruct f; [|done..].
  by apply keepsHistory_appendTextDelta.
Qed.

Lemma keepsHistory_onopen (l : list Message) (cur : option string) (now : Z)
    (resp : UseAgent.Response) (st st' : UseAgent.Agent) :
  UseAgent.onopen agentId cur now resp st = inl st' ->
  keepsHistory l (UseAgent.messages st) -> keepsHistory l (UseAgent.messages st').
Proof.
  unfold UseAgent.onopen.
  destruct (bool_decide (400 <= UseAgent.status resp)).
  { destruct (bool_decide (UseAgent.status resp = 404)); discriminate. }
  intros [= <-] H. unfold UseAgent.onopenHeaders, UseAgent.onopenExecution.
  set (st1 := UseAgent.onopenSession agentId cur (UseAgent.closureOf st) now resp st).
  assert (UseAgent.messages st1 = UseAgent.messages st) as H1.
  { unfold st1, UseAgent.onopenSession.
    destruct (falsy cur || bool_decide (cur = Some TEMPORARY_SESSION_ID)); [|done].
    by destruct (falsy (UseAgent.sessionIdHeader resp)). }
  destruct (falsy (UseAgent.executionIdHeader resp)); [by rewrite H1|].
  unfold UseAgent.attachExecutionId. rewrite H1.
  destruct (last_elem (UseAgent.messages st)) as [m|] eqn:E; [|by rewrite H1].
  destruct (decide (role m = user)); [|by rewrite H1].
  cbn [UseAgent.messages UseAgent.syncSessionRef_current UseAgent.setAllSessions
       UseAgent.setMessages].
  apply keepsHistory_replace_last; [|done]. intros Hnil. by rewrite Hnil in E.
Qed.

Lemma keepsHistory_runAgent (l : list Message) (input : string) (x : UseAgent.Exchange)
    (st : UseAgent.Agent) :
  keepsHistory l (UseAgent.messages st) ->
  keepsHistory l (UseAgent.messages (UseAgent.runAgent agentId input x st).1).
Proof.
  intros H. unfold UseAgent.runAgent.
  destruct (UseAgent.response x) as [resp|]; [|done].
  destruct (UseAgent.onopen agentId _ _ resp _) as [st1|err] eqn:E; [|done].
  apply (keepsHistory_onopen l) in E; [|done].
  pose proof (keepsHistory_deliver l (UseAgent.frames x) st1 E).
  by destruct (UseAgent.ending x).
Qed.

Lemma keepsHistory_prefix (l m : list Message) :
  keepsHistory l m -> slice_init l `prefix_of` m.
Proof. intros [Ht _]. rewrite <- Ht. apply prefix_take. Qed.

End History.

(** X16.  A send never rewrites history: whatever the exchange, the
    transcript [handleSend] leaves starts with every message of the
    transcript it found except possibly the last one (which a text delta
    or an execution id may have replaced by an extended copy), and is at
    least as long; without [skipUserMessage] it starts with the whole
    transcript it found. *)
Theorem send_keeps_history (agentId input : string) (skip : bool) (now : Z)
    (x : UseAgent.Exchange) (st : UseAgent.Agent) :
  let after := UseAgent.messages (UseAgent.handleSend agentId input skip now x st).1 in
  slice_init (UseAgent.messages st) `prefix_of` after
  /\ length (UseAgent.messages st) <= length after
  /\ (skip = false -> UseAgent.messages st `prefix_of` after).
Proof.
  intros after.
  assert (forall l st0,
            keepsHistory l (UseAgent.messages st0) ->
            keepsHistory l
              (UseAgent.messages
                 (match UseAgent.runAgent agentId input x st0 with
                  | (st1, UseAgent.resolved) => (st1, UseAgent.resolved)
                  | (st1, UseAgent.rejected e) =>
                      (if skip then st1
                       else UseAgent.syncSessionRef_current agentId (UseAgent.closureOf st1)
                              (UseAgent.endedAt x)
                              (Some (if UseAgent.includesObject
                                          {| ref := UseAgent.nextRef st; role := user;
                                             content := input;
                                             executionId := Some (pretty now) |}
                                          (UseAgent.messages st1)
                                     then UseAgent.messages st1
                                     else UseAgent.messages st1 ++
                                          [{| ref := UseAgent.nextRef st; role := user;
                                              content := input;
                                              executionId := Some (pretty now) |}]))
                              (UseAgent.setMessages
                                 (if UseAgent.includesObject
                                       {| ref := UseAgent.nextRef st; role := user;
                                          content := input;
                                          executionId := Some (pretty now) |}
                                       (UseAgent.messages st1)
                                  then UseAgent.messages st1
                                  else UseAgent.messages st1 ++
                                       [{| ref := UseAgent.nextRef st; role := user;
                                           content := input;
                                           executionId := Some (pretty now) |}]) st1),
                       UseAgent.rejected e)
                  end).1)) as Hgen.
  { intros l st0 H0.
    pose proof (keepsHistory_runAgent agentId l input x st0 H0) as Hr.
    destruct (UseAgent.runAgent agentId input x st0) as [st1 [|err]]; cbn [fst] in *; [done|].
    destruct skip; [done|].
    cbn [UseAgent.messages UseAgent.syncSessionRef_current UseAgent.setAllSessions
         UseAgent.setMessages].
    destruct (UseAgent.includesObject _ _); [done|]. by apply keepsHistory_snoc. }
  destruct skip.
  - pose proof (Hgen (UseAgent.messages st) (UseAgent.allocate st)
                  (keepsHistory_refl _)) as Hk.
    split; [exact (keepsHistory_prefix _ _ Hk)|]. split; [exact (proj2 Hk)|done].
  - set (um := {| ref := UseAgent.nextRef st; role := user; content := input;
                  executionId := Some (pretty now) |}).
    pose proof (Hgen (UseAgent.messages st ++ [um])
                  (UseAgent.syncSessionRef_current agentId
                     (UseAgent.closureOf (UseAgent.allocate st)) now
                     (Some (UseAgent.messages (UseAgent.allocate st) ++ [um]))
                     (UseAgent.setMessages (UseAgent.messages (UseAgent.allocate st) ++ [um])
                        (UseAgent.allocate st)))
                  (keepsHistory_refl _)) as Hk.
    pose proof (keepsHistory_prefix _ _ Hk) as Hp. rewrite slice_init_snoc in Hp.
    destruct Hk as [_ Hlen]. rewrite length_app in Hlen.
    split; [|split; [|intros _; exact Hp]].
    + etrans; [|exact Hp]. unfold slice_init. apply prefix_take.
    + unfold after. eapply Nat.le_trans; [|exact Hlen]. lia.
Qed.

Section Routing.

Variable agentId : string.

Lemma deliver_cons (t : Z) (f : Frame) (fs : list (Z * Frame)) (st : UseAgent.Agent) :
  UseAgent.deliver agentId ((t, f) :: fs) st
  = UseAgent.deliver agentId fs (UseAgent.onmessage agentId t f st).
Proof. reflexivity. Qed.

Lemma setDebug_same (st : UseAgent.Agent) : UseAgent.setDebug (UseAgent.debug st) st = st.
Proof. by destruct st. Qed.

(** Text deltas neither read nor write the debug handlers. *)
Lemma deliver_text_setDebug (h : Handlers) (fs : list (Z * Frame)) (st : UseAgent.Agent) :
  UseAgent.deliver agentId (textFrames fs) (UseAgent.setDebug h st)
  = UseAgent.setDebug h (UseAgent.deliver agentId (textFrames fs) st).
Proof.
  revert st. induction fs as [|[t f] fs IH]; intros st; [done|].
  destruct f as [data exec|ev|]; unfold textFrames in *; cbn [omap list_omap snd];
    [|apply IH..].
  rewrite !deliver_cons. rewrite <- IH. reflexivity.
Qed.

End Routing.

(** X17.  Frames are routed without interference: the state a stream
    leaves is the one its text deltas alone lead to, with the debug
    handlers in the state the debug events of the stream alone, in order,
    lead them to.  Malformed and unknown frames change nothing and stop
    nothing; debug events never touch the transcript or the sessions;
    text deltas never touch the traces or the cursor. *)
Theorem frames_are_routed (agentId : string) (fs : list (Z * Frame)) (st : UseAgent.Agent) :
  UseAgent.deliver agentId fs st
  = UseAgent.setDebug (handleAll (debugEvents fs) (UseAgent.debug st))
      (UseAgent.deliver agentId (textFrames fs) st).
Proof.
  revert st. induction fs as [|[t f] fs IH]; intros st.
  - simpl. by rewrite setDebug_same.
  - rewrite deliver_cons, IH. destruct f as [data exec|ev|].
    + unfold textFrames, debugEvents. cbn [omap list_omap snd]. by rewrite deliver_cons.
    + unfold textFrames, debugEvents. cbn [omap list_omap snd UseAgent.onmessage].
      fold (textFrames fs). fold (debugEvents fs).
      rewrite deliver_text_setDebug. reflexivity.
    + reflexivity.
Qed.

Section SessionIdOnce.

Variable agentId : string.

Lemma deliver_sessionId (fs : list (Z * Frame)) (st : UseAgent.Agent) :
  SessionUtils.currentSessionId (UseAgent.sessions (UseAgent.deliver agentId fs st))
  = SessionUtils.currentSessionId (UseAgent.sessions st).
Proof.
  revert st. induction fs as [|[t f] fs IH]; intros st; [done|].
  rewrite deliver_cons, IH. by destruct f.
Qed.

Lemma onopenExecution_sessionId (cl : UseAgent.Closure) (now : Z) (resp : UseAgent.Response)
    (st : UseAgent.Agent) :
  SessionUtils.currentSessionId
    (UseAgent.sessions (UseAgent.onopenExecution agentId cl now resp st))
  = SessionUtils.currentSessionId (UseAgent.sessions st).
Proof.
  unfold UseAgent.onopenExecution.
  destruct (falsy (UseAgent.executionIdHeader resp)); [done|].
  by destruct (UseAgent.attachExecutionId _ _ _).
Qed.

(** After [onopen], whatever [runAgent] and [handleSend] still do leaves
    the current session id alone. *)
Lemma after_onopen_sessionId (x : UseAgent.Exchange) (st1 : UseAgent.Agent) :
  let st2 := UseAgent.deliver agentId (UseAgent.frames x) st1 in
  SessionUtils.currentSessionId
    (UseAgent.sessions
       (match UseAgent.ending x with
        | UseAgent.stream_closed => (UseAgent.onclose agentId (UseAgent.endedAt x) st2,
                                     UseAgent.resolved)
        | UseAgent.stream_failed => UseAgent.failed agentId (UseAgent.endedAt x) st2
        end).1)
  = SessionUtils.currentSessionId (UseAgent.sessions st1).
Proof.
  intros st2. pose proof (deliver_sessionId (UseAgent.frames x) st1) as H.
  by destruct (UseAgent.ending x).
Qed.

Lemma established_not_temporary (cur : option string) :
  established cur ->
  falsy cur || bool_decide (cur = Some TEMPORARY_SESSION_ID) = false.
Proof.
  intros (s & -> & H1 & H2). simpl.
  rewrite !bool_decide_eq_false_2; [done|congruence|done].
Qed.

Lemma runAgent_sessionId_established (input : string) (x : UseAgent.Exchange)
    (st : UseAgent.Agent) :
  established (SessionUtils.currentSessionId (UseAgent.sessions st)) ->
  SessionUtils.currentSessionId (UseAgent.sessions (UseAgent.runAgent agentId input x st).1)
  = SessionUtils.currentSessionId (UseAgent.sessions st).
Proof.
  intros Hest. unfold UseAgent.runAgent.
  destruct (UseAgent.response x) as [resp|]; [|done].
  unfold UseAgent.onopen.
  destruct (bool_decide (400 <= UseAgent.status resp)).
  { by destruct (bool_decide (UseAgent.status resp = 404)). }
  rewrite after_onopen_sessionId. unfold UseAgent.onopenHeaders.
  rewrite onopenExecution_sessionId. unfold UseAgent.onopenSession.
  cbn [UseAgent.sessions UseAgent.setInProgress].
  by rewrite established_not_temporary.
Qed.

(** Sync, by whatever closure, keeps a session that is held. *)
Lemma syncSession_holdsSession (sid : string) (c : Z) (n : string) cur ref now upd
    (r : SessionUtils.Repo) :
  holdsSession agentId sid c n r ->
  holdsSession agentId sid c n
    (SessionUtils.setAllSessions (SessionUtils.syncSession agentId cur ref now upd) r).
Proof.
  intros (s & Hs & Hid & Hc & Hn). unfold holdsSession.
  cbn [SessionUtils.setAllSessions SessionUtils.allSessions].
  destruct (decide (falsy cur = true \/ cur = Some TEMPORARY_SESSION_ID)) as [Ht|Ht].
  { rewrite syncSession_temporary by done. by exists s. }
  destruct cur as [k|]; [|exfalso; apply Ht; by left].
  rewrite syncSession_established.
  2: { intros ->. apply Ht. by left. }
  2: { intros ->. apply Ht. by right. }
  destruct (decide (k = sid)) as [->|Hne].
  - rewrite Hs, obj_get_set_eq. eexists. split; [done|]. simpl. done.
  - rewrite obj_get_set_ne by done. by exists s.
Qed.

Lemma deliver_holdsSession (sid : string) (c : Z) (n : string) (fs : list (Z * Frame))
    (st : UseAgent.Agent) :
  holdsSession agentId sid c n (UseAgent.sessions st) ->
  holdsSession agentId sid c n (UseAgent.sessions (UseAgent.deliver agentId fs st)).
Proof.
  revert st. induction fs as [|[t f] fs IH]; intros st H; [done|].
  rewrite deliver_cons. apply IH. destruct f; [|done..].
  cbn [UseAgent.onmessage UseAgent.syncSessionRef_current UseAgent.setAllSessions
       UseAgent.sessions UseAgent.setMessages UseAgent.allocate].
  by apply syncSession_holdsSession.
Qed.

Lemma after_onopen_holdsSession (sid : string) (c : Z) (n : string)
    (x : UseAgent.Exchange) (st1 : UseAgent.Agent) :
  holdsSession agentId sid c n (UseAgent.sessions st1) ->
  let st2 := UseAgent.deliver agentId (UseAgent.frames x) st1 in
  holdsSession agentId sid c n
    (UseAgent.sessions
       (match UseAgent.ending x with
        | UseAgent.stream_closed => (UseAgent.onclose agentId (UseAgent.endedAt x) st2,
                                     UseAgent.resolved)
        | UseAgent.stream_failed => UseAgent.failed agentId (UseAgent.endedAt x) st2
        end).1).
Proof.
  intros H st2. pose proof (deliver_holdsSession sid c n (UseAgent.frames x) st1 H) as H2.
  fold st2 in H2. destruct (UseAgent.ending x); cbn [fst].
  - unfold UseAgent.onclose.
    cbn [UseAgent.syncSessionRef_current UseAgent.setAllSessions UseAgent.sessions
         UseAgent.setInProgress].
    by apply syncSession_holdsSession.
  - unfold UseAgent.failed, UseAgent.runAgentCatch, UseAgent.onerror.
    cbn [fst UseAgent.syncSessionRef_current UseAgent.setAllSessions UseAgent.sessions
         UseAgent.setInProgress].
    by do 2 apply syncSession_holdsSession.
Qed.

End SessionIdOnce.

Section SessionIdAssigned.

Variable agentId : string.

Lemma runAgent_assigns (input : string) (x : UseAgent.Exchange) (st : UseAgent.Agent)
    (resp : UseAgent.Response) (sid : string) :
  falsy (SessionUtils.currentSessionId (UseAgent.sessions st)) = true
  \/ SessionUtils.currentSessionId (UseAgent.sessions st) = Some TEMPORARY_SESSION_ID ->
  UseAgent.response x = Some resp -> UseAgent.status resp < 400 ->
  UseAgent.sessionIdHeader resp = Some sid -> sid ≠ "" ->
  let r := (UseAgent.runAgent agentId input x st).1 in
  SessionUtils.currentSessionId (UseAgent.sessions r) = Some sid
  /\ holdsSession agentId sid (UseAgent.openedAt x)
       (if falsy (UseAgent.sessionNameHeader resp) then DEFAULT_SESSION_NAME
        else default "" (UseAgent.sessionNameHeader resp))
       (UseAgent.sessions r).
Proof.
  intros Hcur Hresp Hstatus Hsid Hne r. unfold r, UseAgent.runAgent. rewrite Hresp.
  unfold UseAgent.onopen. rewrite bool_decide_eq_false_2 by lia.
  set (st1 := UseAgent.onopenHeaders agentId _ _ _ resp _).
  assert (SessionUtils.currentSessionId (UseAgent.sessions st1) = Some sid
          /\ holdsSession agentId sid (UseAgent.openedAt x)
               (if falsy (UseAgent.sessionNameHeader resp) then DEFAULT_SESSION_NAME
                else default "" (UseAgent.sessionNameHeader resp))
               (UseAgent.sessions st1)) as [H1 H2].
  { unfold st1, UseAgent.onopenHeaders. rewrite onopenExecution_sessionId.
    assert (falsy (SessionUtils.currentSessionId (UseAgent.sessions st))
            || bool_decide (SessionUtils.currentSessionId (UseAgent.sessions st)
                            = Some TEMPORARY_SESSION_ID) = true) as Hg.
    { destruct Hcur as [->| ->]; [done|]. rewrite bool_decide_eq_true_2 by done.
      apply orb_true_r. }
    unfold UseAgent.onopenSession. cbn [UseAgent.sessions UseAgent.setInProgress].
    rewrite Hg, Hsid. cbn [falsy default]. rewrite bool_decide_eq_false_2 by done.
    split; [done|].
    unfold UseAgent.onopenExecution.
    set (st' := UseAgent.setCurrentSessionId _ _).
    assert (holdsSession agentId sid (UseAgent.openedAt x)
              (if falsy (UseAgent.sessionNameHeader resp) then DEFAULT_SESSION_NAME
               else default "" (UseAgent.sessionNameHeader resp))
              (UseAgent.sessions st')) as Hh.
    { unfold holdsSession, st'.
      cbn [UseAgent.sessions UseAgent.setCurrentSessionId UseAgent.setAllSessions
           SessionUtils.setAllSessions SessionUtils.allSessions].
      unfold SessionUtils.createSessionFromResponse.
      rewrite agentSessions_insert, obj_get_set_eq. eexists. split; [done|]. done. }
    destruct (falsy (UseAgent.executionIdHeader resp)); [done|].
    destruct (UseAgent.attachExecutionId _ _ _); [|done].
    cbn [UseAgent.syncSessionRef_current UseAgent.setAllSessions UseAgent.sessions
         UseAgent.setMessages UseAgent.allocate].
    by apply syncSession_holdsSession. }
  split.
  - by rewrite after_onopen_sessionId.
  - by apply after_onopen_holdsSession.
Qed.

End SessionIdAssigned.

(** X18.  The session id is assigned once.  A send on a runner whose
    current session id is established never changes it, whatever the
    response's headers.  A send on a runner without established session
    (falsy or temporary id) whose response has a status below 400 and a
    non-empty session id header ends, however the stream goes, with that
    id as current session id and with a stored session under it that has
    the id as [id], the time of the response as [createdAt] and the name
    header, or ["New Chat"] without one, as [name]. *)
Theorem session_id_assigned_once (agentId input : string) (skip : bool) (now : Z)
    (x : UseAgent.Exchange) (st : UseAgent.Agent) :
  let r := (UseAgent.handleSend agentId input skip now x st).1 in
  let cur := SessionUtils.currentSessionId (UseAgent.sessions st) in
  (established cur -> SessionUtils.currentSessionId (UseAgent.sessions r) = cur)
  /\ (forall resp sid,
        falsy cur = true \/ cur = Some TEMPORARY_SESSION_ID ->
        UseAgent.response x = Some resp -> UseAgent.status resp < 400 ->
        UseAgent.sessionIdHeader resp = Some sid -> sid ≠ "" ->
        SessionUtils.currentSessionId (UseAgent.sessions r) = Some sid
        /\ holdsSession agentId sid (UseAgent.openedAt x)
             (if falsy (UseAgent.sessionNameHeader resp) then DEFAULT_SESSION_NAME
              else default "" (UseAgent.sessionNameHeader resp))
             (UseAgent.sessions r)).
Proof.
  intros r cur. unfold r, UseAgent.handleSend.
  set (st0 := if skip then _ else _).
  assert (SessionUtils.currentSessionId (UseAgent.sessions st0) = cur) as H0
    by (unfold st0; by destruct skip).
  split.
  - intros Hest.
    pose proof (runAgent_sessionId_established agentId input x st0) as Hr.
    rewrite H0 in Hr. specialize (Hr Hest).
    destruct (UseAgent.runAgent agentId input x st0) as [st1 [|err]]; cbn [fst] in *;
      [done|]. by destruct skip.
  - intros resp sid Hcur Hresp Hstatus Hsid Hne.
    pose proof (runAgent_assigns agentId input x st0 resp sid) as Hr.
    rewrite H0 in Hr. destruct (Hr Hcur Hresp Hstatus Hsid Hne) as [H1 H2].
    destruct (UseAgent.runAgent agentId input x st0) as [st1 [|err]]; cbn [fst] in *;
      [done|].
    destruct skip; [done|]. split; [done|].
    cbn [UseAgent.syncSessionRef_current UseAgent.setAllSessions UseAgent.sessions
         UseAgent.setMessages].
    by apply syncSession_holdsSession.
Qed.

Lemma session_id_assigned_once_witness :
  let st := UseAgent.switchSession (Some "sess_1")
              (UseAgent.setSessions
                 {| SessionUtils.allSessions :=
                      SessionUtils.createSessionFromResponse "a1" "sess_1" "First" [] 3 ∅;
                    SessionUtils.currentSessionId := Some TEMPORARY_SESSION_ID |}
                 (UseAgent.init ∅ ∅)) in
  let x := {| UseAgent.response :=
                Some {| UseAgent.status := 200; UseAgent.statusText := "OK";
                        UseAgent.sessionIdHeader := Some "sess_other";
                        UseAgent.sessionNameHeader := None;
                        UseAgent.executionIdHeader := None |};
              UseAgent.openedAt := 10; UseAgent.frames := [];
              UseAgent.ending := UseAgent.stream_closed; UseAgent.endedAt := 13 |} in
  established (SessionUtils.currentSessionId (UseAgent.sessions st))
  /\ SessionUtils.currentSessionId
       (UseAgent.sessions (UseAgent.handleSend "a1" "hello" false 5 x st).1)
     = Some "sess_1".
Proof.
  intros st x.
  assert (established (SessionUtils.currentSessionId (UseAgent.sessions st))) as Hest.
  { exists "sess_1". split; [reflexivity|]. split; discriminate. }
  split; [exact Hest|].
  exact (proj1 (session_id_assigned_once "a1" "hello" false 5 x st) Hest).
Defined.

(** ** The registry of runners *)

Section Registry.

Lemma obj_get_None_keys {V} (k : string) (o : Obj V) :
  obj_get k o = None <-> k ∉ obj_keys o.
Proof.
  unfold obj_keys. induction o as [|[k0 v0] o IH]; simpl.
  - split; [intros _ H; by apply elem_of_nil in H|done].
  - destruct (decide (k0 = k)) as [->|Hne].
    + split; [done|]. intros H. exfalso. apply H. by left.
    + rewrite IH, not_elem_of_cons. split; [by split; [congruence|]|by intros [_ H]].
Qed.

Lemma map_keys_set {V} (k : string) (v : V) (o : Obj V) :
  obj_keys (map_set k v o)
  = if decide (k ∈ obj_keys o) then obj_keys o else obj_keys o ++ [k].
Proof.
  unfold obj_keys. induction o as [|[k0 v0] o IH]; cbn [map_set].
  - rewrite decide_False; [done|]. intros H. by apply elem_of_nil in H.
  - rewrite !fmap_cons. cbn [fst]. destruct (decide (k0 = k)) as [->|Hne].
    + rewrite decide_True; [done|]. by left.
    + rewrite fmap_cons, IH. cbn [fst].
      destruct (decide (k ∈ o.*1)) as [Hin|Hin].
      * rewrite decide_True; [done|]. by right.
      * rewrite decide_False; [done|]. intros H.
        apply elem_of_cons in H as [->|H]; [done|by apply Hin].
Qed.

Lemma initializeAgent_activeAgents (agentId agentUrl : string) (p : AgentContext.Provider) :
  AgentContext.activeAgents (AgentContext.initializeAgent agentId agentUrl p)
  = map_set agentId agentUrl (AgentContext.activeAgents p)
  \/ (AgentContext.initializeAgent agentId agentUrl p = p
      /\ obj_get agentId (AgentContext.activeAgents p) = Some agentUrl
      /\ agentUrl ≠ "").
Proof.
  unfold AgentContext.initializeAgent.
  destruct (obj_get agentId (AgentContext.activeAgents p)) as [u|] eqn:E; simpl; [|by left].
  case_bool_decide as Hu; [by left|].
  case_bool_decide as Hd; [by left|]. right.
  assert (u = agentUrl) as -> by (destruct (decide (u = agentUrl)); [done|congruence]).
  done.
Qed.

Lemma initializeAgent_keys (agentId agentUrl : string) (p : AgentContext.Provider) :
  obj_keys (AgentContext.activeAgents (AgentContext.initializeAgent agentId agentUrl p))
  = if decide (agentId ∈ obj_keys (AgentContext.activeAgents p))
    then obj_keys (AgentContext.activeAgents p)
    else obj_keys (AgentContext.activeAgents p) ++ [agentId].
Proof.
  destruct (initializeAgent_activeAgents agentId agentUrl p) as [->|(-> & Hget & _)].
  - apply map_keys_set.
  - rewrite decide_True; [done|].
    destruct (decide (agentId ∈ obj_keys (AgentContext.activeAgents p))); [done|].
    apply obj_get_None_keys in n. congruence.
Qed.

End Registry.

(** X19.  The registry of runners.  [initializeAgent] always leaves the
    agent registered with the given url and the other agents as they were;
    called again with the same non-empty url it changes nothing and forces
    no update.  Over any sequence of calls on a provider whose agent ids
    are distinct, the agent ids stay distinct (one runner instance per
    agent id), none is ever removed, and the ids already registered keep
    their place in the order the instances are rendered in. *)
Theorem registry_of_runners :
  (forall agentId agentUrl p,
      obj_get agentId (AgentContext.activeAgents
                         (AgentContext.initializeAgent agentId agentUrl p)) = Some agentUrl
      /\ (forall other, other ≠ agentId ->
            obj_get other (AgentContext.activeAgents
                             (AgentContext.initializeAgent agentId agentUrl p))
            = obj_get other (AgentContext.activeAgents p))
      /\ (agentUrl ≠ "" ->
            AgentContext.initializeAgent agentId agentUrl
              (AgentContext.initializeAgent agentId agentUrl p)
            = AgentContext.initializeAgent agentId agentUrl p))
  /\ (forall calls p,
      NoDup (obj_keys (AgentContext.activeAgents p)) ->
      NoDup (obj_keys (AgentContext.activeAgents (AgentContext.initializeAll calls p)))
      /\ obj_keys (AgentContext.activeAgents p)
         `prefix_of` obj_keys (AgentContext.activeAgents
                                 (AgentContext.initializeAll calls p))).
Proof.
  split.
  - intros agentId agentUrl p.
    assert (obj_get agentId (AgentContext.activeAgents
                               (AgentContext.initializeAgent agentId agentUrl p))
            = Some agentUrl) as Hget.
    { destruct (initializeAgent_activeAgents agentId agentUrl p) as [->|(-> & Hget & _)];
        [apply obj_get_map_set_eq|done]. }
    split; [exact Hget|]. split.
    + intros other Hne.
      destruct (initializeAgent_activeAgents agentId agentUrl p) as [->|(-> & _)]; [|done].
      by rewrite obj_get_map_set_ne.
    + intros Hurl. unfold AgentContext.initializeAgent at 1. rewrite Hget. simpl.
      rewrite bool_decide_eq_false_2 by done.
      rewrite bool_decide_eq_false_2; [done|]. by intros H.
  - intros calls. induction calls as [|[a u] calls IH]; intros p Hp; [done|].
    unfold AgentContext.initializeAll in *. cbn [foldl fst snd].
    pose proof (initializeAgent_keys a u p) as Hk.
    destruct (IH (AgentContext.initializeAgent a u p)) as [Hnd Hpre].
    + rewrite Hk. case_decide as Hin; [done|].
      apply NoDup_app. split; [done|]. split; [|apply NoDup_singleton].
      intros y Hy Hy'. apply list_elem_of_singleton in Hy' as ->. done.
    + split; [exact Hnd|]. etrans; [|exact Hpre]. rewrite Hk.
      case_decide; [done|]. by apply prefix_app_r.
Qed.

Lemma registry_of_runners_witness :
  let calls := [("a1", "https://one"); ("a2", "https://two"); ("a1", "https://moved")] in
  NoDup (obj_keys (AgentContext.activeAgents AgentContext.newProvider))
  /\ NoDup (obj_keys (AgentContext.activeAgents
                        (AgentContext.initializeAll calls AgentContext.newProvider))).
Proof.
  intros calls.
  assert (NoDup (obj_keys (AgentContext.activeAgents AgentContext.newProvider))) as Hp
    by apply NoDup_nil_2.
  split; [exact Hp|].
  exact (proj1 (proj2 registry_of_runners calls AgentContext.newProvider Hp)).
Defined.

Lemma send_keeps_history_witness :
  let x := {| UseAgent.response :=
                Some {| UseAgent.status := 200; UseAgent.statusText := "OK";
                        UseAgent.sessionIdHeader := Some "sess_1";
                        UseAgent.sessionNameHeader := None;
                        UseAgent.executionIdHeader := Some "exec_2" |};
              UseAgent.openedAt := 10;
              UseAgent.frames := [(11%Z, llm_text_delta "Hi" "exec_2")];
              UseAgent.ending := UseAgent.stream_failed; UseAgent.endedAt := 13 |} in
  let st := UseAgent.addOptimisticMessage "a1" "earlier" 3 (UseAgent.init ∅ ∅) in
  false = false
  /\ UseAgent.messages st
     `prefix_of` UseAgent.messages (UseAgent.handleSend "a1" "hello" false 5 x st).1.
Proof.
  intros x st. split; [reflexivity|].
  exact (proj2 (proj2 (send_keeps_history "a1" "hello" false 5 x st)) eq_refl).
Defined.
